(** * Fleet dashboard: the reconciliation and decision engine of [app.py]

    A shallow embedding of [load_initial_data] (the identifier clean-up,
    lines 69-74) and of [run_logic] (lines 89-169), and the properties the
    specification states about them; then of the rest of the loader (lines
    41-82) and of the filter and the metrics strip of the dashboard (lines
    188-195), with further properties of the whole.

    Conventions of the embedding.
    - A pandas [DataFrame] is a row count together with its columns in
      order, each a name and a list of cells.  Column names are text.
    - A cell is text, a number or the missing value [NaN].  Numbers are
      exact rationals, kept in lowest terms; float rounding and the
      infinities are outside the model.
    - [dfs] is a dictionary from role names to tables.  [run_logic] writes
      into the table it finds under ["finance"], so the model threads the
      dictionary through the call.
    - A column that holds text is an [object] column.  A column without
      text is a numeric one: [int64] when each of its numbers is whole and
      fits 64 bits, [float64] otherwise.  Products of an [int64] column
      wrap around at 64 bits, so what is stated of a product is stated
      where it fits 64 bits, where the two kinds of column agree.
    - Python exceptions are values of [exn]; a computation that may raise
      returns a [result].
    - A column found by a name hint has a non-empty name, so the tests
      [if id_col:], [if pay_col:] and the like are tests for [None].
    - The folder and the pandas readers are parameters of the loader; what
      they raise is caught by the loader, so a reader returns an [option]. *)

From Stdlib Require Import QArith Qminmax Qround Lqa String Ascii NArith.
From stdpp Require Import gmap strings list pretty.

(** ** Python text operations *)

Module PyStr.

(** Upper-case letters among the code points below 256. *)
Definition is_upper (c : ascii) : bool :=
  let n := N_of_ascii c in
  ((65 <=? n) && (n <=? 90) || (192 <=? n) && (n <=? 222) && negb (n =? 215))%N.

Definition lower_char (c : ascii) : ascii :=
  if is_upper c then ascii_of_N (N_of_ascii c + 32) else c.

(** [s.lower()] *)
Fixpoint lower (s : string) : string :=
  match s with
  | EmptyString => EmptyString
  | String c s' => String (lower_char c) (lower s')
  end.

(** [s.startswith(p)] *)
Fixpoint starts_with (p s : string) : bool :=
  match p, s with
  | EmptyString, _ => true
  | String a p', String b s' => if Ascii.eqb a b then starts_with p' s' else false
  | String _ _, EmptyString => false
  end.

(** [p in s] *)
Fixpoint contains (p s : string) : bool :=
  starts_with p s ||
  match s with
  | EmptyString => false
  | String _ s' => contains p s'
  end.

(** [s.replace(old, new)] for a non-empty [old]: scan from the left, and
    at every position where [old] starts emit [new] and jump over it.
    [skip] counts the characters of a match still to be jumped over. *)
Fixpoint replace_from (skip : nat) (old new s : string) : string :=
  match s with
  | EmptyString => EmptyString
  | String c s' =>
      match skip with
      | S k => replace_from k old new s'
      | O =>
          if starts_with old s
          then new +:+ replace_from (String.length old - 1) old new s'
          else String c (replace_from 0 old new s')
      end
  end.

(** With an empty [old] Python puts [new] around every character. *)
Fixpoint interleave (new s : string) : string :=
  match s with
  | EmptyString => new
  | String c s' => new +:+ String c (interleave new s')
  end.

Definition replace (old new s : string) : string :=
  match old with
  | EmptyString => interleave new s
  | String _ _ => replace_from 0 old new s
  end.

(** [c.isspace()] on code points below 256. *)
Definition is_space (c : ascii) : bool :=
  let n := N_of_ascii c in
  ((9 <=? n) && (n <=? 13) || (28 <=? n) && (n <=? 32) || (n =? 133) || (n =? 160))%N.

Fixpoint lstrip (s : string) : string :=
  match s with
  | EmptyString => EmptyString
  | String c s' => if is_space c then lstrip s' else s
  end.

Fixpoint rstrip (s : string) : string :=
  match s with
  | EmptyString => EmptyString
  | String c s' =>
      match rstrip s' with
      | EmptyString => if is_space c then EmptyString else String c EmptyString
      | r => String c r
      end
  end.

(** [s.strip()] *)
Definition strip (s : string) : string := rstrip (lstrip s).

(** [sep.join(l)] *)
Fixpoint join (sep : string) (l : list string) : string :=
  match l with
  | [] => EmptyString
  | [x] => x
  | x :: r => x +:+ sep +:+ join sep r
  end.

End PyStr.

(** ** Exceptions *)

Inductive exn : Type :=
| KeyError (key : string)
| TypeError
| ValueError.

Inductive result (A : Type) : Type :=
| Ok (a : A)
| Raise (e : exn).

Arguments Ok {A} a.
Arguments Raise {A} e.

(** Sequencing: the first exception raised ends the computation. *)
Definition bind {A B} (m : result A) (f : A → result B) : result B :=
  match m with
  | Ok a => f a
  | Raise e => Raise e
  end.

Notation "x <- m ;; k" := (bind m (fun x => k))
  (at level 100, m at next level, right associativity).

(** [f] on every element of a series, left to right. *)
Fixpoint mapM {A B} (f : A → result B) (l : list A) : result (list B) :=
  match l with
  | [] => Ok []
  | x :: l' => y <- f x ;; r <- mapM f l' ;; Ok (y :: r)
  end.

(** Element-wise binary operation on two index-aligned series. *)
Fixpoint zipM {A B C} (f : A → B → result C) (l : list A) (k : list B) : result (list C) :=
  match l, k with
  | a :: l', b :: k' => c <- f a b ;; r <- zipM f l' k' ;; Ok (c :: r)
  | _, _ => Ok []
  end.

(** ** Cells and their arithmetic *)

Inductive cell : Type :=
| Str (s : string)
| Num (q : Q)
| NaN.

Definition Qltb (a b : Q) : bool := negb (Qle_bool b a).

(** Equality of two join keys: text with text, number with number; a
    missing key equals nothing. *)
Definition cell_eqb (a b : cell) : bool :=
  match a, b with
  | Str s, Str t => String.eqb s t
  | Num p, Num q => Qeq_bool p q
  | _, _ => false
  end.

Definition is_nan (c : cell) : bool :=
  match c with NaN => true | _ => false end.

(** [x + y] *)
Definition cell_add (a b : cell) : result cell :=
  match a, b with
  | Num p, Num q => Ok (Num (Qred (p + q)))
  | Str s, Str t => Ok (Str (s +:+ t))
  | NaN, Num _ | Num _, NaN | NaN, NaN => Ok NaN
  | _, _ => Raise TypeError
  end.

(** [x - y] *)
Definition cell_sub (a b : cell) : result cell :=
  match a, b with
  | Num p, Num q => Ok (Num (Qred (p - q)))
  | NaN, Num _ | Num _, NaN | NaN, NaN => Ok NaN
  | _, _ => Raise TypeError
  end.

(** [x * k] for a float [k] *)
Definition cell_mul (a : cell) (k : Q) : result cell :=
  match a with
  | Num p => Ok (Num (Qred (p * k)))
  | NaN => Ok NaN
  | Str _ => Raise TypeError
  end.

(** [x / y]; a zero divisor gives a non-finite float, which the model
    renders as [NaN]: pandas does not raise on it. *)
Definition cell_div (a b : cell) : result cell :=
  match a, b with
  | Num p, Num q => Ok (if Qeq_bool q 0 then NaN else Num (Qred (p / q)))
  | NaN, Num _ | Num _, NaN | NaN, NaN => Ok NaN
  | _, _ => Raise TypeError
  end.

(** [x > k] and [x < k] against a number; a comparison with the missing
    value is false. *)
Definition cell_gt (a : cell) (k : Q) : result bool :=
  match a with
  | Num p => Ok (Qltb k p)
  | NaN => Ok false
  | Str _ => Raise TypeError
  end.

Definition cell_lt (a : cell) (k : Q) : result bool :=
  match a with
  | Num p => Ok (Qltb p k)
  | NaN => Ok false
  | Str _ => Raise TypeError
  end.

(** [max(x, y)] as the MAX reduction uses it. *)
Definition cell_max (a b : cell) : result cell :=
  match a, b with
  | Num p, Num q => Ok (Num (if Qltb p q then q else p))
  | Str s, Str t => Ok (Str (if String.ltb s t then t else s))
  | _, _ => Raise TypeError
  end.

(** [Series.fillna(v)] on one cell. *)
Definition fillna (v : Q) (c : cell) : cell :=
  match c with NaN => Num v | _ => c end.

(** [Series.replace(a, b)] on one cell. *)
Definition replace_cell (a b : Q) (c : cell) : cell :=
  match c with
  | Num q => if Qeq_bool q a then Num b else c
  | _ => c
  end.

(** [Series.clip(lower=lo)] on one cell. *)
Definition clip_lower (lo : Q) (c : cell) : result cell :=
  match c with
  | Num q => Ok (Num (if Qltb q lo then lo else q))
  | NaN => Ok NaN
  | Str _ => Raise TypeError
  end.

(** ** Tables *)

Record DataFrame : Type := mkDF {
  nrows : nat;
  columns : list (string * list cell)
}.

(** [pd.DataFrame()] *)
Definition empty_frame : DataFrame := mkDF 0 [].

Definition col_names (df : DataFrame) : list string := map fst (columns df).

(** [df.empty]: no rows or no columns. *)
Definition df_empty (df : DataFrame) : bool :=
  (nrows df =? 0)%nat || (length (columns df) =? 0)%nat.

Fixpoint assoc {A} (k : string) (l : list (string * A)) : option A :=
  match l with
  | [] => None
  | (k', v) :: r => if String.eqb k k' then Some v else assoc k r
  end.

(** Assignment under a name: in place when the name exists, at the end
    otherwise. *)
Fixpoint assoc_set {A} (k : string) (v : A) (l : list (string * A)) : list (string * A) :=
  match l with
  | [] => [(k, v)]
  | (k', v') :: r => if String.eqb k k' then (k, v) :: r else (k', v') :: assoc_set k v r
  end.

(** [name in df.columns] *)
Definition has_col (name : string) (df : DataFrame) : bool :=
  existsb (String.eqb name) (col_names df).

(** [df[name]] *)
Definition get_col (name : string) (df : DataFrame) : result (list cell) :=
  match assoc name (columns df) with
  | Some v => Ok v
  | None => Raise (KeyError name)
  end.

(** [df[name] = series] *)
Definition set_col (name : string) (v : list cell) (df : DataFrame) : DataFrame :=
  mkDF (nrows df) (assoc_set name v (columns df)).

(** [df[name] = scalar] *)
Definition set_scalar (name : string) (c : cell) (df : DataFrame) : DataFrame :=
  set_col name (repeat c (nrows df)) df.

(** [word in name.lower()] *)
Definition name_has (word name : string) : bool :=
  PyStr.contains word (PyStr.lower name).

(** [next((c for c in df.columns if hint(c)), None)] *)
Definition first_col (hint : string → bool) (df : DataFrame) : option string :=
  find hint (col_names df).

(** One row of a table, as [DataFrame.apply(f, axis=1)] and [iterrows]
    hand it over: the cells under their column names. *)
Definition row_at (df : DataFrame) (i : nat) : list (string * cell) :=
  map (λ nc, (nc.1, default NaN (nc.2 !! i))) (columns df).

Definition iterrows (df : DataFrame) : list (list (string * cell)) :=
  map (row_at df) (seq 0 (nrows df)).

(** [row[name]] *)
Definition row_get (row : list (string * cell)) (name : string) : result cell :=
  match assoc name row with
  | Some c => Ok c
  | None => Raise (KeyError name)
  end.

(** [df.fillna(v)] *)
Definition df_fillna (v : Q) (df : DataFrame) : DataFrame :=
  mkDF (nrows df) (map (λ nc, (nc.1, map (fillna v) nc.2)) (columns df)).

(** ** Source aggregator and merge engine *)

(** The keys of [groupby(key)]: each distinct key once, missing keys
    dropped.  pandas lists them sorted; a left join takes the order of its
    rows from the left table, and each key stands once here, so the model
    keeps the order of first occurrence. *)
Fixpoint group_keys (keys : list cell) : list cell :=
  match keys with
  | [] => []
  | k :: r =>
      let rest := List.filter (λ k', negb (cell_eqb k k')) (group_keys r) in
      if is_nan k then rest else k :: rest
  end.

(** The values of one group. *)
Fixpoint group_vals (k : cell) (keys vals : list cell) : list cell :=
  match keys, vals with
  | k' :: keys', v :: vals' =>
      if cell_eqb k k' then v :: group_vals k keys' vals' else group_vals k keys' vals'
  | _, _ => []
  end.

Fixpoint foldM (f : cell → cell → result cell) (acc : cell) (l : list cell) : result cell :=
  match l with
  | [] => Ok acc
  | x :: r => acc' <- f acc x ;; foldM f acc' r
  end.

(** [.sum()] of a group: missing values are skipped and an empty sum is 0.
    Text adds up by concatenation, as in Python; text with a number is a
    [TypeError]. *)
Definition agg_sum (l : list cell) : result cell :=
  match List.filter (λ c, negb (is_nan c)) l with
  | [] => Ok (Num 0)
  | x :: r => foldM cell_add x r
  end.

(** [.max()] of a group: missing values are skipped and an empty maximum
    is missing. *)
Definition agg_max (l : list cell) : result cell :=
  match List.filter (λ c, negb (is_nan c)) l with
  | [] => Ok NaN
  | x :: r => foldM cell_max x r
  end.

(** [df.groupby('clean_id')[value_col].<reduce>().reset_index()]: one
    (key, reduced value) pair per distinct key. *)
Definition groupby_agg (reduce : list cell → result cell)
    (df : DataFrame) (value_col : string) : result (list (cell * cell)) :=
  keys <- get_col "clean_id" df ;;
  vals <- get_col value_col df ;;
  mapM (λ k, v <- reduce (group_vals k keys vals) ;; Ok (k, v)) (group_keys keys).

(** The value [stats] holds for a key: that of the first pair with the key,
    and the missing value when there is none. *)
Fixpoint lookup_stat (k : cell) (stats : list (cell * cell)) : cell :=
  match stats with
  | [] => NaN
  | (k', v) :: r => if cell_eqb k k' then v else lookup_stat k r
  end.

(** What pandas takes a join key column for.  A column that holds text is
    an [object] column, and [lib.infer_dtype] reads it as text ("string",
    "mixed") unless a whole number stands in it ("mixed-integer"); a column
    without text is a numeric column. *)
Definition is_text (c : cell) : bool :=
  match c with Str _ => true | _ => false end.

Definition is_whole (c : cell) : bool :=
  match c with
  | Num q => (Z.pos (Qden (Qred q)) =? 1)%Z
  | _ => false
  end.

Definition text_keys (keys : list cell) : bool :=
  existsb is_text keys && negb (existsb is_whole keys).

Definition number_keys (keys : list cell) : bool :=
  negb (existsb is_text keys).

(** The check [merge] makes on its two key columns
    ([_maybe_coerce_merge_keys]): with rows on both sides, text keys do not
    merge with number keys. *)
Definition unmergeable (left_keys right_keys : list cell) : bool :=
  match left_keys, right_keys with
  | [], _ | _, [] => false
  | _, _ =>
      text_keys left_keys && number_keys right_keys
      || number_keys left_keys && text_keys right_keys
  end.

(** The cells of a column at the rows of its table. *)
Definition join_keys (df : DataFrame) (col : list cell) : list cell :=
  map (λ i, default NaN (col !! i)) (seq 0 (nrows df)).

(** The values [stats] holds for a key, one for every pair with the key. *)
Definition found (k : cell) (stats : list (cell * cell)) : list cell :=
  map snd (List.filter (λ kv : cell * cell, cell_eqb k kv.1) stats).

(** The rows of a left join: for every key of the left table, in order, one
    row for every pair of [stats] with that key, and one row with the
    missing value when [stats] has none.  A row is the position of the left
    row it repeats, and the value it gains. *)
Definition left_join (keys : list cell) (stats : list (cell * cell)) : list (nat * cell) :=
  flat_map (λ ik : nat * cell,
              match found ik.2 stats with
              | [] => [(ik.1, NaN)]
              | vs => map (pair ik.1) vs
              end)
           (combine (seq 0 (length keys)) keys).

(** [master.merge(stats.rename(columns={...: out}), on='clean_id', how='left')]:
    a [ValueError] when the two key columns do not merge; otherwise the rows
    of the left join, every column of [master] repeated along them.  The
    engine never merges a column [master] already has, so the new column
    goes at the end under its own name; [stats] comes from a [groupby] and
    holds no missing key. *)
Definition merge_left (master : DataFrame) (stats : list (cell * cell)) (out : string)
    : result DataFrame :=
  ids <- get_col "clean_id" master ;;
  let keys := join_keys master ids in
  if unmergeable keys (map fst stats) then Raise ValueError
  else
    let rows := left_join keys stats in
    Ok (mkDF (length rows)
          (map (λ nc : string * list cell,
                  (nc.1, map (λ r : nat * cell, default NaN (nc.2 !! r.1)) rows))
               (columns master)
           ++ [(out, map snd rows)])).

Section Engine.

(** What the platform supplies: how [pd.to_numeric] reads text as a
    number, how the [.2f] format and [str] render a float. *)
Variable to_float : string → option Q.
Variable format_2f : Q → string.
Variable repr_float : Q → string.

(** ** Identity resolver ([load_initial_data], lines 69-74) *)

(** [.astype(str)] on one cell. *)
Definition astype_str (c : cell) : string :=
  match c with
  | Str s => s
  | Num q => repr_float q
  | NaN => "nan"
  end.

(** [df[id_col].astype(str).str.replace('SPOT-', '').str.strip()] on one
    cell.  The pattern has no character that is special in a regular
    expression, so it is the literal text in every pandas version. *)
Definition clean_id (c : cell) : string :=
  PyStr.strip (PyStr.replace "SPOT-" EmptyString (astype_str c)).

Definition id_hint (c : string) : bool :=
  name_has "unit" c || (name_has "truck" c && negb (name_has "price" c)).

Definition standardize_id (df : DataFrame) : DataFrame :=
  match first_col id_hint df with
  | Some id_col =>
      set_col "clean_id"
        (map (λ c, Str (clean_id c)) (default [] (assoc id_col (columns df)))) df
  | None => df
  end.

(** ** Calculation engine ([run_logic]) *)

(** [pd.to_numeric(s, errors='coerce')] on one cell. *)
Definition to_numeric (c : cell) : cell :=
  match c with
  | Str s => match to_float s with Some q => Num q | None => NaN end
  | _ => c
  end.

(** What an [int64] column holds: whole numbers that fit 64 bits.  pandas
    makes a column of such numbers an [int64] column when it reads a sheet,
    and [to_numeric] does when every cell parses to one. *)
Definition int64_min : Z := (- 2 ^ 63)%Z.

Definition int64_max : Z := (2 ^ 63 - 1)%Z.

Definition is_int64 (c : cell) : bool :=
  match c with
  | Num q =>
      (Z.pos (Qden (Qred q)) =? 1)%Z
      && (int64_min <=? Qnum (Qred q))%Z && (Qnum (Qred q) <=? int64_max)%Z
  | _ => false
  end.

(** Arithmetic on [int64] wraps around at 64 bits. *)
Definition wrap_int64 (z : Z) : Z := ((z - int64_min) mod 2 ^ 64 + int64_min)%Z.

(** [pd.to_numeric(s, errors='coerce').fillna(0) * 12] on one cell of a
    column that is [int64] after the coercion, or is not: the coerced and
    filled cell is always a number, and the product of an [int64] column
    wraps around, where that of a [float64] column does not. *)
Definition payoff_cell (int64 : bool) (c : cell) : cell :=
  match fillna 0 (to_numeric c) with
  | Num q =>
      if int64 then Num (inject_Z (wrap_int64 (Qnum (Qred q) * 12)))
      else Num (Qred (q * 12))
  | other => other
  end.

(** Line 102 on the payment column. *)
Definition payoff_column (col : list cell) : list cell :=
  map (payoff_cell (forallb is_int64 (map to_numeric col))) col.

Definition pay_hint (c : string) : bool :=
  name_has "pay" c && name_has "month" c.

(** Lines 100-104: the payoff balance is written into the finance table
    itself. *)
Definition estimate_payoff (df_fin : DataFrame) : DataFrame :=
  match first_col pay_hint df_fin with
  | Some pay_col =>
      set_col "payoff_balance"
        (payoff_column (default [] (assoc pay_col (columns df_fin)))) df_fin
  | None => set_scalar "payoff_balance" (Num 0) df_fin
  end.

(** Lines 109-111, one turn of the loop. *)
Definition add_meta (df_fin : DataFrame) (master : DataFrame) (c : string) : result DataFrame :=
  match first_col (name_has c) df_fin with
  | Some col => v <- get_col col df_fin ;; Ok (set_col c v master)
  | None => Ok (set_scalar c (Str "N/A") master)
  end.

(** Lines 148-163.  The default "INSPECT" is the value of the chain when
    no branch assigns. *)
Definition get_rec (row : list (string * cell)) : result (string * string) :=
  odometer <- row_get row "odometer" ;;
  high_miles <- cell_gt odometer 500000 ;;
  cpm <- row_get row "cpm" ;;
  high_cpm <- cell_gt cpm 0.15 ;;
  net_equity <- row_get row "net_equity" ;;
  pos_equity <- cell_gt net_equity 0 ;;
  let reasons : list string :=
    (if high_miles then ["High Miles"] else [])
    ++ (if high_cpm
        then ["High CPM ($" +:+ match cpm with Num q => format_2f q | _ => "nan" end +:+ ")"]
        else [])
    ++ [if pos_equity then "Pos Equity" else "Neg Equity"] in
  rec <-
    (if (high_miles || high_cpm) && pos_equity then Ok "SELL"
     else
       low_cpm <- cell_lt cpm 0.12 ;;
       busy <- (if low_cpm
               then recent_miles <- row_get row "recent_miles" ;; cell_gt recent_miles 2000
               else Ok false) ;;
       if busy then Ok "KEEP"
       else
         recent_miles <- row_get row "recent_miles" ;;
         idle <- cell_lt recent_miles 1000 ;;
         under <- (if idle then cell_lt net_equity 0 else Ok false) ;;
         if under then Ok "INSPECT" else Ok "INSPECT") ;;
  Ok (rec, PyStr.join ", " reasons).

(** Lines 106-111: the roster, a copy of two finance columns, and the
    descriptive attributes. *)
Definition base_master (df_fin : DataFrame) : result DataFrame :=
  ids <- get_col "clean_id" df_fin ;;
  payoff <- get_col "payoff_balance" df_fin ;;
  let master := mkDF (nrows df_fin) [("clean_id", ids); ("payoff_balance", payoff)] in
  master <- add_meta df_fin master "make" ;;
  master <- add_meta df_fin master "model" ;;
  add_meta df_fin master "year".

(** Lines 113-118 *)
Definition merge_repairs (df_rep master : DataFrame) : result DataFrame :=
  if negb (df_empty df_rep) && has_col "clean_id" df_rep then
    match first_col (name_has "amount") df_rep with
    | Some amt_col =>
        stats <- groupby_agg agg_sum df_rep amt_col ;;
        merge_left master stats "total_repairs"
    | None => Ok master
    end
  else Ok master.

(** Lines 120-125 *)
Definition merge_odometer (df_odo master : DataFrame) : result DataFrame :=
  if negb (df_empty df_odo) && has_col "clean_id" df_odo then
    match first_col (name_has "odo") df_odo with
    | Some odo_col =>
        stats <- groupby_agg agg_max df_odo odo_col ;;
        merge_left master stats "odometer"
    | None => Ok master
    end
  else Ok master.

(** Lines 127-132 *)
Definition merge_distance (df_dist master : DataFrame) : result DataFrame :=
  if negb (df_empty df_dist) && has_col "clean_id" df_dist then
    match first_col (name_has "dist") df_dist with
    | Some dist_col =>
        stats <- groupby_agg agg_sum df_dist dist_col ;;
        merge_left master stats "recent_miles"
    | None => Ok master
    end
  else Ok master.

(** Lines 136-145 *)
Definition formulas (master : DataFrame) : result DataFrame :=
  odometer <- get_col "odometer" master ;;
  wear <- mapM (λ c, cell_mul c 0.05) odometer ;;
  resale <- mapM (cell_sub (Num 65000)) wear ;;
  let master := set_col "est_resale" resale master in
  resale <- get_col "est_resale" master ;;
  resale <- mapM (clip_lower 10000) resale ;;
  let master := set_col "est_resale" resale master in
  resale <- get_col "est_resale" master ;;
  payoff <- get_col "payoff_balance" master ;;
  equity <- zipM cell_sub resale payoff ;;
  let master := set_col "net_equity" equity master in
  repairs <- get_col "total_repairs" master ;;
  miles <- get_col "recent_miles" master ;;
  cpm <- zipM cell_div repairs (map (replace_cell 0 1) miles) ;;
  Ok (set_col "cpm" cpm master).

(** Lines 165-167 *)
Definition recommend (master : DataFrame) : result DataFrame :=
  res <- mapM get_rec (iterrows master) ;;
  let master := set_col "Action" (map (λ r, Str r.1) res) master in
  Ok (set_col "Reasoning" (map (λ r, Str r.2) res) master).

(** Lines 106-134: the merge engine, on the finance table that already
    carries its payoff balance. *)
Definition merged_master (df_fin df_rep df_odo df_dist : DataFrame) : result DataFrame :=
  master <- base_master df_fin ;;
  master <- merge_repairs df_rep master ;;
  master <- merge_odometer df_odo master ;;
  master <- merge_distance df_dist master ;;
  Ok (df_fillna 0 master).

(** Lines 106-169 *)
Definition build_master (df_fin df_rep df_odo df_dist : DataFrame) : result DataFrame :=
  master <- merged_master df_fin df_rep df_odo df_dist ;;
  master <- formulas master ;;
  recommend master.

(** [run_logic(dfs)]: the dictionary as the call leaves it, and what the
    call returns or raises.  The loader gives every role a table of its
    own, so the write to the finance table touches no other entry. *)
Definition run_logic (dfs : gmap string DataFrame)
    : gmap string DataFrame * result DataFrame :=
  let df_fin := default empty_frame (dfs !! "finance") in
  let df_rep := default empty_frame (dfs !! "repairs") in
  let df_odo := default empty_frame (dfs !! "odometer") in
  let df_dist := default empty_frame (dfs !! "distance") in
  if df_empty df_fin || negb (has_col "clean_id" df_fin) then (dfs, Ok empty_frame)
  else
    let df_fin := estimate_payoff df_fin in
    (<["finance" := df_fin]> dfs, build_master df_fin df_rep df_odo df_dist).

End Engine.

(** ** Notions the properties are stated with *)

(** A well-formed table has one cell per row in every column. *)
Definition wf_frame (df : DataFrame) : bool :=
  forallb (λ nc, (length nc.2 =? nrows df)%nat) (columns df).

(** The canonical key a Master Record carries. *)
Definition row_key (row : list (string * cell)) : option string :=
  match assoc "clean_id" row with
  | Some (Str s) => Some s
  | _ => None
  end.

(** A set of records that is exactly a roster: the keys of the records are
    the roster's keys in order, so every key of the roster is the key of
    one record and of one only, and no record has another key. *)
Definition roster_exact (df : DataFrame) (ids : list string) : Prop :=
  map row_key (iterrows df) = map Some ids
  ∧ (∀ id, id ∈ ids →
       length (filter (λ row, row_key row = Some id) (iterrows df)) = 1%nat)
  ∧ (∀ row, row ∈ iterrows df → ∃ id, id ∈ ids ∧ row_key row = Some id).

(** A source the engine does not join: an empty table, one without a
    canonical key, or one without a column for the value. *)
Definition unresolved (word : string) (src : DataFrame) : bool :=
  df_empty src || negb (has_col "clean_id" src)
  || negb (bool_decide (is_Some (first_col (name_has word) src))).

(** No two keys of the list are equal as join keys. *)
Fixpoint distinct_keys (keys : list cell) : bool :=
  match keys with
  | [] => true
  | k :: r => negb (existsb (cell_eqb k) r) && distinct_keys r
  end.

(** The keys of a source merge with those of the roster: the check of the
    left join passes on the roster's keys and the keys the source is grouped
    by. *)
Definition mergeable (roster src : DataFrame) : bool :=
  negb (unmergeable
          (join_keys roster (default [] (assoc "clean_id" (columns roster))))
          (group_keys (default [] (assoc "clean_id" (columns src))))).

(** A number within the range of [int64]. *)
Definition fits_int64 (q : Q) : Prop :=
  (inject_Z int64_min <= q)%Q ∧ (q <= inject_Z int64_max)%Q.

(** A cell that is a number or missing. *)
Definition is_number (c : cell) : bool :=
  match c with Str _ => false | _ => true end.

(** The value column of a source, if it has one, holds no text. *)
Definition numeric_values (word : string) (src : DataFrame) : bool :=
  match first_col (name_has word) src with
  | Some value_col => forallb is_number (default [] (assoc value_col (columns src)))
  | None => true
  end.

(** The conditions of the three rules of the classifier. *)
Definition rule_A (odometer cpm net_equity : Q) : Prop :=
  (500000 < odometer ∨ 0.15 < cpm)%Q ∧ (0 < net_equity)%Q.

Definition rule_B (cpm recent_miles : Q) : Prop :=
  (cpm < 0.12)%Q ∧ (2000 < recent_miles)%Q.

Definition rule_C (recent_miles net_equity : Q) : Prop :=
  (recent_miles < 1000)%Q ∧ (net_equity < 0)%Q.

(** The classifier without its third rule: SELL on rule A, else KEEP on
    rule B, else INSPECT. *)
Definition classify_simple (odometer cpm net_equity recent_miles : Q) : string :=
  if (Qltb 500000 odometer || Qltb 0.15 cpm) && Qltb 0 net_equity then "SELL"
  else if Qltb cpm 0.12 && Qltb 2000 recent_miles then "KEEP"
  else "INSPECT".

(** A derived-metrics record: a row with the four numbers the classifier
    reads. *)
Definition metrics_row (row : list (string * cell)) (odometer cpm net_equity recent_miles : Q)
    : Prop :=
  row_get row "odometer" = Ok (Num odometer) ∧ row_get row "cpm" = Ok (Num cpm)
  ∧ row_get row "net_equity" = Ok (Num net_equity)
  ∧ row_get row "recent_miles" = Ok (Num recent_miles).

(** The divisor of the cost per mile: the recent mileage with 0 replaced
    by 1. *)
Definition divisor (recent_miles : Q) : Q :=
  if Qeq_bool recent_miles 0 then 1%Q else recent_miles.

(** Removal of a leading token only, as the words "prefix token" read. *)
Definition strip_prefix (token s : string) : string :=
  if PyStr.starts_with token s
  then String.substring (String.length token) (String.length s - String.length token) s
  else s.

Definition prefix_key (s : string) : string := PyStr.strip (strip_prefix "SPOT-" s).

(** [erased token s out]: [out] is [s] with every occurrence of [token]
    taken out, the occurrences being found from the left. *)
Inductive erased (token : string) : string → string → Prop :=
| erased_end : erased token EmptyString EmptyString
| erased_token s out :
    erased token s out → erased token (token +:+ s) out
| erased_char c s out :
    PyStr.starts_with token (String c s) = false →
    erased token s out → erased token (String c s) (String c out).

(** [trimmed s out]: [out] is [s] without the whitespace at its two ends. *)
Fixpoint all_space (s : string) : bool :=
  match s with
  | EmptyString => true
  | String c s' => PyStr.is_space c && all_space s'
  end.

Definition trimmed (s out : string) : Prop :=
  (∃ l r, s = l +:+ out +:+ r ∧ all_space l = true ∧ all_space r = true)
  ∧ (∀ c t, out = String c t → PyStr.is_space c = false)
  ∧ (∀ t c, out = t +:+ String c EmptyString → PyStr.is_space c = false).

(** ** A worked fleet *)

(** Two decimals, rounded to the nearest hundredth: the rendering the
    examples use for the [.2f] format and for [str]. *)
Definition fixed2 (q : Q) : string :=
  let n := Qfloor (q * 100 + (1 # 2))%Q in
  let a := Z.abs n in
  (if (n <? 0)%Z then "-" else EmptyString)
  +:+ pretty (a / 100)%Z +:+ "."
  +:+ (if (a mod 100 <? 10)%Z then "0" else EmptyString) +:+ pretty (a mod 100)%Z.

(** The examples hold numbers as numbers, so no text is read as one. *)
Definition no_float (s : string) : option Q := None.

(** The four sheets as the loader parses them, before the identifier
    clean-up. *)
Definition finance_sheet : DataFrame :=
  mkDF 2 [("Unit", [Str "SPOT-1001"; Str "SPOT-77"]);
          ("Payment/Month", [Num 400; Num 500]);
          ("Make", [Str "Volvo"; Str "Mack"]);
          ("Year", [Num 2019; Num 2015])].

Definition repairs_sheet : DataFrame :=
  mkDF 3 [("Truck", [Str " 1001 "; Str "77"; Str "SPOT-77"]);
          ("PO Amount", [Num 250; Num 4000; Num 5000])].

Definition odometer_sheet : DataFrame :=
  mkDF 3 [("truck", [Str "1001"; Str "77"; Str "77"]);
          ("Odometer", [Num 100000; Num 520000; Num 519000])].

Definition distance_sheet : DataFrame :=
  mkDF 3 [("unit_id", [Str "77"; Str "1001"; Str "77"]);
          ("Distance", [Num 2000; Num 5000; Num 500])].

Definition fleet_finance : DataFrame := standardize_id fixed2 finance_sheet.

(** The session state with all four files present. *)
Definition fleet : gmap string DataFrame :=
  <["finance" := fleet_finance]>
    (<["repairs" := standardize_id fixed2 repairs_sheet]>
      (<["odometer" := standardize_id fixed2 odometer_sheet]>
        (<["distance" := standardize_id fixed2 distance_sheet]> ∅))).

(** The session state when only the finance file is present: the loader
    stores an empty table for every file it does not find. *)
Definition roster_only : gmap string DataFrame :=
  <["finance" := fleet_finance]>
    (<["repairs" := empty_frame]>
      (<["odometer" := empty_frame]>
        (<["distance" := empty_frame]> ∅))).

(** The session state when the distance file alone is absent. *)
Definition no_distance : gmap string DataFrame :=
  <["distance" := empty_frame]> fleet.

(** The session state when the repairs sheet brings a canonical key column
    of its own, with numbers in it. *)
Definition numbered_repairs : gmap string DataFrame :=
  <["repairs" := mkDF 1 [("clean_id", [Num 1001]); ("PO Amount", [Num 250])]]> fleet.

(** The session state when the finance file is absent too. *)
Definition no_files : gmap string DataFrame :=
  <["finance" := empty_frame]>
    (<["repairs" := empty_frame]>
      (<["odometer" := empty_frame]>
        (<["distance" := empty_frame]> ∅))).

(** What [run_logic] returns on [fleet]. *)
Definition fleet_master : DataFrame :=
  mkDF 2 [("clean_id", [Str "1001"; Str "77"]);
          ("payoff_balance", [Num 4800; Num 6000]);
          ("make", [Str "Volvo"; Str "Mack"]);
          ("model", [Str "N/A"; Str "N/A"]);
          ("year", [Num 2019; Num 2015]);
          ("total_repairs", [Num 250; Num 9000]);
          ("odometer", [Num 100000; Num 520000]);
          ("recent_miles", [Num 5000; Num 2500]);
          ("est_resale", [Num 60000; Num 39000]);
          ("net_equity", [Num 55200; Num 33000]);
          ("cpm", [Num (1 # 20); Num (18 # 5)]);
          ("Action", [Str "KEEP"; Str "SELL"]);
          ("Reasoning", [Str "Pos Equity"; Str "High Miles, High CPM ($3.60), Pos Equity"])].

(** The same sources with a roster of one vehicle that none of them
    mentions. *)
Definition newcomer : gmap string DataFrame :=
  <["finance" :=
      standardize_id fixed2
        (mkDF 1 [("Unit", [Str "SPOT-500"]); ("Payment/Month", [Num 1000])])]> fleet.

(** Two derived-metrics records: one under rule A and rule B at once, one
    under rule C. *)
Definition worn_but_cheap : list (string * cell) :=
  [("odometer", Num 600000); ("cpm", Num 0.1);
   ("net_equity", Num 5000); ("recent_miles", Num 3000)].

Definition idle_underwater : list (string * cell) :=
  [("odometer", Num 100000); ("cpm", Num 0.5);
   ("net_equity", Num (-2000)); ("recent_miles", Num 500)].

(** ** Notions for the further properties *)

(** The number a cell of the payment column stands for: itself, what its
    text parses to, and 0 when it is missing or does not parse. *)
Definition payment (to_float : string → option Q) (c : cell) : Q :=
  match c with
  | Num q => q
  | Str s => default 0%Q (to_float s)
  | NaN => 0%Q
  end.

(** The columns of a Master Record set, in order. *)
Definition master_columns : list string :=
  ["clean_id"; "payoff_balance"; "make"; "model"; "year";
   "total_repairs"; "odometer"; "recent_miles";
   "est_resale"; "net_equity"; "cpm"; "Action"; "Reasoning"].


(** The numbers of a series, missing values left out. *)
Fixpoint numbers (l : list cell) : list Q :=
  match l with
  | [] => []
  | Num q :: r => q :: numbers r
  | _ :: r => numbers r
  end.

Definition total (l : list Q) : Q := fold_right Qplus 0%Q l.

(** ** Dashboard (lines 188-195) *)

(** [series == value], cell by cell: a number or a missing value equals no
    text. *)
Definition eq_mask (v : string) (series : list cell) : list bool :=
  map (cell_eqb (Str v)) series.

(** [series[mask]]: the entries at the positions where the mask holds. *)
Fixpoint select {A} (mask : list bool) (l : list A) : list A :=
  match mask, l with
  | b :: mask', x :: l' => if b then x :: select mask' l' else select mask' l'
  | _, _ => []
  end.

(** [df[mask]]: the rows at the positions where the mask holds, every
    column cut the same way. *)
Definition df_select (mask : list bool) (df : DataFrame) : DataFrame :=
  mkDF (length (select mask (seq 0 (nrows df))))
       (map (λ nc, (nc.1, select mask nc.2)) (columns df)).

(** Line 188 *)
Definition view_df (filter_opt : string) (master_df : DataFrame) : result DataFrame :=
  if String.eqb filter_opt "All" then Ok master_df
  else
    action <- get_col "Action" master_df ;;
    Ok (df_select (eq_mask filter_opt action) master_df).

(** [series.mean()]: missing values are skipped, and the mean of no value
    is missing. *)
Definition series_mean (l : list cell) : result cell :=
  match List.filter (λ c, negb (is_nan c)) l with
  | [] => Ok NaN
  | x :: r =>
      sum <- foldM cell_add x r ;;
      cell_div sum (Num (Z.of_nat (S (length r)) # 1))
  end.

(** Lines 192-195: the four numbers of the metrics strip, before they are
    formatted. *)
Definition metrics (view_df : DataFrame) : result (nat * cell * cell * cell) :=
  equity <- get_col "net_equity" view_df ;;
  total_equity <- agg_sum equity ;;
  odometer <- get_col "odometer" view_df ;;
  avg_odometer <- series_mean odometer ;;
  cpm <- get_col "cpm" view_df ;;
  avg_cpm <- series_mean cpm ;;
  Ok (nrows view_df, total_equity, avg_odometer, avg_cpm).

(** A row the view of an Action keeps. *)
Definition shows (filter_opt : string) (row : list (string * cell)) : bool :=
  match assoc "Action" row with
  | Some c => cell_eqb (Str filter_opt) c
  | None => false
  end.

(** [a] is the mean of [xs]: missing when there is no number. *)
Definition mean_of (xs : list Q) (a : cell) : Prop :=
  match xs with
  | [] => a = NaN
  | _ => ∃ q, a = Num q ∧ (q * (Z.of_nat (length xs) # 1) == total xs)%Q
  end.

(** ** Data loading ([load_initial_data], lines 41-82) *)

(** [s.endswith(suffix)] *)
Definition ends_with (suffix s : string) : bool :=
  (String.length suffix <=? String.length s)%nat
  && String.eqb
       (String.substring (String.length s - String.length suffix)
          (String.length suffix) s)
       suffix.

(** Line 61: the first sheet whose name does not hold "about", and the
    first sheet when there is none; the default [xl.sheet_names[0]] is
    evaluated before the search, so a workbook without sheets raises. *)
Definition target_sheet (sheet_names : list string) : option string :=
  match sheet_names with
  | [] => None
  | first :: _ =>
      Some (default first (find (λ s, negb (name_has "about" s)) sheet_names))
  end.

Section Loader.

(** The folder and the pandas readers, as the loader meets them:
    [path_exists] is [os.path.exists], [read_csv f h] is
    [pd.read_csv(f, header=h)], [sheet_names f] is
    [pd.ExcelFile(f).sheet_names] and [parse f sheet h] is
    [pd.ExcelFile(f).parse(sheet, header=h)], the header row being 0 where
    the call names none.  [None] is a raised exception, which the loader
    catches. *)
Variable repr_float : Q → string.
Variable path_exists : string → bool.
Variable read_csv : string → nat → option DataFrame.
Variable sheet_names : string → option (list string).
Variable parse : string → string → nat → option DataFrame.

Definition files : list (string * string) :=
  [("finance", "truck-finance.xlsx");
   ("repairs", "maintenancepo-truck.xlsx");
   ("distance", "vehicle-distance-traveled.xlsx");
   ("odometer", "truck-odometer-data-week-.xlsx");
   ("market", "truck-paper.xlsx")].

(** Lines 65-67: a first column without a name means the header is one row
    further down; [df.columns[0]] raises on a table without columns. *)
Definition fix_header (df : DataFrame) (reread : option DataFrame) : option DataFrame :=
  match head (col_names df) with
  | None => None
  | Some first => if name_has "unnamed" first then reread else Some df
  end.

(** Lines 55-67 *)
Definition read_table (filename : string) : option DataFrame :=
  if ends_with ".csv" filename then
    match read_csv filename 0 with
    | Some df => fix_header df (read_csv filename 1)
    | None => None
    end
  else
    match sheet_names filename with
    | Some names =>
        match target_sheet names with
        | Some sheet =>
            match parse filename sheet 0 with
            | Some df => fix_header df (parse filename sheet 1)
            | None => None
            end
        | None => None
        end
    | None => None
    end.

(** Lines 52-81, one turn of the loop: what the role gets. *)
Definition load_table (filename : string) : DataFrame :=
  if path_exists filename then
    match read_table filename with
    | Some df => standardize_id repr_float df
    | None => empty_frame
    end
  else empty_frame.

Definition load_initial_data : gmap string DataFrame :=
  fold_left (λ data rf, <[rf.1 := load_table rf.2]> data) files ∅.

End Loader.

(** Folders for the worked fleet.  Every workbook has an "About" sheet and a
    "Data" sheet; [finance_only] holds the finance workbook and nothing
    else, [full_folder] every file, [empty_folder] none. *)
Definition finance_only (filename : string) : bool :=
  String.eqb filename "truck-finance.xlsx".

Definition no_csv (filename : string) (header : nat) : option DataFrame := None.

Definition two_sheets (filename : string) : option (list string) :=
  Some ["About"; "Data"].

Definition fleet_workbook (filename sheet : string) (header : nat) : option DataFrame :=
  if negb (String.eqb sheet "Data") then None
  else if String.eqb filename "truck-finance.xlsx" then Some finance_sheet
  else if String.eqb filename "maintenancepo-truck.xlsx" then Some repairs_sheet
  else if String.eqb filename "truck-odometer-data-week-.xlsx" then Some odometer_sheet
  else if String.eqb filename "vehicle-distance-traveled.xlsx" then Some distance_sheet
  else None.

Definition empty_folder (filename : string) : bool := false.

Definition full_folder (filename : string) : bool := true.

(** ** Reasoning about raising computations *)

Lemma bind_Ok {A B} (m : result A) (f : A → result B) (b : B) :
  bind m f = Ok b ↔ ∃ a, m = Ok a ∧ f a = Ok b.
Proof.
  destruct m as [a|e]; simpl; split.
  - intros H. exists a. by split.
  - intros (a' & Ha & Hf). by inversion Ha; subst.
  - discriminate.
  - intros (a' & Ha & _). discriminate.
Qed.

(** Split a successful sequence into its successful steps. *)
Ltac ok_steps :=
  repeat match goal with
  | H : bind _ _ = Ok _ |- _ =>
      let a := fresh "a" in
      let Ha := fresh "Hstep" in
      apply bind_Ok in H; destruct H as (a & Ha & H)
  | H : Ok _ = Ok _ |- _ => inversion H; subst; clear H
  | H : Raise _ = Ok _ |- _ => discriminate H
  end.

Lemma mapM_Ok_length {A B} (f : A → result B) l r :
  mapM f l = Ok r → length r = length l.
Proof.
  revert r. induction l as [|x l IH]; intros r H; simpl in H.
  - by inversion H.
  - ok_steps. simpl. f_equal. by apply IH.
Qed.

Lemma mapM_Ok_lookup {A B} (f : A → result B) l r i x :
  mapM f l = Ok r → l !! i = Some x → ∃ y, r !! i = Some y ∧ f x = Ok y.
Proof.
  revert r i. induction l as [|x' l IH]; intros r i H Hi; simpl in H.
  - discriminate.
  - ok_steps. destruct i as [|i]; simpl in *.
    + inversion Hi; subst. eauto.
    + eauto.
Qed.

Lemma zipM_Ok_length {A B C} (f : A → B → result C) l k r :
  zipM f l k = Ok r → length l = length k → length r = length l.
Proof.
  revert k r. induction l as [|a l IH]; intros [|b k] r H Hlen; simpl in *;
    try discriminate.
  - by inversion H.
  - ok_steps. simpl. f_equal. apply (IH k); [done | lia].
Qed.

Lemma zipM_Ok_lookup {A B C} (f : A → B → result C) l k r i a b :
  zipM f l k = Ok r → l !! i = Some a → k !! i = Some b →
  ∃ c, r !! i = Some c ∧ f a b = Ok c.
Proof.
  revert k r i. induction l as [|a' l IH]; intros [|b' k] r i H Ha Hb; simpl in *;
    try discriminate.
  ok_steps. destruct i as [|i]; simpl in *.
  - inversion Ha; inversion Hb; subst. eauto.
  - eauto.
Qed.

(** ** Columns under assignment *)

Lemma assoc_set_eq {A} k (v : A) l : assoc k (assoc_set k v l) = Some v.
Proof.
  induction l as [|[k' v'] l IH]; simpl.
  - by rewrite String.eqb_refl.
  - destruct (String.eqb k k') eqn:E; simpl; rewrite ?String.eqb_refl, ?E; done.
Qed.

Lemma assoc_set_ne {A} k k' (v : A) l :
  k ≠ k' → assoc k (assoc_set k' v l) = assoc k l.
Proof.
  intros Hne. induction l as [|[k0 v0] l IH]; simpl.
  - by apply String.eqb_neq in Hne as ->.
  - destruct (String.eqb k' k0) eqn:E; simpl.
    + apply String.eqb_eq in E as <-. by apply String.eqb_neq in Hne as ->.
    + by rewrite IH.
Qed.

Lemma assoc_app_Some {A} k (x : A) l l' :
  assoc k l = Some x → assoc k (l ++ l') = Some x.
Proof.
  induction l as [|[k0 v0] l IH]; simpl; [discriminate|].
  destruct (String.eqb k k0); auto.
Qed.

Lemma assoc_app_None {A} k (l l' : list (string * A)) :
  assoc k l = None → assoc k (l ++ l') = assoc k l'.
Proof.
  induction l as [|[k0 v0] l IH]; simpl; [done|].
  destruct (String.eqb k k0); [discriminate | auto].
Qed.

Lemma assoc_Some_elem {A} k (x : A) l : assoc k l = Some x → (k, x) ∈ l.
Proof.
  induction l as [|[k0 v0] l IH]; simpl; [discriminate|].
  destruct (String.eqb k k0) eqn:E.
  - intros [= <-]. apply String.eqb_eq in E as <-. left.
  - intros H. right. auto.
Qed.

Lemma assoc_set_same {A} k (v w : A) l :
  assoc_set k v (assoc_set k w l) = assoc_set k v l.
Proof.
  induction l as [|[k0 v0] l IH]; simpl.
  - by rewrite String.eqb_refl.
  - destruct (String.eqb k k0) eqn:E; simpl; rewrite ?String.eqb_refl, ?E; [done|].
    by rewrite IH.
Qed.

Lemma get_col_Ok name df v : get_col name df = Ok v ↔ assoc name (columns df) = Some v.
Proof.
  unfold get_col. destruct (assoc name (columns df)); split; congruence.
Qed.

Lemma get_set_col_eq name v df : get_col name (set_col name v df) = Ok v.
Proof. unfold get_col, set_col; simpl. by rewrite assoc_set_eq. Qed.

Lemma get_set_col_ne name name' v df :
  name ≠ name' → get_col name (set_col name' v df) = get_col name df.
Proof. intros. unfold get_col, set_col; simpl. by rewrite assoc_set_ne. Qed.

(** ** Well-formed tables: every column has one cell per row *)

Lemma wf_frame_Forall df :
  wf_frame df = true ↔ Forall (λ nc, length nc.2 = nrows df) (columns df).
Proof.
  unfold wf_frame. rewrite forallb_forall, Forall_forall.
  split; intros H nc Hin.
  - apply Nat.eqb_eq, H. by apply list_elem_of_In.
  - apply Nat.eqb_eq, H. by apply list_elem_of_In.
Qed.

Lemma wf_get_col df name v :
  wf_frame df = true → get_col name df = Ok v → length v = nrows df.
Proof.
  rewrite wf_frame_Forall, Forall_forall, get_col_Ok. intros Hwf Hget.
  apply (Hwf (name, v)). by apply assoc_Some_elem.
Qed.

Lemma Forall_assoc_set {A} (P : string * A → Prop) k v l :
  Forall P l → P (k, v) → Forall P (assoc_set k v l).
Proof.
  intros Hl Hv. induction Hl as [|[k0 v0] l H0 Hl IH]; simpl.
  - by constructor.
  - destruct (String.eqb k k0); constructor; auto.
Qed.

Lemma wf_set_col df name v :
  wf_frame df = true → length v = nrows df → wf_frame (set_col name v df) = true.
Proof.
  rewrite !wf_frame_Forall. intros Hwf Hlen. simpl.
  by apply Forall_assoc_set.
Qed.

Lemma wf_set_scalar df name c :
  wf_frame df = true → wf_frame (set_scalar name c df) = true.
Proof. intros. apply wf_set_col; [done | by rewrite repeat_length]. Qed.
(** ** Rows of a table *)

Lemma assoc_row_at df i name :
  assoc name (row_at df i) = (λ v, default NaN (v !! i)) <$> assoc name (columns df).
Proof.
  unfold row_at. induction (columns df) as [|[k v] l IH]; simpl; [done|].
  destruct (String.eqb name k); [done | apply IH].
Qed.

Lemma elem_of_iterrows df row :
  row ∈ iterrows df ↔ ∃ i, (i < nrows df)%nat ∧ row = row_at df i.
Proof.
  unfold iterrows. rewrite list_elem_of_In, in_map_iff. split.
  - intros (i & <- & Hi). exists i. split; [|done].
    apply in_seq in Hi. lia.
  - intros (i & Hi & ->). exists i. split; [done|]. apply in_seq. lia.
Qed.

Lemma row_get_row_at df i name v c :
  get_col name df = Ok v → v !! i = Some c → row_get (row_at df i) name = Ok c.
Proof.
  rewrite get_col_Ok. intros Hv Hc. unfold row_get.
  rewrite assoc_row_at, Hv. simpl. by rewrite Hc.
Qed.

Lemma length_iterrows df : length (iterrows df) = nrows df.
Proof. unfold iterrows. by rewrite length_map, length_seq. Qed.

(** ** Column inference *)

Lemma col_names_set_col name v df :
  col_names (set_col name v df) =
    if has_col name df then col_names df else col_names df ++ [name].
Proof.
  unfold has_col, col_names, set_col; simpl.
  induction (columns df) as [|[k w] l IH]; simpl; [done|].
  destruct (String.eqb name k) eqn:E; simpl.
  - apply String.eqb_eq in E as ->. done.
  - rewrite IH. by destruct (existsb (String.eqb name) (map fst l)).
Qed.

Lemma first_col_set_col hint name v df :
  hint name = false → first_col hint (set_col name v df) = first_col hint df.
Proof.
  intros Hh. unfold first_col. rewrite col_names_set_col.
  destruct (has_col name df); [done|].
  induction (col_names df) as [|k l IH]; simpl.
  - by rewrite Hh.
  - destruct (hint k); [done | apply IH].
Qed.

Lemma first_col_Some hint df name :
  first_col hint df = Some name → hint name = true ∧ ∃ v, get_col name df = Ok v.
Proof.
  unfold first_col, col_names, get_col. intros H.
  apply find_some in H as [Hin Hh]. split; [done|].
  induction (columns df) as [|[k w] l IH]; simpl in *; [done|].
  destruct (String.eqb name k) eqn:E; [eauto|].
  destruct Hin as [->|Hin]; [by rewrite String.eqb_refl in E | auto].
Qed.

Lemma has_col_set_col name name' v df :
  has_col name (set_col name' v df) = has_col name df || String.eqb name name'.
Proof.
  unfold has_col. rewrite col_names_set_col.
  destruct (has_col name' df) eqn:E; unfold has_col in E.
  - destruct (String.eqb name name') eqn:E'.
    + apply String.eqb_eq in E' as ->. rewrite E. done.
    + by rewrite orb_false_r.
  - rewrite existsb_app. simpl. by rewrite orb_false_r.
Qed.

Lemma df_empty_set_col name v df :
  df_empty df = false → df_empty (set_col name v df) = false.
Proof.
  unfold df_empty, set_col; simpl. rewrite !orb_false_iff. intros [Hr Hc].
  split; [done|]. destruct (columns df) as [|[k w] l]; simpl in *; [done|].
  by destruct (String.eqb name k).
Qed.

(** ** The decision classifier *)

Lemma Qltb_lt a b : Qltb a b = true ↔ (a < b)%Q.
Proof.
  unfold Qltb. rewrite negb_true_iff, <- not_true_iff_false, Qle_bool_iff.
  split; [apply Qnot_le_lt | apply Qlt_not_le].
Qed.

Lemma Qltb_ge a b : Qltb a b = false ↔ (b <= a)%Q.
Proof.
  unfold Qltb. rewrite negb_false_iff. apply Qle_bool_iff.
Qed.

Lemma get_rec_action format_2f row o c e m :
  metrics_row row o c e m →
  ∃ reasoning, get_rec format_2f row = Ok (classify_simple o c e m, reasoning).
Proof.
  intros (Ho & Hc & He & Hm). unfold get_rec, classify_simple.
  rewrite Ho, Hc, He, Hm. simpl.
  destruct ((Qltb 500000 o || Qltb 0.15 c) && Qltb 0 e); simpl; [eauto|].
  destruct (Qltb c 0.12); simpl.
  - destruct (Qltb 2000 m); simpl; [eauto|].
    destruct (Qltb m 1000); simpl; [destruct (Qltb e 0)|]; eauto.
  - destruct (Qltb m 1000); simpl; [destruct (Qltb e 0)|]; eauto.
Qed.

Lemma rule_A_bool o c e :
  (Qltb 500000 o || Qltb 0.15 c) && Qltb 0 e = true ↔ rule_A o c e.
Proof.
  unfold rule_A. rewrite andb_true_iff, orb_true_iff, !Qltb_lt. done.
Qed.

Lemma rule_B_bool c m : Qltb c 0.12 && Qltb 2000 m = true ↔ rule_B c m.
Proof. unfold rule_B. by rewrite andb_true_iff, !Qltb_lt. Qed.

Lemma classify_simple_cases o c e m :
  (rule_A o c e ∧ classify_simple o c e m = "SELL")
  ∨ (¬ rule_A o c e ∧ rule_B c m ∧ classify_simple o c e m = "KEEP")
  ∨ (¬ rule_A o c e ∧ ¬ rule_B c m ∧ classify_simple o c e m = "INSPECT").
Proof.
  unfold classify_simple.
  destruct ((Qltb 500000 o || Qltb 0.15 c) && Qltb 0 e) eqn:EA.
  - left. split; [by apply rule_A_bool | done].
  - right. assert (¬ rule_A o c e) as HA.
    { rewrite <- rule_A_bool, EA. discriminate. }
    destruct (Qltb c 0.12 && Qltb 2000 m) eqn:EB.
    + left. split; [done|]. split; [by apply rule_B_bool | done].
    + right. split; [done|]. split; [|done].
      rewrite <- rule_B_bool, EB. discriminate.
Qed.

(** C3: on a derived-metrics record the classifier answers SELL whenever
    rule A holds, also when rule B holds with it; KEEP under rule B without
    rule A; INSPECT under rule C alone and when no rule holds. *)
Theorem classifier_priority format_2f row o c e m :
  metrics_row row o c e m →
  ∃ action reasoning,
    get_rec format_2f row = Ok (action, reasoning)
    ∧ (rule_A o c e → rule_B c m → action = "SELL")
    ∧ (rule_A o c e → action = "SELL")
    ∧ (¬ rule_A o c e → rule_B c m → action = "KEEP")
    ∧ (¬ rule_A o c e → ¬ rule_B c m → rule_C m e → action = "INSPECT")
    ∧ (¬ rule_A o c e → ¬ rule_B c m → ¬ rule_C m e → action = "INSPECT").
Proof.
  intros Hrow. destruct (get_rec_action format_2f row o c e m Hrow) as [reasoning Hrec].
  exists (classify_simple o c e m), reasoning. split; [done|].
  destruct (classify_simple_cases o c e m) as [[HA ->]|[(HA & HB & ->)|(HA & HB & ->)]];
    repeat split; intros; try done; try contradiction.
Qed.

(** C10: the classifier is the two-rule classifier, SELL on rule A, else
    KEEP on rule B, else INSPECT: the branch of rule C changes no answer,
    and the answer is INSPECT exactly when neither rule A nor rule B holds. *)
Theorem rule_C_redundant format_2f row o c e m :
  metrics_row row o c e m →
  ∃ reasoning,
    get_rec format_2f row = Ok (classify_simple o c e m, reasoning)
    ∧ (classify_simple o c e m = "INSPECT" ↔ ¬ rule_A o c e ∧ ¬ rule_B c m).
Proof.
  intros Hrow. destruct (get_rec_action format_2f row o c e m Hrow) as [reasoning Hrec].
  exists reasoning. split; [done|].
  destruct (classify_simple_cases o c e m) as [[HA E]|[(HA & HB & E)|(HA & HB & E)]];
    rewrite E; split; try done; try discriminate; intros [? ?]; contradiction.
Qed.
(** The classifier on the two sample records. *)

Lemma classifier_priority_sell :
  ∃ action reasoning,
    get_rec fixed2 worn_but_cheap = Ok (action, reasoning)
    ∧ (rule_A 600000 0.1 5000 → rule_B 0.1 3000 → action = "SELL")
    ∧ (rule_A 600000 0.1 5000 → action = "SELL")
    ∧ (¬ rule_A 600000 0.1 5000 → rule_B 0.1 3000 → action = "KEEP")
    ∧ (¬ rule_A 600000 0.1 5000 → ¬ rule_B 0.1 3000 → rule_C 3000 5000 →
       action = "INSPECT")
    ∧ (¬ rule_A 600000 0.1 5000 → ¬ rule_B 0.1 3000 → ¬ rule_C 3000 5000 →
       action = "INSPECT").
Proof.
  apply (classifier_priority fixed2 worn_but_cheap 600000 0.1 5000 3000).
  repeat split; reflexivity.
Defined.

Lemma rule_C_redundant_inspect :
  ∃ reasoning,
    get_rec fixed2 idle_underwater
      = Ok (classify_simple 100000 0.5 (-2000) 500, reasoning)
    ∧ (classify_simple 100000 0.5 (-2000) 500 = "INSPECT"
       ↔ ¬ rule_A 100000 0.5 (-2000) ∧ ¬ rule_B 0.5 500).
Proof.
  apply (rule_C_redundant fixed2 idle_underwater 100000 0.5 (-2000) 500).
  repeat split; reflexivity.
Defined.

Example worn_but_cheap_sold :
  get_rec fixed2 worn_but_cheap = Ok ("SELL", "High Miles, Pos Equity").
Proof. reflexivity. Qed.

Example idle_underwater_inspected :
  get_rec fixed2 idle_underwater = Ok ("INSPECT", "High CPM ($0.50), Neg Equity").
Proof. reflexivity. Qed.

(** ** The phases of the engine, one by one *)

Lemma wf_estimate_payoff to_float fin :
  wf_frame fin = true → wf_frame (estimate_payoff to_float fin) = true.
Proof.
  intros Hwf. unfold estimate_payoff.
  destruct (first_col pay_hint fin) as [pay_col|] eqn:E.
  - apply first_col_Some in E as [_ [v Hv]].
    apply wf_set_col; [done|].
    unfold payoff_column. rewrite length_map.
    apply get_col_Ok in Hv as Hv'. rewrite Hv'. simpl.
    by eapply wf_get_col.
  - by apply wf_set_scalar.
Qed.

Lemma nrows_estimate_payoff to_float fin :
  nrows (estimate_payoff to_float fin) = nrows fin.
Proof. unfold estimate_payoff. by destruct (first_col pay_hint fin). Qed.

Lemma estimate_payoff_other to_float fin name :
  name ≠ "payoff_balance" →
  get_col name (estimate_payoff to_float fin) = get_col name fin.
Proof.
  intros Hne. unfold estimate_payoff, set_scalar.
  destruct (first_col pay_hint fin); by rewrite get_set_col_ne.
Qed.

Lemma add_meta_spec fin master c m' :
  add_meta fin master c = Ok m' →
  nrows m' = nrows master
  ∧ (wf_frame fin = true → nrows master = nrows fin → wf_frame master = true →
     wf_frame m' = true)
  ∧ (∀ name, name ≠ c → get_col name m' = get_col name master).
Proof.
  unfold add_meta. intros H.
  destruct (first_col _ fin) as [col|]; ok_steps.
  - split; [done|]. split.
    + intros Hfin Hn Hm. apply wf_set_col; [done|].
      rewrite Hn. by eapply wf_get_col.
    + intros name Hne. by apply get_set_col_ne.
  - split; [done|]. split.
    + intros _ _ Hm. by apply wf_set_scalar.
    + intros name Hne. by apply get_set_col_ne.
Qed.

Lemma base_master_spec fin m :
  base_master fin = Ok m →
  nrows m = nrows fin
  ∧ (wf_frame fin = true → wf_frame m = true)
  ∧ get_col "clean_id" m = get_col "clean_id" fin
  ∧ get_col "payoff_balance" m = get_col "payoff_balance" fin.
Proof.
  unfold base_master. intros H. ok_steps.
  rename a into ids, a0 into payoff, a1 into m1, a2 into m2.
  apply add_meta_spec in Hstep1 as (N1 & W1 & K1).
  apply add_meta_spec in Hstep2 as (N2 & W2 & K2).
  apply add_meta_spec in H as (N3 & W3 & K3).
  simpl in N1. split; [congruence|]. split.
  - intros Hwf. apply W3; [done | congruence|]. apply W2; [done | congruence|].
    apply W1; [done | done|].
    unfold wf_frame; simpl.
    rewrite (wf_get_col _ _ _ Hwf Hstep), (wf_get_col _ _ _ Hwf Hstep0).
    by rewrite Nat.eqb_refl.
  - rewrite K3, K2, K1 by done. rewrite Hstep.
    rewrite K3, K2, K1 by done. rewrite Hstep0.
    by unfold get_col; simpl.
Qed.

(** *** The left join *)

Lemma assoc_map_vals {A B} (f : A → B) k (l : list (string * A)) :
  assoc k (map (λ nc, (nc.1, f nc.2)) l) = f <$> assoc k l.
Proof.
  induction l as [|[k0 v0] l IH]; simpl; [done|].
  destruct (String.eqb k k0); [done | apply IH].
Qed.

Lemma cell_eqb_trans a b c :
  cell_eqb a b = true → cell_eqb a c = true → cell_eqb b c = true.
Proof.
  destruct a as [s|p|], b as [t|q|], c as [u|r|]; simpl; try done.
  - intros ->%String.eqb_eq ->%String.eqb_eq. apply String.eqb_refl.
  - rewrite !Qeq_bool_iff. intros H1 H2. by rewrite <- H1, <- H2.
Qed.

Lemma existsb_filter_out k l :
  existsb (cell_eqb k) (List.filter (λ k', negb (cell_eqb k k')) l) = false.
Proof.
  induction l as [|x l IH]; simpl; [done|].
  destruct (cell_eqb k x) eqn:E; simpl; [done|]. by rewrite E.
Qed.

Lemma existsb_filter_false {A} (p q : A → bool) l :
  existsb p l = false → existsb p (List.filter q l) = false.
Proof.
  induction l as [|x l IH]; simpl; [done|].
  intros [Hx Hl]%orb_false_iff. destruct (q x); simpl; [rewrite Hx|]; auto.
Qed.

Lemma distinct_filter (p : cell → bool) l :
  distinct_keys l = true → distinct_keys (List.filter p l) = true.
Proof.
  induction l as [|x l IH]; simpl; [done|].
  intros [Hx Hl]%andb_true_iff. apply negb_true_iff in Hx.
  destruct (p x); simpl; [|auto].
  by rewrite existsb_filter_false, IH.
Qed.

(** [groupby] lists every key once. *)
Lemma distinct_group_keys keys : distinct_keys (group_keys keys) = true.
Proof.
  induction keys as [|k keys IH]; simpl; [done|].
  destruct (is_nan k); simpl; [by apply distinct_filter|].
  by rewrite existsb_filter_out, distinct_filter.
Qed.

Lemma found_absent k stats :
  existsb (cell_eqb k) (map fst stats) = false →
  found k stats = [] ∧ lookup_stat k stats = NaN.
Proof.
  unfold found. induction stats as [|[k' v] stats IH]; simpl; [done|].
  intros [Hk Hs]%orb_false_iff. rewrite Hk. auto.
Qed.

(** With every key once in [stats], a key finds one value at most: the one
    [lookup_stat] gives. *)
Lemma found_distinct (i : nat) k stats :
  distinct_keys (map fst stats) = true →
  match found k stats with
  | [] => [(i, NaN)]
  | vs => map (pair i) vs
  end = [(i, lookup_stat k stats)].
Proof.
  induction stats as [|[k' v] stats IH]; [done|].
  cbn [map fst distinct_keys lookup_stat]. intros [Hk Hs]%andb_true_iff.
  apply negb_true_iff in Hk. unfold found. cbn [List.filter fst].
  destruct (cell_eqb k k') eqn:E.
  - cbn [map snd].
    assert (existsb (cell_eqb k) (map fst stats) = false) as Hno.
    { apply not_true_is_false. intros [x [Hin Hx]]%existsb_exists.
      assert (existsb (cell_eqb k') (map fst stats) = true) as Hyes; [|congruence].
      apply existsb_exists. exists x. split; [done|]. by eapply cell_eqb_trans. }
    destruct (found_absent _ _ Hno) as [Hf _]. unfold found in Hf. by rewrite Hf.
  - by apply IH.
Qed.

Lemma left_join_from s keys stats :
  distinct_keys (map fst stats) = true →
  flat_map (λ ik : nat * cell,
              match found ik.2 stats with
              | [] => [(ik.1, NaN)]
              | vs => map (pair ik.1) vs
              end)
           (combine (seq s (length keys)) keys)
  = combine (seq s (length keys)) (map (λ k, lookup_stat k stats) keys).
Proof.
  intros Hd. revert s. induction keys as [|k keys IH]; intros s; [done|].
  cbn [length seq combine flat_map fst snd].
  by rewrite (found_distinct s k stats Hd), IH.
Qed.

Lemma left_join_distinct keys stats :
  distinct_keys (map fst stats) = true →
  left_join keys stats
  = combine (seq 0 (length keys)) (map (λ k, lookup_stat k stats) keys).
Proof. apply left_join_from. Qed.

Lemma map_fst_combine {A B} (l : list A) (k : list B) :
  length l = length k → map fst (combine l k) = l.
Proof.
  revert k. induction l as [|x l IH]; intros [|y k]; simpl; try done.
  intros [= H]. by rewrite IH.
Qed.

Lemma map_snd_combine {A B} (l : list A) (k : list B) :
  length l = length k → map snd (combine l k) = k.
Proof.
  revert k. induction l as [|x l IH]; intros [|y k]; simpl; try done.
  intros [= H]. by rewrite IH.
Qed.

Lemma length_join_keys df col : length (join_keys df col) = nrows df.
Proof. unfold join_keys. by rewrite length_map, length_seq. Qed.

Lemma join_keys_wf df col : length col = nrows df → join_keys df col = col.
Proof.
  intros Hlen. unfold join_keys. apply list_eq. intros i.
  rewrite list_lookup_fmap.
  destruct (decide (i < nrows df)%nat) as [Hi|Hi].
  - rewrite lookup_seq_lt by done. simpl.
    destruct (lookup_lt_is_Some_2 col i) as [c Hc]; [lia|]. by rewrite Hc.
  - rewrite lookup_seq_ge by lia. simpl. symmetry. apply lookup_ge_None. lia.
Qed.

Lemma join_keys_idem df df' col :
  nrows df' = nrows df → join_keys df' (join_keys df col) = join_keys df col.
Proof.
  intros Hn. apply join_keys_wf. by rewrite length_join_keys.
Qed.

Lemma forallb_join_keys df col :
  forallb is_number col = true → forallb is_number (join_keys df col) = true.
Proof.
  intros Hn. unfold join_keys. apply forallb_forall.
  intros c [i [<- _]]%in_map_iff.
  destruct (col !! i) as [x|] eqn:E; simpl; [|done].
  rewrite forallb_forall in Hn. apply Hn, list_elem_of_In.
  by eapply list_elem_of_lookup_2.
Qed.

(** The keys a [groupby] hands to the join. *)
Lemma groupby_agg_keys reduce src value_col stats :
  groupby_agg reduce src value_col = Ok stats →
  ∃ keys, get_col "clean_id" src = Ok keys ∧ map fst stats = group_keys keys.
Proof.
  unfold groupby_agg. intros H. ok_steps. rename a into keys, a0 into vals.
  exists keys. split; [done|].
  revert stats H. induction (group_keys keys) as [|k l IH]; intros stats H;
    simpl in H; ok_steps; [done|].
  simpl. f_equal. by apply IH.
Qed.

(** A left join with every key once on the right: the rows of the left
    table, each with the value of its key. *)
Lemma merge_left_eq master stats out ids :
  distinct_keys (map fst stats) = true →
  get_col "clean_id" master = Ok ids →
  merge_left master stats out
  = if unmergeable (join_keys master ids) (map fst stats) then Raise ValueError
    else Ok (mkDF (nrows master)
               (map (λ nc : string * list cell, (nc.1, join_keys master nc.2))
                    (columns master)
                ++ [(out, map (λ k, lookup_stat k stats) (join_keys master ids))])).
Proof.
  intros Hd Hids. unfold merge_left. rewrite Hids. cbn [bind].
  destruct (unmergeable _ _); [done|].
  rewrite (left_join_distinct _ _ Hd).
  set (keys := join_keys master ids).
  assert (length (seq 0 (length keys)) = length (map (λ k, lookup_stat k stats) keys))
    as Hlen by (by rewrite length_seq, length_map).
  assert (length keys = nrows master) as Hn by apply length_join_keys.
  f_equal. f_equal.
  - by rewrite length_combine, <- Hlen, length_seq, Nat.min_id.
  - f_equal; [|by rewrite (map_snd_combine _ _ Hlen)].
    apply map_ext. intros [name col]. simpl. f_equal.
    rewrite <- (map_map fst (λ i, default NaN (col !! i))).
    by rewrite (map_fst_combine _ _ Hlen), Hn.
Qed.

Lemma merge_left_distinct master stats out m' :
  distinct_keys (map fst stats) = true →
  merge_left master stats out = Ok m' →
  ∃ ids,
    get_col "clean_id" master = Ok ids
    ∧ unmergeable (join_keys master ids) (map fst stats) = false
    ∧ m' = mkDF (nrows master)
             (map (λ nc : string * list cell, (nc.1, join_keys master nc.2))
                  (columns master)
              ++ [(out, map (λ k, lookup_stat k stats) (join_keys master ids))]).
Proof.
  intros Hd H.
  destruct (get_col "clean_id" master) as [ids|e] eqn:Hids;
    [|unfold merge_left in H; by rewrite Hids in H].
  rewrite (merge_left_eq _ _ _ _ Hd Hids) in H.
  exists ids. split; [done|].
  destruct (unmergeable _ _); [discriminate|]. split; [done|]. by injection H as <-.
Qed.

Lemma get_col_joined name (df : DataFrame) (n : nat) out (new : list cell) v :
  get_col name df = Ok v →
  get_col name
    (mkDF n (map (λ nc : string * list cell, (nc.1, join_keys df nc.2)) (columns df)
             ++ [(out, new)]))
  = Ok (join_keys df v).
Proof.
  rewrite !get_col_Ok. intros Hv. simpl. apply assoc_app_Some.
  by rewrite assoc_map_vals, Hv.
Qed.

Lemma merge_left_spec reduce src value_col stats master out m' :
  groupby_agg reduce src value_col = Ok stats →
  merge_left master stats out = Ok m' →
  nrows m' = nrows master
  ∧ (wf_frame master = true → wf_frame m' = true)
  ∧ (∀ name v, get_col name master = Ok v →
       ∃ v', get_col name m' = Ok v' ∧ (v' = v ∨ v' = join_keys master v)).
Proof.
  intros Hg H. destruct (groupby_agg_keys _ _ _ _ Hg) as (keys & _ & Hk).
  apply merge_left_distinct in H as (ids & Hids & _ & ->);
    [|rewrite Hk; apply distinct_group_keys].
  split; [done|]. split.
  - intros _. apply wf_frame_Forall; simpl. apply Forall_app. split.
    + apply Forall_forall. intros nc [[name col] [<- _]]%list_elem_of_In%in_map_iff.
      simpl. apply length_join_keys.
    + constructor; [|constructor]. simpl. by rewrite length_map, length_join_keys.
  - intros name v Hv. exists (join_keys master v). split; [|by right].
    by apply get_col_joined.
Qed.

Ltac merge_phase H :=
  match type of H with
  | (if ?g then _ else _) = Ok _ =>
      destruct g; [|inversion H; subst; by eauto 6];
      match type of H with
      | match ?c with _ => _ end = Ok _ =>
          destruct c; [|inversion H; subst; by eauto 6];
          ok_steps; eapply merge_left_spec; eassumption
      end
  end.

Lemma merge_repairs_spec src master m' :
  merge_repairs src master = Ok m' →
  nrows m' = nrows master
  ∧ (wf_frame master = true → wf_frame m' = true)
  ∧ (∀ name v, get_col name master = Ok v →
       ∃ v', get_col name m' = Ok v' ∧ (v' = v ∨ v' = join_keys master v)).
Proof. unfold merge_repairs. intros H. merge_phase H. Qed.

Lemma merge_odometer_spec src master m' :
  merge_odometer src master = Ok m' →
  nrows m' = nrows master
  ∧ (wf_frame master = true → wf_frame m' = true)
  ∧ (∀ name v, get_col name master = Ok v →
       ∃ v', get_col name m' = Ok v' ∧ (v' = v ∨ v' = join_keys master v)).
Proof. unfold merge_odometer. intros H. merge_phase H. Qed.

Lemma merge_distance_spec src master m' :
  merge_distance src master = Ok m' →
  nrows m' = nrows master
  ∧ (wf_frame master = true → wf_frame m' = true)
  ∧ (∀ name v, get_col name master = Ok v →
       ∃ v', get_col name m' = Ok v' ∧ (v' = v ∨ v' = join_keys master v)).
Proof. unfold merge_distance. intros H. merge_phase H. Qed.

(** In a table with one cell per row in every column, a merge keeps every
    column as it is. *)
Lemma merge_keeps (master m' : DataFrame) :
  wf_frame master = true →
  (∀ name v, get_col name master = Ok v →
     ∃ v', get_col name m' = Ok v' ∧ (v' = v ∨ v' = join_keys master v)) →
  ∀ name v, get_col name master = Ok v → get_col name m' = Ok v.
Proof.
  intros Hwf K name v Hv. destruct (K name v Hv) as (v' & Hv' & [->| ->]); [done|].
  by rewrite join_keys_wf in Hv' by (by eapply wf_get_col).
Qed.

Lemma get_col_fillna v df name col :
  get_col name (df_fillna v df) = Ok col ↔
  ∃ col0, get_col name df = Ok col0 ∧ col = map (fillna v) col0.
Proof.
  rewrite get_col_Ok. unfold df_fillna; simpl. rewrite assoc_map_vals.
  destruct (assoc name (columns df)) as [col0|] eqn:E; simpl; split.
  - intros [= <-]. exists col0. split; [by apply get_col_Ok | done].
  - intros (c & Hc & ->). apply get_col_Ok in Hc. congruence.
  - discriminate.
  - intros (c & Hc & _). apply get_col_Ok in Hc. congruence.
Qed.

Lemma wf_fillna v df : wf_frame df = true → wf_frame (df_fillna v df) = true.
Proof.
  rewrite !wf_frame_Forall. unfold df_fillna; simpl. intros H.
  apply Forall_forall. intros nc Hin. apply list_elem_of_In, in_map_iff in Hin.
  destruct Hin as ([k c] & <- & Hin). simpl. rewrite length_map.
  rewrite Forall_forall in H. apply (H (k, c)). by apply list_elem_of_In.
Qed.

Lemma fillna_not_nan v c : fillna v c ≠ NaN.
Proof. by destruct c. Qed.
Lemma formulas_spec master m' :
  formulas master = Ok m' →
  ∃ odometer wear resale0 resale payoff equity repairs miles cpm,
    get_col "odometer" master = Ok odometer
    ∧ get_col "payoff_balance" master = Ok payoff
    ∧ get_col "total_repairs" master = Ok repairs
    ∧ get_col "recent_miles" master = Ok miles
    ∧ mapM (λ c, cell_mul c 0.05) odometer = Ok wear
    ∧ mapM (cell_sub (Num 65000)) wear = Ok resale0
    ∧ mapM (clip_lower 10000) resale0 = Ok resale
    ∧ zipM cell_sub resale payoff = Ok equity
    ∧ zipM cell_div repairs (map (replace_cell 0 1) miles) = Ok cpm
    ∧ m' = set_col "cpm" cpm (set_col "net_equity" equity
             (set_col "est_resale" resale (set_col "est_resale" resale0 master))).
Proof.
  unfold formulas. intros H. ok_steps.
  rewrite get_set_col_eq in Hstep2. ok_steps.
  rewrite get_set_col_eq in Hstep4. ok_steps.
  rewrite !get_set_col_ne in Hstep5 by done.
  rewrite !get_set_col_ne in Hstep7 by done.
  rewrite !get_set_col_ne in Hstep8 by done.
  repeat eexists; eassumption.
Qed.

Lemma formulas_keeps master m' :
  formulas master = Ok m' →
  nrows m' = nrows master
  ∧ (wf_frame master = true → wf_frame m' = true)
  ∧ (∀ name, name ≠ "est_resale" → name ≠ "net_equity" → name ≠ "cpm" →
       get_col name m' = get_col name master).
Proof.
  intros H. apply formulas_spec in H
    as (odo & wear & r0 & r & pay & eq & rep & mil & cpm
        & Ho & Hp & Hr & Hm & Hw & Hr0 & Hcl & Heq & Hcpm & ->).
  split; [done|]. split.
  - intros Hwf.
    assert (length wear = nrows master) as Lw.
    { rewrite (mapM_Ok_length _ _ _ Hw). by eapply wf_get_col. }
    assert (length r0 = nrows master) as Lr0.
    { by rewrite (mapM_Ok_length _ _ _ Hr0). }
    assert (length r = nrows master) as Lr.
    { by rewrite (mapM_Ok_length _ _ _ Hcl). }
    pose proof (wf_get_col _ _ _ Hwf Hp) as Lp.
    pose proof (wf_get_col _ _ _ Hwf Hr) as Lrep.
    pose proof (wf_get_col _ _ _ Hwf Hm) as Lm.
    apply wf_set_col; [apply wf_set_col; [apply wf_set_col; [by apply wf_set_col|]|]|];
      simpl; try done.
    + rewrite (zipM_Ok_length _ _ _ _ Heq); [done | congruence].
    + rewrite (zipM_Ok_length _ _ _ _ Hcpm); [done|]. rewrite length_map. congruence.
  - intros name N1 N2 N3. by rewrite !get_set_col_ne.
Qed.

Lemma recommend_keeps format_2f master m' :
  recommend format_2f master = Ok m' →
  nrows m' = nrows master
  ∧ (wf_frame master = true → wf_frame m' = true)
  ∧ (∀ name, name ≠ "Action" → name ≠ "Reasoning" →
       get_col name m' = get_col name master).
Proof.
  unfold recommend. intros H. ok_steps. rename a into res.
  split; [done|]. split.
  - intros Hwf. apply mapM_Ok_length in Hstep. rewrite length_iterrows in Hstep.
    apply wf_set_col; [apply wf_set_col|]; simpl; try done; by rewrite length_map.
  - intros name N1 N2. by rewrite !get_set_col_ne.
Qed.

(** What a successful run went through. *)
Lemma run_logic_Ok to_float format_2f (dfs dfs' : gmap string DataFrame) master :
  run_logic to_float format_2f dfs = (dfs', Ok master) →
  (dfs' = dfs ∧ master = empty_frame
   ∧ (df_empty (default empty_frame (dfs !! "finance"))
      || negb (has_col "clean_id" (default empty_frame (dfs !! "finance"))) = true))
  ∨ (∃ fin, dfs !! "finance" = Some fin
      ∧ df_empty fin = false ∧ has_col "clean_id" fin = true
      ∧ dfs' = <["finance" := estimate_payoff to_float fin]> dfs
      ∧ build_master format_2f (estimate_payoff to_float fin)
          (default empty_frame (dfs !! "repairs"))
          (default empty_frame (dfs !! "odometer"))
          (default empty_frame (dfs !! "distance")) = Ok master).
Proof.
  unfold run_logic.
  destruct (df_empty _ || negb (has_col _ _)) eqn:G.
  - intros [= <- <-]. by left.
  - intros [= <- H]. right.
    apply orb_false_iff in G as [G1 G2]. apply negb_false_iff in G2.
    destruct (dfs !! "finance") as [fin|] eqn:E; simpl in *; [|discriminate].
    exists fin. done.
Qed.

Lemma run_logic_step to_float format_2f (dfs : gmap string DataFrame) fin :
  dfs !! "finance" = Some fin → df_empty fin = false → has_col "clean_id" fin = true →
  run_logic to_float format_2f dfs =
    (<["finance" := estimate_payoff to_float fin]> dfs,
     build_master format_2f (estimate_payoff to_float fin)
       (default empty_frame (dfs !! "repairs"))
       (default empty_frame (dfs !! "odometer"))
       (default empty_frame (dfs !! "distance"))).
Proof.
  intros Hfin He Hc. unfold run_logic. rewrite Hfin. simpl. by rewrite He, Hc.
Qed.

Lemma merged_master_spec fin rep odo dist m :
  merged_master fin rep odo dist = Ok m →
  ∃ m4,
    m = df_fillna 0 m4
    ∧ nrows m4 = nrows fin
    ∧ (wf_frame fin = true → wf_frame m4 = true)
    ∧ (wf_frame fin = true →
       ∀ v, get_col "clean_id" fin = Ok v → get_col "clean_id" m4 = Ok v).
Proof.
  unfold merged_master. intros H. ok_steps.
  rename a into m1, a0 into m2, a1 into m3, a2 into m4.
  apply base_master_spec in Hstep as (N1 & W1 & K1 & _).
  apply merge_repairs_spec in Hstep0 as (N2 & W2 & K2).
  apply merge_odometer_spec in Hstep1 as (N3 & W3 & K3).
  apply merge_distance_spec in Hstep2 as (N4 & W4 & K4).
  exists m4. split; [done|]. split; [congruence|]. split; [auto|].
  intros Hwf v Hv.
  apply (merge_keeps m3 m4); [auto | done|].
  apply (merge_keeps m2 m3); [auto | done|].
  apply (merge_keeps m1 m2); [auto | done|]. by rewrite K1.
Qed.

Lemma build_master_spec format_2f fin rep odo dist master :
  build_master format_2f fin rep odo dist = Ok master →
  ∃ m4 m5,
    nrows m4 = nrows fin
    ∧ (wf_frame fin = true → wf_frame m4 = true)
    ∧ (wf_frame fin = true →
       ∀ v, get_col "clean_id" fin = Ok v → get_col "clean_id" m4 = Ok v)
    ∧ merged_master fin rep odo dist = Ok (df_fillna 0 m4)
    ∧ formulas (df_fillna 0 m4) = Ok m5
    ∧ recommend format_2f m5 = Ok master.
Proof.
  unfold build_master. intros H. ok_steps. rename a into m, a0 into m5.
  destruct (merged_master_spec _ _ _ _ _ Hstep) as (m4 & -> & N4 & W4 & K4).
  by exists m4, m5.
Qed.

(** The columns of the Master Record set a successful run over a
    non-empty roster returns. *)
Lemma build_master_columns format_2f fin rep odo dist master :
  wf_frame fin = true →
  build_master format_2f fin rep odo dist = Ok master →
  nrows master = nrows fin
  ∧ wf_frame master = true
  ∧ (∀ v, get_col "clean_id" fin = Ok v →
       get_col "clean_id" master = Ok (map (fillna 0) v))
  ∧ ∃ odometer0 repairs0 miles0 wear resale0 resale cpm,
      get_col "odometer" master = Ok (map (fillna 0) odometer0)
      ∧ get_col "total_repairs" master = Ok (map (fillna 0) repairs0)
      ∧ get_col "recent_miles" master = Ok (map (fillna 0) miles0)
      ∧ get_col "est_resale" master = Ok resale
      ∧ get_col "cpm" master = Ok cpm
      ∧ mapM (λ c, cell_mul c 0.05) (map (fillna 0) odometer0) = Ok wear
      ∧ mapM (cell_sub (Num 65000)) wear = Ok resale0
      ∧ mapM (clip_lower 10000) resale0 = Ok resale
      ∧ zipM cell_div (map (fillna 0) repairs0)
          (map (replace_cell 0 1) (map (fillna 0) miles0)) = Ok cpm.
Proof.
  intros Hwf H.
  apply build_master_spec in H as (m4 & m5 & N4 & W4 & K4 & _ & Hf & Hr).
  pose proof (formulas_keeps _ _ Hf) as (N5 & W5 & K5).
  pose proof (recommend_keeps _ _ _ Hr) as (N6 & W6 & K6).
  apply formulas_spec in Hf
    as (o & wear & r0 & r & pay & eq & rp & mil & cpm
        & Ho & Hp & Hrp & Hm & Hw & Hr0 & Hcl & Heq & Hcpm & E5).
  apply get_col_fillna in Ho as (o0 & Ho0 & ->).
  apply get_col_fillna in Hrp as (rp0 & Hrp0 & ->).
  apply get_col_fillna in Hm as (mil0 & Hm0 & ->).
  split; [simpl in *; congruence|].
  split; [apply W6, W5, wf_fillna, W4, Hwf|].
  split.
  - intros v Hv. rewrite K6, K5 by done. apply get_col_fillna.
    exists v. split; [by apply K4 | done].
  - exists o0, rp0, mil0, wear, r0, r, cpm.
    rewrite !K6 by done.
    rewrite (K5 "odometer"), (K5 "total_repairs"), (K5 "recent_miles") by done.
    repeat split; try done.
    + apply get_col_fillna. eauto.
    + apply get_col_fillna. eauto.
    + apply get_col_fillna. eauto.
    + subst m5. rewrite 2!get_set_col_ne by done. apply get_set_col_eq.
    + subst m5. by rewrite get_set_col_eq.
Qed.

(** ** The metrics, cell by cell *)

Lemma clip_is_max (lo q : Q) : ((if Qltb q lo then lo else q) == Qmax lo q)%Q.
Proof.
  destruct (Qltb q lo) eqn:E.
  - apply Qltb_lt in E. symmetry. apply Q.max_l. by apply Qlt_le_weak.
  - apply Qltb_ge in E. symmetry. by apply Q.max_r.
Qed.

Lemma resale_cell (c w r0 r : cell) :
  c ≠ NaN →
  cell_mul c 0.05 = Ok w → cell_sub (Num 65000) w = Ok r0 → clip_lower 10000 r0 = Ok r →
  ∃ odometer est_resale,
    c = Num odometer ∧ r = Num est_resale
    ∧ (est_resale == Qmax 10000 (65000 - odometer * 0.05))%Q
    ∧ (10000 <= est_resale)%Q.
Proof.
  intros Hnan Hw Hr0 Hr. destruct c as [s|q|]; simpl in *; [discriminate| |done].
  inversion Hw; subst; clear Hw. simpl in Hr0. inversion Hr0; subst; clear Hr0.
  simpl in Hr. inversion Hr; subst; clear Hr.
  eexists q, _. split; [done|]. split; [done|].
  assert ((if Qltb (Qred (65000 - Qred (q * 0.05))) 10000 then 10000
           else Qred (65000 - Qred (q * 0.05)))
          == Qmax 10000 (65000 - q * 0.05))%Q as E.
  { rewrite clip_is_max. by rewrite !Qred_correct. }
  split; [done|]. rewrite E. apply Q.le_max_l.
Qed.

Lemma cpm_cell (t m c : cell) :
  t ≠ NaN → m ≠ NaN →
  cell_div t (replace_cell 0 1 m) = Ok c →
  ∃ total_repairs recent_miles cpm,
    t = Num total_repairs ∧ m = Num recent_miles ∧ c = Num cpm
    ∧ (cpm == total_repairs / divisor recent_miles)%Q.
Proof.
  intros Ht Hm H. destruct t as [s|qt|]; [discriminate| |done].
  destruct m as [s|qm|]; [discriminate| |done].
  unfold divisor. simpl in H. destruct (Qeq_bool qm 0) eqn:E; simpl in H.
  - inversion H; subst. eexists qt, qm, _. repeat split; try done.
    rewrite E, Qred_correct. reflexivity.
  - rewrite E in H. inversion H; subst. eexists qt, qm, _. repeat split; try done.
    rewrite E, Qred_correct. reflexivity.
Qed.

Lemma divisor_nonzero m : ¬ (divisor m == 0)%Q.
Proof.
  unfold divisor. destruct (Qeq_bool m 0) eqn:E.
  - discriminate.
  - by apply Qeq_bool_neq.
Qed.

Lemma divisor_zero m : (m == 0)%Q → (divisor m == 1)%Q.
Proof.
  intros H. unfold divisor. by rewrite (Qeq_eq_bool _ _ H).
Qed.
(** ** Master Records *)

(** The cells of one Master Record come from the columns at its index. *)
Lemma master_row_cell master row name v :
  wf_frame master = true → row ∈ iterrows master → get_col name master = Ok v →
  ∃ i c, row = row_at master i ∧ v !! i = Some c ∧ row_get row name = Ok c.
Proof.
  intros Hwf Hrow Hv. apply elem_of_iterrows in Hrow as (i & Hi & ->).
  destruct (lookup_lt_is_Some_2 v i) as [c Hc].
  { by rewrite (wf_get_col _ _ _ Hwf Hv). }
  exists i, c. split; [done|]. split; [done|]. by eapply row_get_row_at.
Qed.

Lemma lookup_fillna v col i c : map (fillna v) col !! i = Some c → c ≠ NaN.
Proof.
  intros H. change (map (fillna v) col) with (fillna v <$> col) in H.
  rewrite list_lookup_fmap in H. destruct (col !! i); simpl in H; [|done].
  inversion H. apply fillna_not_nan.
Qed.

(** C4: every Master Record has est_resale = max(10000, 65000 - odometer * 0.05),
    hence est_resale >= 10000. *)
Theorem est_resale_formula to_float format_2f (dfs dfs' : gmap string DataFrame) fin master :
  dfs !! "finance" = Some fin → wf_frame fin = true →
  run_logic to_float format_2f dfs = (dfs', Ok master) →
  ∀ row, row ∈ iterrows master →
    ∃ odometer est_resale,
      row_get row "odometer" = Ok (Num odometer)
      ∧ row_get row "est_resale" = Ok (Num est_resale)
      ∧ (est_resale == Qmax 10000 (65000 - odometer * 0.05))%Q
      ∧ (10000 <= est_resale)%Q.
Proof.
  intros Hfin Hwf Hrun row Hrow.
  apply run_logic_Ok in Hrun as [(_ & -> & _)|(fin' & Hfin' & _ & _ & _ & Hb)].
  { by apply elem_of_nil in Hrow. }
  assert (fin' = fin) as -> by congruence.
  apply build_master_columns in Hb
    as (_ & Wm & _ & o0 & rp0 & mil0 & wear & r0 & r & cpm
        & Ho & _ & _ & Hr & _ & Hw & Hr0 & Hcl & _);
    [|by apply wf_estimate_payoff].
  destruct (master_row_cell _ _ _ _ Wm Hrow Ho) as (i & c & -> & Hc & Hgo).
  destruct (mapM_Ok_lookup _ _ _ _ _ Hw Hc) as (w & Hwi & Hmul).
  destruct (mapM_Ok_lookup _ _ _ _ _ Hr0 Hwi) as (x0 & Hx0 & Hsub).
  destruct (mapM_Ok_lookup _ _ _ _ _ Hcl Hx0) as (x & Hx & Hclip).
  destruct (resale_cell c w x0 x) as (odometer & est_resale & -> & -> & Hmax & Hfloor);
    [by eapply lookup_fillna | done..|].
  exists odometer, est_resale. split; [done|]. split; [|done].
  by eapply row_get_row_at.
Qed.

(** C5: every Master Record has cpm = total_repairs / recent_miles with a zero
    recent_miles replaced by 1; the divisor is never zero, and when
    recent_miles is 0 the cpm is total_repairs. *)
Theorem cpm_formula to_float format_2f (dfs dfs' : gmap string DataFrame) fin master :
  dfs !! "finance" = Some fin → wf_frame fin = true →
  run_logic to_float format_2f dfs = (dfs', Ok master) →
  ∀ row, row ∈ iterrows master →
    ∃ total_repairs recent_miles cpm,
      row_get row "total_repairs" = Ok (Num total_repairs)
      ∧ row_get row "recent_miles" = Ok (Num recent_miles)
      ∧ row_get row "cpm" = Ok (Num cpm)
      ∧ ¬ (divisor recent_miles == 0)%Q
      ∧ (cpm == total_repairs / divisor recent_miles)%Q
      ∧ ((recent_miles == 0)%Q → (cpm == total_repairs)%Q).
Proof.
  intros Hfin Hwf Hrun row Hrow.
  apply run_logic_Ok in Hrun as [(_ & -> & _)|(fin' & Hfin' & _ & _ & _ & Hb)].
  { by apply elem_of_nil in Hrow. }
  assert (fin' = fin) as -> by congruence.
  apply build_master_columns in Hb
    as (_ & Wm & _ & o0 & rp0 & mil0 & wear & r0 & r & cpm
        & _ & Hrp & Hmil & _ & Hcpm & _ & _ & _ & Hdiv);
    [|by apply wf_estimate_payoff].
  destruct (master_row_cell _ _ _ _ Wm Hrow Hrp) as (i & t & -> & Ht & Hgt).
  destruct (lookup_lt_is_Some_2 (map (fillna 0) mil0) i) as [m Hm].
  { rewrite (wf_get_col _ _ _ Wm Hmil). apply lookup_lt_Some in Ht.
    by rewrite (wf_get_col _ _ _ Wm Hrp) in Ht. }
  assert (map (replace_cell 0 1) (map (fillna 0) mil0) !! i = Some (replace_cell 0 1 m))
    as Hm'.
  { change (map (replace_cell 0 1) (map (fillna 0) mil0))
      with (replace_cell 0 1 <$> map (fillna 0) mil0).
    by rewrite list_lookup_fmap, Hm. }
  destruct (zipM_Ok_lookup _ _ _ _ _ _ _ Hdiv Ht Hm') as (c & Hc & Hcell).
  destruct (cpm_cell t m c) as (qt & qm & qc & -> & -> & -> & Heq);
    [by eapply lookup_fillna | by eapply lookup_fillna | done|].
  exists qt, qm, qc.
  split; [done|]. split; [by eapply row_get_row_at|].
  split; [by eapply row_get_row_at|].
  split; [apply divisor_nonzero|]. split; [done|].
  intros Hz. rewrite Heq, (divisor_zero _ Hz). field.
Qed.
Lemma est_resale_formula_fleet :
  (run_logic no_float fixed2 fleet).2 = Ok fleet_master
  ∧ ∀ row, row ∈ iterrows fleet_master →
      ∃ odometer est_resale,
        row_get row "odometer" = Ok (Num odometer)
        ∧ row_get row "est_resale" = Ok (Num est_resale)
        ∧ (est_resale == Qmax 10000 (65000 - odometer * 0.05))%Q
        ∧ (10000 <= est_resale)%Q.
Proof.
  split; [reflexivity|].
  eapply (est_resale_formula no_float fixed2 fleet _ fleet_finance fleet_master);
    reflexivity.
Defined.

Lemma cpm_formula_fleet :
  (run_logic no_float fixed2 fleet).2 = Ok fleet_master
  ∧ ∀ row, row ∈ iterrows fleet_master →
      ∃ total_repairs recent_miles cpm,
        row_get row "total_repairs" = Ok (Num total_repairs)
        ∧ row_get row "recent_miles" = Ok (Num recent_miles)
        ∧ row_get row "cpm" = Ok (Num cpm)
        ∧ ¬ (divisor recent_miles == 0)%Q
        ∧ (cpm == total_repairs / divisor recent_miles)%Q
        ∧ ((recent_miles == 0)%Q → (cpm == total_repairs)%Q).
Proof.
  split; [reflexivity|].
  eapply (cpm_formula no_float fixed2 fleet _ fleet_finance fleet_master);
    reflexivity.
Defined.

(** ** The columns the merge engine builds *)

Lemma has_col_In name df : has_col name df = true ↔ In name (col_names df).
Proof.
  unfold has_col. rewrite existsb_exists. split.
  - intros (x & Hx & E). by apply String.eqb_eq in E as ->.
  - intros H. exists name. split; [done | apply String.eqb_refl].
Qed.

Lemma get_col_has_col name df :
  has_col name df = true ↔ ∃ v, get_col name df = Ok v.
Proof.
  rewrite has_col_In. unfold col_names, get_col.
  induction (columns df) as [|[k w] l IH]; simpl.
  - split; [done | intros [v H]; discriminate].
  - destruct (String.eqb name k) eqn:E.
    + apply String.eqb_eq in E as ->. split; eauto.
    + apply String.eqb_neq in E. rewrite <- IH. split; [intros [?|?]|]; auto.
      by subst.
Qed.

Lemma col_names_fillna v df : col_names (df_fillna v df) = col_names df.
Proof.
  unfold col_names, df_fillna; simpl. rewrite map_map. by apply map_ext.
Qed.

Lemma add_meta_names fin master c m' :
  add_meta fin master c = Ok m' → has_col c master = false →
  col_names m' = col_names master ++ [c].
Proof.
  unfold add_meta, set_scalar. intros H Hc.
  destruct (first_col _ fin); ok_steps; by rewrite col_names_set_col, Hc.
Qed.

Lemma base_master_names fin m :
  base_master fin = Ok m →
  col_names m = ["clean_id"; "payoff_balance"; "make"; "model"; "year"].
Proof.
  unfold base_master. intros H. ok_steps.
  apply add_meta_names in Hstep1; [|done].
  apply add_meta_names in Hstep2; [|by apply not_true_is_false; rewrite has_col_In, Hstep1;
                                    intros [|[|[|]]]].
  apply add_meta_names in H; [|by apply not_true_is_false; rewrite has_col_In, Hstep2, Hstep1;
                                    intros [|[|[|[|]]]]].
  by rewrite H, Hstep2, Hstep1.
Qed.

Lemma merge_left_names master stats out m' :
  merge_left master stats out = Ok m' → col_names m' = col_names master ++ [out].
Proof.
  unfold merge_left. intros H. ok_steps.
  destruct (unmergeable _ _); [discriminate|]. injection H as <-.
  unfold col_names; simpl. by rewrite map_app, map_map.
Qed.

Lemma unresolved_false word src :
  unresolved word src = false →
  df_empty src = false ∧ has_col "clean_id" src = true
  ∧ ∃ value_col, first_col (name_has word) src = Some value_col.
Proof.
  unfold unresolved. rewrite !orb_false_iff, !negb_false_iff.
  intros [[He Hc] Hv]. split; [done|]. split; [done|].
  apply bool_decide_eq_true in Hv as [value_col Hv]. eauto.
Qed.

Lemma unresolved_true word src :
  unresolved word src = true →
  negb (df_empty src) && has_col "clean_id" src = false
  ∨ first_col (name_has word) src = None.
Proof.
  unfold unresolved. rewrite !orb_true_iff, !negb_true_iff.
  intros [[He|Hc]|Hv].
  - left. by rewrite He.
  - left. rewrite Hc. apply andb_false_r.
  - right. apply bool_decide_eq_false in Hv.
    destruct (first_col _ src); [|done]. exfalso. apply Hv. eauto.
Qed.

Ltac merge_names H word src :=
  destruct (unresolved word src) eqn:U;
  [ apply unresolved_true in U as [U|U]; rewrite U in H;
    [ inversion H; subst; by rewrite app_nil_r
    | destruct (_ && _); inversion H; subst; by rewrite app_nil_r ]
  | apply unresolved_false in U as (Ue & Uc & vc & Uv); rewrite Ue, Uc, Uv in H;
    simpl in H; ok_steps; eapply merge_left_names; eassumption ].

Lemma merge_repairs_names src master m' :
  merge_repairs src master = Ok m' →
  col_names m' = col_names master
                 ++ (if unresolved "amount" src then [] else ["total_repairs"]).
Proof. unfold merge_repairs. intros H. merge_names H "amount" src. Qed.

Lemma merge_odometer_names src master m' :
  merge_odometer src master = Ok m' →
  col_names m' = col_names master
                 ++ (if unresolved "odo" src then [] else ["odometer"]).
Proof. unfold merge_odometer. intros H. merge_names H "odo" src. Qed.

Lemma merge_distance_names src master m' :
  merge_distance src master = Ok m' →
  col_names m' = col_names master
                 ++ (if unresolved "dist" src then [] else ["recent_miles"]).
Proof. unfold merge_distance. intros H. merge_names H "dist" src. Qed.

(** The merged table has the five roster columns and one column for every
    source that resolved. *)
Lemma merged_master_names fin rep odo dist m :
  merged_master fin rep odo dist = Ok m →
  col_names m =
    ["clean_id"; "payoff_balance"; "make"; "model"; "year"]
    ++ (if unresolved "amount" rep then [] else ["total_repairs"])
    ++ (if unresolved "odo" odo then [] else ["odometer"])
    ++ (if unresolved "dist" dist then [] else ["recent_miles"]).
Proof.
  unfold merged_master. intros H. ok_steps.
  rewrite col_names_fillna.
  rewrite (merge_distance_names _ _ _ Hstep2), (merge_odometer_names _ _ _ Hstep1),
    (merge_repairs_names _ _ _ Hstep0), (base_master_names _ _ Hstep).
  by rewrite <- !app_assoc.
Qed.

(** A source that does not resolve leaves the engine without the column
    the formulas read: no Master Record set is returned. *)
Lemma unresolved_source_raises format_2f fin rep odo dist :
  unresolved "amount" rep || unresolved "odo" odo || unresolved "dist" dist = true →
  ∀ master, build_master format_2f fin rep odo dist ≠ Ok master.
Proof.
  intros U master H.
  apply build_master_spec in H as (m4 & m5 & _ & _ & _ & Hm & Hf & _).
  apply merged_master_names in Hm.
  apply formulas_spec in Hf
    as (o & _ & _ & _ & _ & _ & rp & mil & _ & Ho & _ & Hrp & Hmil & _).
  assert (has_col "odometer" (df_fillna 0 m4) = true) as Co
    by (apply get_col_has_col; eauto).
  assert (has_col "total_repairs" (df_fillna 0 m4) = true) as Cr
    by (apply get_col_has_col; eauto).
  assert (has_col "recent_miles" (df_fillna 0 m4) = true) as Cd
    by (apply get_col_has_col; eauto).
  rewrite has_col_In, Hm in Co, Cr, Cd.
  destruct (unresolved "amount" rep), (unresolved "odo" odo), (unresolved "dist" dist);
    try discriminate U; simpl in Co, Cr, Cd;
    repeat match goal with
    | H : _ ∨ _ |- _ => destruct H as [H|H]; try discriminate H
    | H : False |- _ => destruct H
    end.
Qed.



(** ** The merge engine returns *)

Lemma mapM_returns {A B} (f : A → result B) l :
  (∀ x, In x l → ∃ y, f x = Ok y) → ∃ r, mapM f l = Ok r.
Proof.
  induction l as [|x l IH]; intros H; simpl; [eauto|].
  destruct (H x) as [y ->]; [by left|].
  destruct IH as [r ->]; [intros; apply H; by right|]. simpl. eauto.
Qed.

Lemma foldM_add_numbers q l :
  forallb is_number l = true → forallb (λ c, negb (is_nan c)) l = true →
  ∃ q', foldM cell_add (Num q) l = Ok (Num q').
Proof.
  revert q. induction l as [|c l IH]; intros q Hn Hm; simpl in *; [eauto|].
  apply andb_true_iff in Hn as [Hc Hn]. apply andb_true_iff in Hm as [Hc' Hm].
  destruct c as [s|p|]; try discriminate. simpl. by apply IH.
Qed.

Lemma foldM_max_numbers q l :
  forallb is_number l = true → forallb (λ c, negb (is_nan c)) l = true →
  ∃ q', foldM cell_max (Num q) l = Ok (Num q').
Proof.
  revert q. induction l as [|c l IH]; intros q Hn Hm; simpl in *; [eauto|].
  apply andb_true_iff in Hn as [Hc Hn]. apply andb_true_iff in Hm as [Hc' Hm].
  destruct c as [s|p|]; try discriminate. simpl. by apply IH.
Qed.

Lemma forallb_filter {A} (P Q : A → bool) l :
  forallb P l = true → forallb P (List.filter Q l) = true.
Proof.
  induction l as [|x l IH]; simpl; [done|].
  intros [Hx Hl]%andb_true_iff. destruct (Q x); simpl; [rewrite Hx|]; auto.
Qed.

Lemma forallb_filter_self {A} (Q : A → bool) l :
  forallb Q (List.filter Q l) = true.
Proof.
  induction l as [|x l IH]; simpl; [done|].
  destruct (Q x) eqn:E; simpl; [rewrite E|]; auto.
Qed.

Lemma agg_sum_number l :
  forallb is_number l = true → ∃ c, agg_sum l = Ok c ∧ is_number c = true.
Proof.
  intros Hn. unfold agg_sum.
  pose proof (forallb_filter is_number (λ c, negb (is_nan c)) l Hn) as Hf.
  pose proof (forallb_filter_self (λ c, negb (is_nan c)) l) as Hs.
  destruct (List.filter _ l) as [|x r]; [eauto|]. simpl in Hf, Hs.
  apply andb_true_iff in Hf as [Hx Hf]. apply andb_true_iff in Hs as [Hx' Hs].
  destruct x as [s|q|]; try discriminate.
  destruct (foldM_add_numbers q r Hf Hs) as [q' ->]. eauto.
Qed.

Lemma agg_max_number l :
  forallb is_number l = true → ∃ c, agg_max l = Ok c ∧ is_number c = true.
Proof.
  intros Hn. unfold agg_max.
  pose proof (forallb_filter is_number (λ c, negb (is_nan c)) l Hn) as Hf.
  pose proof (forallb_filter_self (λ c, negb (is_nan c)) l) as Hs.
  destruct (List.filter _ l) as [|x r]; [eauto|]. simpl in Hf, Hs.
  apply andb_true_iff in Hf as [Hx Hf]. apply andb_true_iff in Hs as [Hx' Hs].
  destruct x as [s|q|]; try discriminate.
  destruct (foldM_max_numbers q r Hf Hs) as [q' ->]. eauto.
Qed.

Lemma group_vals_numbers k keys vals :
  forallb is_number vals = true → forallb is_number (group_vals k keys vals) = true.
Proof.
  revert vals. induction keys as [|k' keys IH]; intros [|v vals] H; simpl in *; try done.
  apply andb_true_iff in H as [Hv H].
  destruct (cell_eqb k k'); simpl; [rewrite Hv; simpl|]; by apply IH.
Qed.

Lemma has_clean_id_names names df :
  col_names df = "clean_id" :: names → has_col "clean_id" df = true.
Proof. intros H. apply has_col_In. rewrite H. by left. Qed.

Lemma add_meta_returns fin master c : ∃ m', add_meta fin master c = Ok m'.
Proof.
  unfold add_meta. destruct (first_col _ fin) as [col|] eqn:F; [|eauto].
  apply first_col_Some in F as [_ [v ->]]. simpl. eauto.
Qed.

Lemma base_master_returns fin :
  has_col "clean_id" fin = true → has_col "payoff_balance" fin = true →
  ∃ m, base_master fin = Ok m.
Proof.
  intros [ids Hi]%get_col_has_col [pay Hp]%get_col_has_col.
  unfold base_master. rewrite Hi, Hp. simpl.
  destruct (add_meta_returns fin (mkDF (nrows fin) [("clean_id", ids); ("payoff_balance", pay)])
              "make") as [m1 ->]. simpl.
  destruct (add_meta_returns fin m1 "model") as [m2 ->]. simpl.
  apply add_meta_returns.
Qed.

Lemma has_payoff_estimate to_float fin :
  has_col "payoff_balance" (estimate_payoff to_float fin) = true.
Proof.
  unfold estimate_payoff, set_scalar.
  destruct (first_col pay_hint fin); rewrite has_col_set_col; apply orb_true_r.
Qed.

Lemma has_col_estimate_payoff to_float fin name :
  has_col name fin = true → has_col name (estimate_payoff to_float fin) = true.
Proof.
  intros H. unfold estimate_payoff, set_scalar.
  destruct (first_col pay_hint fin); by rewrite has_col_set_col, H.
Qed.

(** ** When the engine returns *)

(** A series without text: every cell is a number or missing. *)
Lemma mapM_numbers (f : cell → result cell) l :
  (∀ c, is_number c = true → ∃ c', f c = Ok c' ∧ is_number c' = true) →
  forallb is_number l = true →
  ∃ r, mapM f l = Ok r ∧ forallb is_number r = true.
Proof.
  intros Hf. induction l as [|c l IH]; simpl; [eauto|].
  intros [Hc Hl]%andb_true_iff.
  destruct (Hf c Hc) as (c' & -> & Hc'). destruct (IH Hl) as (r & -> & Hr).
  simpl. exists (c' :: r). simpl. by rewrite Hc', Hr.
Qed.

Lemma zipM_numbers (f : cell → cell → result cell) l k :
  (∀ a b, is_number a = true → is_number b = true →
     ∃ c, f a b = Ok c ∧ is_number c = true) →
  forallb is_number l = true → forallb is_number k = true →
  ∃ r, zipM f l k = Ok r ∧ forallb is_number r = true.
Proof.
  intros Hf. revert k. induction l as [|a l IH]; intros [|b k]; simpl; eauto.
  intros [Ha Hl]%andb_true_iff [Hb Hk]%andb_true_iff.
  destruct (Hf a b Ha Hb) as (c & -> & Hc). destruct (IH k Hl Hk) as (r & -> & Hr).
  simpl. exists (c :: r). simpl. by rewrite Hc, Hr.
Qed.

Lemma forallb_map_numbers (f : cell → cell) l :
  (∀ c, is_number c = true → is_number (f c) = true) →
  forallb is_number l = true → forallb is_number (map f l) = true.
Proof.
  intros Hf. induction l as [|c l IH]; simpl; [done|].
  intros [Hc Hl]%andb_true_iff. by rewrite (Hf c Hc), IH.
Qed.

Lemma cell_mul_number k c :
  is_number c = true → ∃ c', cell_mul c k = Ok c' ∧ is_number c' = true.
Proof. destruct c; simpl; [discriminate | eauto..]. Qed.

Lemma cell_sub_number a b :
  is_number a = true → is_number b = true →
  ∃ c, cell_sub a b = Ok c ∧ is_number c = true.
Proof. destruct a, b; simpl; try discriminate; eauto. Qed.

Lemma cell_div_number a b :
  is_number a = true → is_number b = true →
  ∃ c, cell_div a b = Ok c ∧ is_number c = true.
Proof.
  destruct a as [|p|], b as [|q|]; simpl; try discriminate; eauto.
  intros _ _. eexists. split; [done|]. by destruct (Qeq_bool q 0).
Qed.

Lemma clip_lower_number lo c :
  is_number c = true → ∃ c', clip_lower lo c = Ok c' ∧ is_number c' = true.
Proof. destruct c; simpl; [discriminate | eauto..]. Qed.

Lemma replace_cell_number a b c : is_number c = true → is_number (replace_cell a b c) = true.
Proof. destruct c as [|q|]; simpl; try done. by destruct (Qeq_bool q a). Qed.

Lemma fillna_number v c : is_number c = true → is_number (fillna v c) = true.
Proof. by destruct c. Qed.

(** The formulas return on a table whose four input columns hold no text. *)
Lemma formulas_returns master odometer payoff repairs miles :
  get_col "odometer" master = Ok odometer → forallb is_number odometer = true →
  get_col "payoff_balance" master = Ok payoff → forallb is_number payoff = true →
  get_col "total_repairs" master = Ok repairs → forallb is_number repairs = true →
  get_col "recent_miles" master = Ok miles → forallb is_number miles = true →
  ∃ m' equity cpm,
    formulas master = Ok m'
    ∧ get_col "odometer" m' = Ok odometer
    ∧ get_col "recent_miles" m' = Ok miles
    ∧ get_col "net_equity" m' = Ok equity ∧ forallb is_number equity = true
    ∧ get_col "cpm" m' = Ok cpm ∧ forallb is_number cpm = true.
Proof.
  intros Ho No Hp Np Hr Nr Hm Nm.
  destruct (mapM_numbers (λ c, cell_mul c 0.05) odometer) as (wear & Hw & Nw);
    [intros; by apply cell_mul_number | done|].
  destruct (mapM_numbers (cell_sub (Num 65000)) wear) as (r0 & Hr0 & Nr0);
    [intros; by apply cell_sub_number | done|].
  destruct (mapM_numbers (clip_lower 10000) r0) as (r & Hcl & Nres);
    [intros; by apply clip_lower_number | done|].
  destruct (zipM_numbers cell_sub r payoff) as (equity & Heq & Ne);
    [intros; by apply cell_sub_number | done..|].
  destruct (zipM_numbers cell_div repairs (map (replace_cell 0 1) miles))
    as (cpm & Hcpm & Nc);
    [intros; by apply cell_div_number | done
     | apply forallb_map_numbers; [intros; by apply replace_cell_number | done] |].
  exists (set_col "cpm" cpm (set_col "net_equity" equity
            (set_col "est_resale" r (set_col "est_resale" r0 master)))), equity, cpm.
  split.
  - unfold formulas. rewrite Ho. cbn [bind]. rewrite Hw. cbn [bind].
    rewrite Hr0. cbn [bind]. rewrite get_set_col_eq. cbn [bind].
    rewrite Hcl. cbn [bind]. rewrite get_set_col_eq. cbn [bind].
    rewrite ?get_set_col_ne by done. rewrite Hp. cbn [bind]. rewrite Heq. cbn [bind].
    rewrite ?get_set_col_ne by done. rewrite Hr. cbn [bind].
    rewrite ?get_set_col_ne by done. rewrite Hm. cbn [bind]. by rewrite Hcpm.
  - split; [by rewrite 4!get_set_col_ne|].
    split; [by rewrite 4!get_set_col_ne|].
    split; [by rewrite get_set_col_ne, get_set_col_eq|].
    split; [done|]. split; [apply get_set_col_eq | done].
Qed.

Lemma cell_gt_number c k : is_number c = true → ∃ b, cell_gt c k = Ok b.
Proof. destruct c; simpl; [discriminate | eauto..]. Qed.

Lemma cell_lt_number c k : is_number c = true → ∃ b, cell_lt c k = Ok b.
Proof. destruct c; simpl; [discriminate | eauto..]. Qed.

(** The classifier returns on a row whose four fields hold no text. *)
Lemma get_rec_returns format_2f row o c e m :
  row_get row "odometer" = Ok o → row_get row "cpm" = Ok c →
  row_get row "net_equity" = Ok e → row_get row "recent_miles" = Ok m →
  is_number o = true → is_number c = true → is_number e = true → is_number m = true →
  ∃ r, get_rec format_2f row = Ok r.
Proof.
  intros Ho Hc He Hm No Nc Ne Nm. unfold get_rec. rewrite Ho, Hc, He, Hm. simpl.
  destruct (cell_gt_number o 500000 No) as [b1 ->].
  destruct (cell_gt_number c 0.15 Nc) as [b2 ->].
  destruct (cell_gt_number e 0 Ne) as [b3 ->]. simpl.
  destruct ((b1 || b2) && b3); simpl; [eauto|].
  destruct (cell_lt_number c 0.12 Nc) as [b4 ->]. simpl.
  destruct (cell_gt_number m 2000 Nm) as [b5 E5].
  destruct (cell_lt_number m 1000 Nm) as [b6 E6].
  destruct (cell_lt_number e 0 Ne) as [b7 E7].
  destruct b4; simpl; rewrite ?E5; simpl;
    (destruct b5; simpl; [eauto|]); rewrite ?E6; simpl;
    destruct b6; simpl; rewrite ?E7; simpl; try destruct b7; eauto.
Qed.

Lemma mapM_Ok_Forall {A B} (f : A → result B) (P : B → Prop) l r :
  mapM f l = Ok r → (∀ x y, f x = Ok y → P y) → Forall P r.
Proof.
  revert r. induction l as [|x l IH]; intros r H Hf; simpl in H; ok_steps.
  - constructor.
  - constructor; eauto.
Qed.

Lemma lookup_stat_number k stats :
  Forall (λ kv : cell * cell, is_number kv.2 = true) stats →
  is_number (lookup_stat k stats) = true.
Proof.
  induction 1 as [|[k' v] stats Hv _ IH]; simpl; [done|].
  by destruct (cell_eqb k k').
Qed.

Lemma forallb_map_lookup_stat stats keys :
  Forall (λ kv : cell * cell, is_number kv.2 = true) stats →
  forallb is_number (map (λ k, lookup_stat k stats) keys) = true.
Proof.
  intros Hs. induction keys as [|k keys IH]; simpl; [done|].
  by rewrite lookup_stat_number, IH.
Qed.

Lemma clean_id_default df :
  get_col "clean_id" df
  = match assoc "clean_id" (columns df) with
    | Some v => Ok v
    | None => Raise (KeyError "clean_id")
    end.
Proof. reflexivity. Qed.

(** Whether a source merges with a table rests on the rows and the keys of
    the table only. *)
Lemma mergeable_same a b src :
  nrows a = nrows b → get_col "clean_id" a = get_col "clean_id" b →
  mergeable a src = mergeable b src.
Proof.
  intros Hn Hc. unfold mergeable, join_keys. rewrite Hn.
  rewrite !clean_id_default in Hc.
  destruct (assoc "clean_id" (columns a)), (assoc "clean_id" (columns b));
    by inversion Hc.
Qed.

Lemma mergeable_keys master src ids :
  get_col "clean_id" master = Ok ids →
  mergeable master src
  = negb (unmergeable (join_keys master ids)
            (group_keys (default [] (assoc "clean_id" (columns src))))).
Proof. intros Hi%get_col_Ok. unfold mergeable. by rewrite Hi. Qed.

(** A merge leaves the keys of the rows as they are. *)
Lemma mergeable_step master m' src :
  nrows m' = nrows master →
  (∀ name v, get_col name master = Ok v →
     ∃ v', get_col name m' = Ok v' ∧ (v' = v ∨ v' = join_keys master v)) →
  has_col "clean_id" master = true →
  mergeable m' src = mergeable master src.
Proof.
  intros Hn K [ids Hi]%get_col_has_col.
  destruct (K _ _ Hi) as (v' & Hv' & Hor).
  rewrite (mergeable_keys _ _ _ Hi), (mergeable_keys _ _ _ Hv').
  do 2 f_equal. destruct Hor as [->| ->].
  - unfold join_keys. by rewrite Hn.
  - by apply join_keys_idem.
Qed.

(** One join: the aggregate of a source without text in its value column,
    merged into a table that has the key and not yet the new column, when
    the keys of the two merge. *)
Lemma join_returns reduce src value_col vals master out :
  (∀ l, forallb is_number l = true → ∃ c, reduce l = Ok c ∧ is_number c = true) →
  has_col "clean_id" src = true → get_col value_col src = Ok vals →
  forallb is_number vals = true →
  has_col "clean_id" master = true → has_col out master = false →
  mergeable master src = true →
  ∃ m' v,
    (stats <- groupby_agg reduce src value_col ;; merge_left master stats out) = Ok m'
    ∧ get_col out m' = Ok v ∧ forallb is_number v = true.
Proof.
  intros Hred [keys Hk]%get_col_has_col Hv Hn [ids Hi]%get_col_has_col Hout Hm.
  assert (∃ stats, groupby_agg reduce src value_col = Ok stats
                   ∧ Forall (λ kv : cell * cell, is_number kv.2 = true) stats)
    as (stats & Hs & Ns).
  { unfold groupby_agg. rewrite Hk, Hv. cbn [bind].
    destruct (mapM_returns
                (λ k, v <- reduce (group_vals k keys vals) ;; Ok (k, v)) (group_keys keys))
      as [stats Hs].
    { intros k _.
      destruct (Hred (group_vals k keys vals)) as (c & -> & _);
        [by apply group_vals_numbers | simpl; eauto]. }
    exists stats. split; [done|].
    eapply mapM_Ok_Forall; [exact Hs|]. intros k [k' v] H. ok_steps.
    match goal with
    | Hst : reduce ?l = Ok _ |- _ =>
        destruct (Hred l) as (c & Hc & Nc); [by apply group_vals_numbers|];
        simpl; congruence
    end. }
  destruct (groupby_agg_keys _ _ _ _ Hs) as (keys' & Hk' & Hfst).
  assert (keys' = keys) as -> by congruence.
  rewrite Hs. cbn [bind].
  rewrite (merge_left_eq _ _ _ ids); [|rewrite Hfst; apply distinct_group_keys | done].
  rewrite (mergeable_keys _ _ _ Hi) in Hm. apply negb_true_iff in Hm.
  apply get_col_Ok in Hk as Hk2. rewrite Hk2 in Hm.
  change (default [] (Some keys)) with keys in Hm.
  rewrite Hfst, Hm.
  eexists _, _. split; [done|]. split.
  - apply get_col_Ok. simpl. rewrite assoc_app_None.
    + simpl. by rewrite String.eqb_refl.
    + rewrite assoc_map_vals.
      destruct (assoc out (columns master)) eqn:E; [|done].
      assert (has_col out master = true) as Hc; [|congruence].
      apply get_col_has_col. exists l. by apply get_col_Ok.
  - by apply forallb_map_lookup_stat.
Qed.

Lemma numeric_values_col word src value_col :
  numeric_values word src = true → first_col (name_has word) src = Some value_col →
  ∃ vals, get_col value_col src = Ok vals ∧ forallb is_number vals = true.
Proof.
  unfold numeric_values. intros Hn F. rewrite F in Hn.
  apply first_col_Some in F as [_ [vals Hv]]. exists vals. split; [done|].
  apply get_col_Ok in Hv. by rewrite Hv in Hn.
Qed.

Ltac merge_resolved word src out red_number :=
  match goal with
  | U : unresolved word src = false, Hn : numeric_values word src = true |- _ =>
      apply unresolved_false in U as (Ue & Uc & value_col & Uv);
      destruct (numeric_values_col _ _ _ Hn Uv) as (vals & Hv & Nv);
      rewrite Ue, Uc, Uv; cbn [negb andb];
      by apply (join_returns _ src value_col vals _ out red_number)
  end.

Lemma merge_repairs_resolved src master :
  unresolved "amount" src = false → numeric_values "amount" src = true →
  has_col "clean_id" master = true → has_col "total_repairs" master = false →
  mergeable master src = true →
  ∃ m' v, merge_repairs src master = Ok m'
          ∧ get_col "total_repairs" m' = Ok v ∧ forallb is_number v = true.
Proof.
  intros U Hn Hc Hout Hm. unfold merge_repairs.
  merge_resolved "amount" src "total_repairs" agg_sum_number.
Qed.

Lemma merge_odometer_resolved src master :
  unresolved "odo" src = false → numeric_values "odo" src = true →
  has_col "clean_id" master = true → has_col "odometer" master = false →
  mergeable master src = true →
  ∃ m' v, merge_odometer src master = Ok m'
          ∧ get_col "odometer" m' = Ok v ∧ forallb is_number v = true.
Proof.
  intros U Hn Hc Hout Hm. unfold merge_odometer.
  merge_resolved "odo" src "odometer" agg_max_number.
Qed.

Lemma merge_distance_resolved src master :
  unresolved "dist" src = false → numeric_values "dist" src = true →
  has_col "clean_id" master = true → has_col "recent_miles" master = false →
  mergeable master src = true →
  ∃ m' v, merge_distance src master = Ok m'
          ∧ get_col "recent_miles" m' = Ok v ∧ forallb is_number v = true.
Proof.
  intros U Hn Hc Hout Hm. unfold merge_distance.
  merge_resolved "dist" src "recent_miles" agg_sum_number.
Qed.

Lemma payoff_cell_number to_float int64 c :
  is_number (payoff_cell to_float int64 c) = true.
Proof.
  unfold payoff_cell, to_numeric. destruct c as [s|q|]; simpl.
  - destruct (to_float s); simpl; by destruct int64.
  - by destruct int64.
  - by destruct int64.
Qed.

Lemma payoff_numbers to_float fin :
  ∃ v, get_col "payoff_balance" (estimate_payoff to_float fin) = Ok v
       ∧ forallb is_number v = true.
Proof.
  unfold estimate_payoff, set_scalar.
  destruct (first_col pay_hint fin); eexists; (split; [apply get_set_col_eq|]).
  - unfold payoff_column. apply forallb_forall.
    intros c [x [<- _]]%in_map_iff. apply payoff_cell_number.
  - induction (nrows fin); simpl; done.
Qed.

Lemma payoff_cell_Num to_float int64 c : ∃ p, payoff_cell to_float int64 c = Num p.
Proof.
  unfold payoff_cell, to_numeric. destruct c as [s|q|]; simpl.
  - destruct (to_float s); simpl; destruct int64; eauto.
  - destruct int64; eauto.
  - destruct int64; eauto.
Qed.

Lemma wrap_int64_fits z :
  (int64_min ≤ z)%Z → (z ≤ int64_max)%Z → wrap_int64 z = z.
Proof.
  unfold wrap_int64, int64_min, int64_max. intros H1 H2.
  rewrite Z.mod_small; lia.
Qed.

Lemma is_int64_whole q :
  is_int64 (Num q) = true → (q == inject_Z (Qnum (Qred q)))%Q.
Proof.
  unfold is_int64. intros [[Hd _]%andb_true_iff _]%andb_true_iff.
  apply Z.eqb_eq in Hd. rewrite <- (Qred_correct q) at 1.
  destruct (Qred q) as [n d]. simpl in *. injection Hd as ->. reflexivity.
Qed.

Lemma payment_numeric to_float c :
  fillna 0 (to_numeric to_float c) = Num (payment to_float c).
Proof.
  unfold to_numeric, payment. destruct c as [s|q|]; simpl; try done.
  by destruct (to_float s).
Qed.

(** Where the product fits 64 bits, the payoff is 12 times the payment,
    whether the column is [int64] or not. *)
Lemma payoff_cell_value to_float int64 c :
  (int64 = true → is_int64 (to_numeric to_float c) = true) →
  fits_int64 (12 * payment to_float c) →
  ∃ p, payoff_cell to_float int64 c = Num p ∧ (p == 12 * payment to_float c)%Q.
Proof.
  intros Hint [Hlo Hhi]. unfold payoff_cell. rewrite payment_numeric.
  destruct int64.
  - specialize (Hint eq_refl).
    assert (to_numeric to_float c = Num (payment to_float c)) as E.
    { pose proof (payment_numeric to_float c) as E.
      destruct (to_numeric to_float c); [done | done | discriminate]. }
    rewrite E in Hint. apply is_int64_whole in Hint.
    set (n := Qnum (Qred (payment to_float c))) in *.
    assert (12 * payment to_float c == inject_Z (n * 12))%Q as E12.
    { rewrite Hint, inject_Z_mult. ring. }
    rewrite E12 in Hlo, Hhi. rewrite <- Zle_Qle in Hlo, Hhi.
    eexists. split; [done|]. by rewrite wrap_int64_fits, E12.
  - eexists. split; [done|]. rewrite Qred_correct. ring.
Qed.

(** The payoff column the engine writes into the finance table. *)
Lemma payoff_column_of to_float fin :
  get_col "payoff_balance" (estimate_payoff to_float fin) =
    Ok (match first_col pay_hint fin with
        | Some pay_col =>
            payoff_column to_float (default [] (assoc pay_col (columns fin)))
        | None => repeat (Num 0) (nrows fin)
        end).
Proof.
  unfold estimate_payoff, set_scalar.
  destruct (first_col pay_hint fin); apply get_set_col_eq.
Qed.

Lemma has_col_names_false name df names :
  col_names df = names → existsb (String.eqb name) names = false →
  has_col name df = false.
Proof. intros <-. done. Qed.

Lemma row_cell_number df i name v :
  get_col name df = Ok v → forallb is_number v = true →
  ∃ c, row_get (row_at df i) name = Ok c ∧ is_number c = true.
Proof.
  intros Hv Nv. apply get_col_Ok in Hv. unfold row_get.
  rewrite assoc_row_at, Hv. simpl. eexists. split; [done|].
  destruct (v !! i) as [c|] eqn:E; simpl; [|done].
  rewrite forallb_forall in Nv. apply Nv. apply list_elem_of_In.
  by eapply list_elem_of_lookup_2.
Qed.

Lemma recommend_returns format_2f master o c e m :
  get_col "odometer" master = Ok o → forallb is_number o = true →
  get_col "cpm" master = Ok c → forallb is_number c = true →
  get_col "net_equity" master = Ok e → forallb is_number e = true →
  get_col "recent_miles" master = Ok m → forallb is_number m = true →
  ∃ m', recommend format_2f master = Ok m'.
Proof.
  intros Ho No Hc Nc He Ne Hm Nm. unfold recommend.
  destruct (mapM_returns (get_rec format_2f) (iterrows master)) as [res ->].
  - intros row Hrow. apply list_elem_of_In, elem_of_iterrows in Hrow as (i & _ & ->).
    destruct (row_cell_number master i _ _ Ho No) as (xo & Ro & Xo).
    destruct (row_cell_number master i _ _ Hc Nc) as (xc & Rc & Xc).
    destruct (row_cell_number master i _ _ He Ne) as (xe & Re & Xe).
    destruct (row_cell_number master i _ _ Hm Nm) as (xm & Rm & Xm).
    by eapply get_rec_returns.
  - simpl. eauto.
Qed.

Lemma kept_numbers (master m' : DataFrame) name v :
  (∀ name v, get_col name master = Ok v →
     ∃ v', get_col name m' = Ok v' ∧ (v' = v ∨ v' = join_keys master v)) →
  get_col name master = Ok v → forallb is_number v = true →
  ∃ v', get_col name m' = Ok v' ∧ forallb is_number v' = true.
Proof.
  intros K Hv Nv. destruct (K _ _ Hv) as (v' & Hv' & [->| ->]); eauto.
  exists (join_keys master v). split; [done|]. by apply forallb_join_keys.
Qed.

Lemma mergeable_estimate_payoff to_float fin src :
  mergeable (estimate_payoff to_float fin) src = mergeable fin src.
Proof.
  apply mergeable_same; [apply nrows_estimate_payoff | by apply estimate_payoff_other].
Qed.

(** When the roster resolves, the three sources resolve, their value
    columns hold no text and their keys merge with the roster's, the engine
    returns a Master Record set. *)
Lemma run_logic_returns to_float format_2f (dfs : gmap string DataFrame) fin :
  dfs !! "finance" = Some fin → df_empty fin = false → has_col "clean_id" fin = true →
  unresolved "amount" (default empty_frame (dfs !! "repairs")) = false →
  unresolved "odo" (default empty_frame (dfs !! "odometer")) = false →
  unresolved "dist" (default empty_frame (dfs !! "distance")) = false →
  numeric_values "amount" (default empty_frame (dfs !! "repairs")) = true →
  numeric_values "odo" (default empty_frame (dfs !! "odometer")) = true →
  numeric_values "dist" (default empty_frame (dfs !! "distance")) = true →
  mergeable fin (default empty_frame (dfs !! "repairs")) = true →
  mergeable fin (default empty_frame (dfs !! "odometer")) = true →
  mergeable fin (default empty_frame (dfs !! "distance")) = true →
  ∃ master, (run_logic to_float format_2f dfs).2 = Ok master.
Proof.
  intros Hfin He Hc Ur Uo Ud Nr No Nd Mr Mo Md.
  rewrite (run_logic_step _ _ dfs fin) by done. simpl.
  set (fin' := estimate_payoff to_float fin).
  set (rep := default empty_frame (dfs !! "repairs")) in *.
  set (odo := default empty_frame (dfs !! "odometer")) in *.
  set (dist := default empty_frame (dfs !! "distance")) in *.
  destruct (payoff_numbers to_float fin) as (pay & Hpay & Npay). fold fin' in Hpay.
  destruct (base_master_returns fin') as [m1 H1];
    [by apply has_col_estimate_payoff | apply has_payoff_estimate|].
  pose proof (base_master_names _ _ H1) as Names1.
  pose proof (base_master_spec _ _ H1) as (Nb & _ & Kb & P1). rewrite Hpay in P1.
  pose proof (has_clean_id_names _ _ Names1) as C1.
  assert (∀ src, mergeable m1 src = mergeable fin src) as M1.
  { intros src. rewrite <- (mergeable_estimate_payoff to_float fin src).
    by apply mergeable_same. }
  destruct (merge_repairs_resolved rep m1 Ur Nr C1) as (m2 & tr & H2 & T2 & Ntr);
    [by eapply has_col_names_false | by rewrite M1|].
  pose proof (merge_repairs_names _ _ _ H2) as Names2. rewrite Ur, Names1 in Names2.
  pose proof (merge_repairs_spec _ _ _ H2) as (N2 & _ & K2).
  pose proof (has_clean_id_names _ _ Names2) as C2.
  assert (∀ src, mergeable m2 src = mergeable fin src) as M2.
  { intros src. rewrite <- M1. by apply mergeable_step. }
  destruct (merge_odometer_resolved odo m2 Uo No C2) as (m3 & od & H3 & O3 & Nod);
    [by eapply has_col_names_false | by rewrite M2|].
  pose proof (merge_odometer_names _ _ _ H3) as Names3. rewrite Uo, Names2 in Names3.
  pose proof (merge_odometer_spec _ _ _ H3) as (N3 & _ & K3).
  pose proof (has_clean_id_names _ _ Names3) as C3.
  assert (∀ src, mergeable m3 src = mergeable fin src) as M3.
  { intros src. rewrite <- M2. by apply mergeable_step. }
  destruct (merge_distance_resolved dist m3 Ud Nd C3) as (m4 & mi & H4 & M4 & Nmi);
    [by eapply has_col_names_false | by rewrite M3|].
  pose proof (merge_distance_spec _ _ _ H4) as (_ & _ & K4).
  destruct (kept_numbers _ _ _ _ K4 O3 Nod) as (od4 & O4 & Nod4).
  destruct (kept_numbers _ _ _ _ K2 P1 Npay) as (pay2 & P2 & Npay2).
  destruct (kept_numbers _ _ _ _ K3 P2 Npay2) as (pay3 & P3 & Npay3).
  destruct (kept_numbers _ _ _ _ K4 P3 Npay3) as (pay4 & P4 & Npay4).
  destruct (kept_numbers _ _ _ _ K3 T2 Ntr) as (tr3 & T3 & Ntr3).
  destruct (kept_numbers _ _ _ _ K4 T3 Ntr3) as (tr4 & T4 & Ntr4).
  assert (∀ name v, get_col name m4 = Ok v → forallb is_number v = true →
            get_col name (df_fillna 0 m4) = Ok (map (fillna 0) v)
            ∧ forallb is_number (map (fillna 0) v) = true) as Fill.
  { intros name v Hv Nv. split; [apply get_col_fillna; eauto|].
    apply forallb_map_numbers; [intros; by apply fillna_number | done]. }
  destruct (Fill _ _ O4 Nod4) as [Fo No'].
  destruct (Fill _ _ P4 Npay4) as [Fp Np'].
  destruct (Fill _ _ T4 Ntr4) as [Ft Nt'].
  destruct (Fill _ _ M4 Nmi) as [Fm Nm'].
  destruct (formulas_returns _ _ _ _ _ Fo No' Fp Np' Ft Nt' Fm Nm')
    as (m5 & eq & cpm & H5 & O5 & M5 & E5 & Ne5 & C5 & Nc5).
  destruct (recommend_returns format_2f m5 _ _ _ _ O5 No' C5 Nc5 E5 Ne5 M5 Nm')
    as [master H6].
  exists master. unfold build_master, merged_master.
  rewrite H1. cbn [bind]. rewrite H2. cbn [bind]. rewrite H3. cbn [bind].
  rewrite H4. cbn [bind]. rewrite H5. cbn [bind]. done.
Qed.

(** A join that returns was between keys that merge. *)
Lemma merge_left_mergeable reduce src value_col stats master out m' :
  groupby_agg reduce src value_col = Ok stats →
  merge_left master stats out = Ok m' → mergeable master src = true.
Proof.
  intros Hg H. destruct (groupby_agg_keys _ _ _ _ Hg) as (keys & Hk & Hfst).
  apply merge_left_distinct in H as (ids & Hids & Hu & _);
    [|rewrite Hfst; apply distinct_group_keys].
  rewrite (mergeable_keys _ _ _ Hids). apply get_col_Ok in Hk. rewrite Hk.
  change (default [] (Some keys)) with keys. by rewrite <- Hfst, Hu.
Qed.

Ltac merge_mergeable H U :=
  apply unresolved_false in U as (Ue & Uc & value_col & Uv);
  rewrite Ue, Uc, Uv in H; cbn [negb andb] in H; ok_steps;
  eapply merge_left_mergeable; eassumption.

Lemma merge_repairs_mergeable src master m' :
  merge_repairs src master = Ok m' → unresolved "amount" src = false →
  mergeable master src = true.
Proof. unfold merge_repairs. intros H U. merge_mergeable H U. Qed.

Lemma merge_odometer_mergeable src master m' :
  merge_odometer src master = Ok m' → unresolved "odo" src = false →
  mergeable master src = true.
Proof. unfold merge_odometer. intros H U. merge_mergeable H U. Qed.

Lemma merge_distance_mergeable src master m' :
  merge_distance src master = Ok m' → unresolved "dist" src = false →
  mergeable master src = true.
Proof. unfold merge_distance. intros H U. merge_mergeable H U. Qed.

(** What a returned set tells of the sources: each of them resolved, and
    its keys merged with the roster's. *)
Lemma run_logic_returned to_float format_2f (dfs : gmap string DataFrame) fin master :
  dfs !! "finance" = Some fin → df_empty fin = false → has_col "clean_id" fin = true →
  (run_logic to_float format_2f dfs).2 = Ok master →
  (unresolved "amount" (default empty_frame (dfs !! "repairs")) = false
   ∧ unresolved "odo" (default empty_frame (dfs !! "odometer")) = false
   ∧ unresolved "dist" (default empty_frame (dfs !! "distance")) = false)
  ∧ mergeable fin (default empty_frame (dfs !! "repairs")) = true
  ∧ mergeable fin (default empty_frame (dfs !! "odometer")) = true
  ∧ mergeable fin (default empty_frame (dfs !! "distance")) = true.
Proof.
  intros Hfin He Hc Hm.
  rewrite (run_logic_step _ _ dfs fin) in Hm by done. simpl in Hm.
  set (rep := default empty_frame (dfs !! "repairs")) in *.
  set (odo := default empty_frame (dfs !! "odometer")) in *.
  set (dist := default empty_frame (dfs !! "distance")) in *.
  assert (unresolved "amount" rep = false ∧ unresolved "odo" odo = false
          ∧ unresolved "dist" dist = false) as (Ur & Uo & Ud).
  { destruct (unresolved "amount" rep || unresolved "odo" odo
              || unresolved "dist" dist) eqn:U.
    - by destruct (unresolved_source_raises _ _ _ _ _ U _ Hm).
    - apply orb_false_iff in U as [U Ud]. by apply orb_false_iff in U as [Ur Uo]. }
  split; [done|].
  apply build_master_spec in Hm as (m4' & m5 & _ & _ & _ & Hm & _ & _).
  unfold merged_master in Hm. ok_steps.
  rename a into m1, a0 into m2, a1 into m3, a2 into m4.
  rename Hstep0 into Hstep1', Hstep1 into Hstep2', Hstep2 into Hstep3'.
  rename Hstep into Hstep0, Hstep1' into Hstep1, Hstep2' into Hstep2, Hstep3' into Hstep3.
  pose proof (base_master_names _ _ Hstep0) as Names1.
  pose proof (base_master_spec _ _ Hstep0) as (Nb & _ & Kb & _).
  pose proof (has_clean_id_names _ _ Names1) as C1.
  assert (∀ src, mergeable m1 src = mergeable fin src) as M1.
  { intros src. rewrite <- (mergeable_estimate_payoff to_float fin src).
    by apply mergeable_same. }
  pose proof (merge_repairs_names _ _ _ Hstep1) as Names2. rewrite Ur, Names1 in Names2.
  pose proof (merge_repairs_spec _ _ _ Hstep1) as (N2 & _ & K2).
  pose proof (has_clean_id_names _ _ Names2) as C2.
  assert (∀ src, mergeable m2 src = mergeable fin src) as M2.
  { intros src. rewrite <- M1. by apply mergeable_step. }
  pose proof (merge_odometer_names _ _ _ Hstep2) as Names3. rewrite Uo, Names2 in Names3.
  pose proof (merge_odometer_spec _ _ _ Hstep2) as (N3 & _ & K3).
  pose proof (has_clean_id_names _ _ Names3) as C3.
  assert (∀ src, mergeable m3 src = mergeable fin src) as M3.
  { intros src. rewrite <- M2. by apply mergeable_step. }
  rewrite <- (M1 rep), <- (M2 odo), <- (M3 dist).
  split; [|split].
  - by apply (merge_repairs_mergeable _ _ _ Hstep1).
  - by apply (merge_odometer_mergeable _ _ _ Hstep2).
  - by apply (merge_distance_mergeable _ _ _ Hstep3).
Qed.

(** Text keys in the roster and numbers in the key column of the repairs
    table: the merge on line 118 refuses them. *)
Example numbered_repairs_raise :
  mergeable fleet_finance (default empty_frame (numbered_repairs !! "repairs")) = false
  ∧ (run_logic no_float fixed2 numbered_repairs).2 = Raise ValueError.
Proof. split; reflexivity. Qed.

(** A roster vehicle without a row in any source gets the zero defaults,
    as long as the sources themselves resolve. *)
Example newcomer_defaults :
  (run_logic no_float fixed2 newcomer).2 =
    Ok (mkDF 1 [("clean_id", [Str "500"]); ("payoff_balance", [Num 12000]);
                ("make", [Str "N/A"]); ("model", [Str "N/A"]); ("year", [Str "N/A"]);
                ("total_repairs", [Num 0]); ("odometer", [Num 0]);
                ("recent_miles", [Num 0]); ("est_resale", [Num 65000]);
                ("net_equity", [Num 53000]); ("cpm", [Num 0]);
                ("Action", [Str "INSPECT"]); ("Reasoning", [Str "Pos Equity"])]).
Proof. reflexivity. Qed.

(** ** Roster completeness *)

Lemma lookup_map {A B} (f : A → B) (l : list A) (i : nat) :
  map f l !! i = f <$> l !! i.
Proof.
  revert i. induction l as [|x l IH]; intros [|i]; simpl; auto.
Qed.

Lemma row_key_row_at master i v s :
  get_col "clean_id" master = Ok v → v !! i = Some (Str s) →
  row_key (row_at master i) = Some s.
Proof.
  intros Hv Hi. unfold row_key.
  pose proof (row_get_row_at _ _ _ _ _ Hv Hi) as H. unfold row_get in H.
  destruct (assoc "clean_id" (row_at master i)); by inversion H.
Qed.

Lemma master_keys master ids :
  get_col "clean_id" master = Ok (map Str ids) → nrows master = length ids →
  map row_key (iterrows master) = map Some ids.
Proof.
  intros Hcol Hn. apply list_eq. intros i.
  unfold iterrows. rewrite !lookup_map, Hn.
  destruct (decide (i < length ids)%nat) as [Hi|Hi].
  - rewrite lookup_seq_lt by done. simpl.
    destruct (lookup_lt_is_Some_2 ids i Hi) as [s Hs]. rewrite Hs. simpl. f_equal.
    eapply row_key_row_at; [done|]. by rewrite lookup_map, Hs.
  - rewrite lookup_seq_ge by lia. simpl.
    by rewrite lookup_ge_None_2 by lia.
Qed.

Lemma keys_absent (rows : list (list (string * cell))) ids id :
  map row_key rows = map Some ids → id ∉ ids →
  filter (λ row, row_key row = Some id) rows = [].
Proof.
  revert rows. induction ids as [|k ids IH]; intros [|r rows] Hmap Hin;
    try discriminate; [done|].
  simpl in Hmap. injection Hmap as Hr Hrest.
  apply not_elem_of_cons in Hin as [Hne Hin].
  rewrite filter_cons. destruct (decide (row_key r = Some id)) as [E|E].
  - congruence.
  - by apply IH.
Qed.

Lemma keys_once (rows : list (list (string * cell))) ids id :
  map row_key rows = map Some ids → NoDup ids → id ∈ ids →
  length (filter (λ row, row_key row = Some id) rows) = 1%nat.
Proof.
  revert rows. induction ids as [|k ids IH]; intros rows Hmap Hnd Hin.
  - by apply elem_of_nil in Hin.
  - destruct rows as [|r rows]; [discriminate|]. simpl in Hmap.
    injection Hmap as Hr Hrest. apply NoDup_cons in Hnd as [Hk Hnd].
    rewrite filter_cons. destruct (decide (row_key r = Some id)) as [E|E].
    + assert (k = id) as -> by congruence. simpl.
      by rewrite (keys_absent rows ids id).
    + apply elem_of_cons in Hin as [->|Hin]; [congruence|]. by apply IH.
Qed.

Lemma keys_known (rows : list (list (string * cell))) ids row :
  map row_key rows = map Some ids → row ∈ rows →
  ∃ id, id ∈ ids ∧ row_key row = Some id.
Proof.
  intros Hmap Hrow. apply list_elem_of_lookup in Hrow as [i Hi].
  assert (map row_key rows !! i = Some (row_key row)) as H.
  { by rewrite lookup_map, Hi. }
  rewrite Hmap, lookup_map in H.
  destruct (ids !! i) as [id|] eqn:E; simpl in H; [|done].
  exists id. split; [by eapply list_elem_of_lookup_2 | congruence].
Qed.

Lemma map_fillna_Str v ids : map (fillna v) (map Str ids) = map Str ids.
Proof. induction ids; simpl; congruence. Qed.

Lemma roster_exact_keys df ids :
  get_col "clean_id" df = Ok (map Str ids) → nrows df = length ids → NoDup ids →
  roster_exact df ids.
Proof.
  intros Hcol Hn Hnd. pose proof (master_keys _ _ Hcol Hn) as Hkeys.
  split; [done|]. split.
  - intros id Hin. by eapply keys_once.
  - intros row Hrow. by eapply keys_known.
Qed.

(** A returned set is exactly the roster. *)
Lemma returned_roster to_float format_2f (dfs dfs' : gmap string DataFrame) fin ids master :
  dfs !! "finance" = Some fin → wf_frame fin = true →
  get_col "clean_id" fin = Ok (map Str ids) → NoDup ids →
  run_logic to_float format_2f dfs = (dfs', Ok master) →
  roster_exact master ids.
Proof.
  intros Hfin Hwf Hids Hnd Hrun.
  assert (has_col "clean_id" fin = true) as Hhas by (apply get_col_has_col; eauto).
  pose proof (wf_get_col _ _ _ Hwf Hids) as Hlen. rewrite length_map in Hlen.
  apply run_logic_Ok in Hrun as [(_ & -> & G)|(fin' & Hfin' & _ & _ & _ & Hb)].
  - rewrite Hfin in G. simpl in G.
    rewrite Hhas, orb_false_r in G. unfold df_empty in G.
    assert (ids = []) as ->.
    2: { split; [done|]. split; [intros id Hin | intros row Hin];
         by apply elem_of_nil in Hin. }
    apply orb_true_iff in G as [G|G]; apply Nat.eqb_eq in G.
    + destruct ids; [done | simpl in Hlen; lia].
    + apply get_col_Ok in Hids. destruct (columns fin); [done | discriminate].
  - assert (fin' = fin) as -> by congruence.
    apply build_master_columns in Hb as (Nm & _ & Kid & _);
      [|by apply wf_estimate_payoff].
    apply roster_exact_keys; [|by rewrite Nm, nrows_estimate_payoff | done].
    rewrite <- (map_fillna_Str 0 ids). apply Kid.
    by rewrite estimate_payoff_other.
Qed.

(** X19: for a roster of pairwise distinct text keys, when each of the
    repairs, odometer and distance sources resolves, holds no text in its
    value column and has keys that merge with the roster's, a run returns a
    set, and the set is exactly the roster: the keys of its records are the
    roster's keys in order, each vehicle has one record and one only, and no
    record has a key from elsewhere, however many rows of the sources carry
    a key. *)
Theorem roster_served to_float format_2f (dfs : gmap string DataFrame) fin ids :
  dfs !! "finance" = Some fin → wf_frame fin = true →
  get_col "clean_id" fin = Ok (map Str ids) → NoDup ids →
  unresolved "amount" (default empty_frame (dfs !! "repairs")) = false →
  unresolved "odo" (default empty_frame (dfs !! "odometer")) = false →
  unresolved "dist" (default empty_frame (dfs !! "distance")) = false →
  numeric_values "amount" (default empty_frame (dfs !! "repairs")) = true →
  numeric_values "odo" (default empty_frame (dfs !! "odometer")) = true →
  numeric_values "dist" (default empty_frame (dfs !! "distance")) = true →
  mergeable fin (default empty_frame (dfs !! "repairs")) = true →
  mergeable fin (default empty_frame (dfs !! "odometer")) = true →
  mergeable fin (default empty_frame (dfs !! "distance")) = true →
  ∃ dfs' master,
    run_logic to_float format_2f dfs = (dfs', Ok master) ∧ roster_exact master ids.
Proof.
  intros Hfin Hwf Hids Hnd Ur Uo Ud Nr No Nd Mr Mo Md.
  assert (∃ master, (run_logic to_float format_2f dfs).2 = Ok master) as [master Hm].
  { destruct (df_empty fin) eqn:He.
    - exists empty_frame. unfold run_logic. rewrite Hfin. simpl. by rewrite He.
    - eapply run_logic_returns; try eassumption. apply get_col_has_col. eauto. }
  destruct (run_logic to_float format_2f dfs) as [dfs' r] eqn:Hrun.
  simpl in Hm. subst r. exists dfs', master. split; [done|].
  by eapply returned_roster.
Qed.

Lemma roster_served_fleet :
  ∃ dfs' master,
    run_logic no_float fixed2 fleet = (dfs', Ok master)
    ∧ roster_exact master ["1001"; "77"].
Proof.
  apply (roster_served no_float fixed2 fleet fleet_finance ["1001"; "77"]);
    try reflexivity.
  apply (bool_decide_unpack _). vm_compute. exact I.
Defined.

(** C2: a roster of two vehicles with distinct keys, every source but the
    distance file present: the read of the recent_miles column on line 145
    raises, so no vehicle of the roster gets a Master Record. *)
Theorem roster_not_served to_float format_2f :
  get_col "clean_id" fleet_finance = Ok (map Str ["1001"; "77"])
  ∧ NoDup ["1001"; "77"]
  ∧ no_distance !! "finance" = Some fleet_finance
  ∧ (run_logic to_float format_2f no_distance).2 = Raise (KeyError "recent_miles")
  ∧ ¬ ∃ master,
        (run_logic to_float format_2f no_distance).2 = Ok master
        ∧ roster_exact master ["1001"; "77"].
Proof.
  assert ((run_logic to_float format_2f no_distance).2 = Raise (KeyError "recent_miles"))
    as Hraise by (vm_compute; reflexivity).
  split; [reflexivity|]. split.
  { apply (bool_decide_unpack _). vm_compute. exact I. }
  split; [reflexivity|]. split; [exact Hraise|].
  intros (master & Hm & _). rewrite Hraise in Hm. discriminate.
Qed.

(** ** The degenerate roster *)

(** C9: an empty finance table, or one without a canonical key column, gives
    the empty Master Record set, and nothing is raised or written. *)
Theorem no_roster_no_records to_float format_2f (dfs : gmap string DataFrame) :
  df_empty (default empty_frame (dfs !! "finance")) = true
  ∨ has_col "clean_id" (default empty_frame (dfs !! "finance")) = false →
  run_logic to_float format_2f dfs = (dfs, Ok empty_frame)
  ∧ iterrows empty_frame = [].
Proof.
  intros H. split; [|done]. unfold run_logic.
  destruct H as [-> | ->]; [done|]. by rewrite orb_true_r.
Qed.

Lemma no_roster_no_records_no_files :
  run_logic no_float fixed2 no_files = (no_files, Ok empty_frame)
  ∧ iterrows empty_frame = [].
Proof.
  apply (no_roster_no_records no_float fixed2 no_files). left. reflexivity.
Defined.

(** ** Sources that are not there *)

(** Whenever the roster resolves and one of the three sources does not, the
    engine returns no Master Record set. *)
Lemma run_logic_unresolved_raises to_float format_2f (dfs : gmap string DataFrame) fin :
  dfs !! "finance" = Some fin → df_empty fin = false → has_col "clean_id" fin = true →
  unresolved "amount" (default empty_frame (dfs !! "repairs"))
  || unresolved "odo" (default empty_frame (dfs !! "odometer"))
  || unresolved "dist" (default empty_frame (dfs !! "distance")) = true →
  ∀ master, (run_logic to_float format_2f dfs).2 ≠ Ok master.
Proof.
  intros Hfin He Hc U master.
  rewrite (run_logic_step _ _ dfs fin) by done. simpl.
  by apply unresolved_source_raises.
Qed.

(** C1: with the finance roster present and the repairs, odometer and
    distance files absent, the engine does not return Master Records with
    zeroed fields: the read of the odometer column on line 138 raises. *)
Theorem roster_only_raises to_float format_2f :
  (run_logic to_float format_2f roster_only).2 = Raise (KeyError "odometer").
Proof. vm_compute. reflexivity. Qed.
(** ** What a run writes *)

Lemma col_names_estimate_payoff to_float fin :
  col_names (estimate_payoff to_float fin) =
    if has_col "payoff_balance" fin then col_names fin
    else col_names fin ++ ["payoff_balance"].
Proof.
  unfold estimate_payoff, set_scalar.
  destruct (first_col pay_hint fin); apply col_names_set_col.
Qed.

Lemma pay_hint_payoff : pay_hint "payoff_balance" = false.
Proof. reflexivity. Qed.

Lemma estimate_payoff_idem to_float fin :
  estimate_payoff to_float (estimate_payoff to_float fin) = estimate_payoff to_float fin.
Proof.
  unfold estimate_payoff at 1.
  assert (first_col pay_hint (estimate_payoff to_float fin) = first_col pay_hint fin) as ->.
  { unfold estimate_payoff, set_scalar.
    destruct (first_col pay_hint fin) eqn:F;
      (rewrite first_col_set_col; [exact F | apply pay_hint_payoff]). }
  unfold estimate_payoff, set_scalar, set_col.
  destruct (first_col pay_hint fin) as [pay_col|] eqn:E; simpl.
  - apply first_col_Some in E as [Hh _].
    assert (pay_col ≠ "payoff_balance") as Hne.
    { intros ->. by rewrite pay_hint_payoff in Hh. }
    by rewrite assoc_set_ne, assoc_set_same.
  - by rewrite assoc_set_same.
Qed.

(** C6, counterexample: the finance table is not the same after a run. *)
Lemma run_logic_writes_finance :
  (run_logic no_float fixed2 fleet).1 !! "finance" ≠ fleet !! "finance".
Proof. vm_compute. discriminate. Qed.

(** C6, amended: a run leaves every table but the finance table as it was.
    When the roster is empty or has no canonical key it writes nothing.
    Otherwise it changes the finance table in its payoff_balance column and
    nowhere else: the column is set where the table had one and appended
    where it had none, and it holds, row by row, a number that is 12 times
    the monthly payment of the row wherever that product fits a 64-bit
    integer, or 0 in every row when the table has no payment column. *)
Theorem run_logic_frame to_float format_2f (dfs : gmap string DataFrame) :
  (∀ role, role ≠ "finance" →
     (run_logic to_float format_2f dfs).1 !! role = dfs !! role)
  ∧ (dfs !! "finance" = None → (run_logic to_float format_2f dfs).1 !! "finance" = None)
  ∧ (∀ fin, dfs !! "finance" = Some fin →
       ∃ fin', (run_logic to_float format_2f dfs).1 !! "finance" = Some fin'
         ∧ nrows fin' = nrows fin
         ∧ (∀ name, name ≠ "payoff_balance" → get_col name fin' = get_col name fin)
         ∧ (df_empty fin = true ∨ has_col "clean_id" fin = false → fin' = fin)
         ∧ (df_empty fin = false → has_col "clean_id" fin = true →
            col_names fin' = (if has_col "payoff_balance" fin then col_names fin
                              else col_names fin ++ ["payoff_balance"])
            ∧ ∃ payoff,
                get_col "payoff_balance" fin' = Ok payoff
                ∧ match first_col pay_hint fin with
                  | Some pay_col =>
                      ∃ payments,
                        get_col pay_col fin = Ok payments
                        ∧ length payoff = length payments
                        ∧ ∀ i c, payments !! i = Some c →
                            ∃ p, payoff !! i = Some (Num p)
                                 ∧ (fits_int64 (12 * payment to_float c) →
                                    (p == 12 * payment to_float c)%Q)
                  | None => payoff = repeat (Num 0) (nrows fin)
                  end)).
Proof.
  unfold run_logic.
  destruct (df_empty _ || negb (has_col _ _)) eqn:G; simpl.
  - split; [done|]. split; [done|]. intros fin Hfin. exists fin.
    rewrite Hfin in G. simpl in G.
    repeat (split; [done|]). intros He Hc. by rewrite He, Hc in G.
  - apply orb_false_iff in G as [G1 G2]. apply negb_false_iff in G2.
    destruct (dfs !! "finance") as [fin0|] eqn:E; simpl in *; [|discriminate].
    split; [|split].
    + intros role Hne. by rewrite lookup_insert_ne.
    + discriminate.
    + intros fin [= <-]. exists (estimate_payoff to_float fin0).
      split; [by rewrite lookup_insert_eq|].
      split; [apply nrows_estimate_payoff|].
      split; [intros; by apply estimate_payoff_other|].
      split; [intros [H|H]; congruence|].
      intros _ _. split; [apply col_names_estimate_payoff|].
      eexists. split; [apply payoff_column_of|].
      destruct (first_col pay_hint fin0) as [pay_col|] eqn:F; [|done].
      apply first_col_Some in F as [_ [v Hcol]]. exists v. split; [done|].
      apply get_col_Ok in Hcol. rewrite Hcol. simpl. unfold payoff_column.
      split; [by rewrite length_map|].
      intros i c Hi. rewrite list_lookup_fmap, Hi. simpl.
      destruct (payoff_cell_Num to_float
                  (forallb is_int64 (map (to_numeric to_float) v)) c) as [p Hp].
      exists p. split; [by rewrite Hp|]. intros Hfits.
      destruct (payoff_cell_value to_float
                  (forallb is_int64 (map (to_numeric to_float) v)) c)
        as (p' & Hp' & Ep'); [|done|].
      * intros Hall. rewrite forallb_forall in Hall. apply Hall, in_map.
        by eapply list_elem_of_In, list_elem_of_lookup_2.
      * rewrite Hp in Hp'. by injection Hp' as ->.
Qed.

Lemma guard_estimate_payoff to_float fin :
  df_empty fin = false → has_col "clean_id" fin = true →
  df_empty (estimate_payoff to_float fin) = false
  ∧ has_col "clean_id" (estimate_payoff to_float fin) = true.
Proof.
  intros He Hc. unfold estimate_payoff, set_scalar.
  destruct (first_col pay_hint fin);
    (split; [by apply df_empty_set_col | by rewrite has_col_set_col, Hc]).
Qed.

(** C7: a second run on the state the first one left returns what the first
    returned, and leaves that state as it is. *)
Theorem run_logic_idempotent to_float format_2f (dfs : gmap string DataFrame) :
  run_logic to_float format_2f (run_logic to_float format_2f dfs).1
  = ((run_logic to_float format_2f dfs).1, (run_logic to_float format_2f dfs).2).
Proof.
  destruct (df_empty (default empty_frame (dfs !! "finance"))
            || negb (has_col "clean_id" (default empty_frame (dfs !! "finance")))) eqn:G.
  - assert (run_logic to_float format_2f dfs = (dfs, Ok empty_frame)) as E.
    { unfold run_logic. by rewrite G. }
    rewrite E. simpl. by rewrite E.
  - apply orb_false_iff in G as [G1 G2]. apply negb_false_iff in G2.
    destruct (dfs !! "finance") as [fin|] eqn:E; simpl in *; [|discriminate].
    rewrite (run_logic_step _ _ dfs fin) by done. simpl.
    destruct (guard_estimate_payoff to_float fin G1 G2) as [G1' G2'].
    rewrite (run_logic_step _ _ _ (estimate_payoff to_float fin));
      [|by rewrite lookup_insert_eq | done..].
    rewrite estimate_payoff_idem, insert_insert_eq.
    by rewrite !lookup_insert_ne.
Qed.
(** ** The identity resolver *)

Lemma length_append (p s : string) :
  String.length (p +:+ s) = (String.length p + String.length s)%nat.
Proof. induction p as [|c p IH]; simpl; [done | by rewrite IH]. Qed.

Lemma starts_with_append p s :
  PyStr.starts_with p s = true → ∃ r, s = p +:+ r.
Proof.
  revert s. induction p as [|a p IH]; intros s H; simpl in *.
  - by exists s.
  - destruct s as [|b s]; [discriminate|].
    destruct (Ascii.eqb a b) eqn:E; [|discriminate].
    apply Ascii.eqb_eq in E as <-. destruct (IH s H) as [r ->]. by exists r.
Qed.

Lemma starts_with_refl p s : PyStr.starts_with p (p +:+ s) = true.
Proof. induction p as [|a p IH]; simpl; [done|]. by rewrite Ascii.eqb_refl. Qed.

Lemma replace_from_skip old new p s :
  PyStr.replace_from (String.length p) old new (p +:+ s) = PyStr.replace_from 0 old new s.
Proof.
  induction p as [|c p IH]; simpl; [|done].
  destruct s; done.
Qed.

Lemma replace_erased_len t0 tk n s :
  (String.length s ≤ n)%nat →
  erased (String t0 tk) s (PyStr.replace_from 0 (String t0 tk) EmptyString s).
Proof.
  revert s. induction n as [|n IH]; intros s Hlen.
  - destruct s; [constructor | simpl in Hlen; lia].
  - destruct s as [|c s]; [constructor|].
    cbn [PyStr.replace_from].
    destruct (PyStr.starts_with (String t0 tk) (String c s)) eqn:E.
    + destruct (starts_with_append _ _ E) as [r Hr].
      simpl in Hr. injection Hr as -> ->.
      cbn [String.length Nat.sub]. rewrite Nat.sub_0_r, replace_from_skip.
      change (String t0 (tk +:+ r)) with (String t0 tk +:+ r).
      apply erased_token, IH.
      simpl in Hlen. rewrite length_append in Hlen. lia.
    + apply erased_char; [done|]. apply IH. simpl in Hlen. lia.
Qed.

Lemma replace_erased t0 tk s :
  erased (String t0 tk) s (PyStr.replace (String t0 tk) EmptyString s).
Proof. unfold PyStr.replace. by eapply replace_erased_len. Qed.

(** With a non-empty token the relation fixes its result. *)
Lemma erased_functional t0 tk s out1 out2 :
  erased (String t0 tk) s out1 → erased (String t0 tk) s out2 → out1 = out2.
Proof.
  intros H1. revert out2.
  induction H1 as [|s out H IH|c s out Hs H IH]; intros out2 H2.
  - by inversion H2.
  - remember (String t0 tk +:+ s) as u eqn:Eu.
    destruct H2 as [|s' out' H'|c s' out' Hs' H'].
    + discriminate.
    + simpl in Eu. injection Eu as Eu.
      assert (s' = s) as ->.
      { revert Eu. clear. induction tk as [|a tk IHt]; simpl; [done|].
        intros [= E]. auto. }
      by apply IH.
    + rewrite Eu, starts_with_refl in Hs'. discriminate.
  - remember (String c s) as u eqn:Eu.
    destruct H2 as [|s' out' H'|c' s' out' Hs' H'].
    + discriminate.
    + rewrite starts_with_refl in Hs. discriminate.
    + injection Eu as -> ->. f_equal. by apply IH.
Qed.

Lemma append_cons a (s t : string) : String a s +:+ t = String a (s +:+ t).
Proof. reflexivity. Qed.

Lemma append_nil (t : string) : EmptyString +:+ t = t.
Proof. reflexivity. Qed.

Lemma lstrip_split s :
  ∃ l, s = l +:+ PyStr.lstrip s ∧ all_space l = true
       ∧ (∀ c t, PyStr.lstrip s = String c t → PyStr.is_space c = false).
Proof.
  induction s as [|a s (l & Hs & Hl & Hc)]; simpl.
  - exists EmptyString. by repeat split.
  - destruct (PyStr.is_space a) eqn:E.
    + exists (String a l). rewrite append_cons, <- Hs. simpl. rewrite E, Hl.
      split; [done|]. split; [done|]. apply Hc.
    + exists EmptyString. split; [done|]. split; [done|].
      by intros c t [= <- <-].
Qed.

Lemma rstrip_split s :
  ∃ r, s = PyStr.rstrip s +:+ r ∧ all_space r = true
       ∧ (∀ t c, PyStr.rstrip s = t +:+ String c EmptyString → PyStr.is_space c = false).
Proof.
  induction s as [|a s (r & Hs & Hr & Hc)]; simpl.
  - exists EmptyString. split; [done|]. split; [done|].
    intros [|x t] c; rewrite ?append_cons, ?append_nil; discriminate.
  - destruct (PyStr.rstrip s) as [|b u] eqn:Eu.
    + rewrite append_nil in Hs. subst r. destruct (PyStr.is_space a) eqn:E.
      * exists (String a s). rewrite append_nil. simpl. rewrite E, Hr.
        split; [done|]. split; [done|].
        intros [|x t] c; rewrite ?append_cons, ?append_nil; discriminate.
      * exists s. rewrite append_cons, append_nil. split; [done|]. split; [done|].
        intros [|x t] c; rewrite ?append_cons, ?append_nil.
        -- by intros [= <-].
        -- intros [= _ H]. destruct t; discriminate.
    + exists r. rewrite append_cons, <- Hs. split; [done|]. split; [done|].
      intros [|x t] c; rewrite ?append_cons, ?append_nil.
      * discriminate.
      * intros [= _ H]. by eapply Hc.
Qed.

Lemma rstrip_head s c t :
  PyStr.rstrip s = String c t → ∃ t', s = String c t'.
Proof.
  destruct s as [|a s]; simpl; [discriminate|].
  destruct (PyStr.rstrip s); [destruct (PyStr.is_space a)|]; intros [= <- _]; eauto.
Qed.

Lemma strip_trimmed s : trimmed s (PyStr.strip s).
Proof.
  unfold PyStr.strip.
  destruct (lstrip_split s) as (l & Hs & Hl & Hc).
  destruct (rstrip_split (PyStr.lstrip s)) as (r & Hs' & Hr & Hc').
  split; [|split].
  - exists l, r. split; [|done]. by rewrite <- Hs'.
  - intros c t H. apply rstrip_head in H as [t' H]. by eapply Hc.
  - done.
Qed.

(** C8, counterexample: a token that is not at the front is removed too,
    which removal of a prefix would not do. *)
Lemma prefix_reading_fails :
  clean_id fixed2 (Str "A-SPOT-7") ≠ prefix_key (astype_str fixed2 (Str "A-SPOT-7")).
Proof. vm_compute. discriminate. Qed.

(** C8, amended: the canonical key is the string-cast value with every
    occurrence of "SPOT-" taken out, wherever it stands, and the whitespace
    at the two ends of the rest removed; "SPOT-1001" and " 1001 " both
    give "1001", and a finance row and a repairs row written these two ways
    end in one Master Record. *)
Theorem clean_id_erases_token (repr_float : Q → string) (c : cell) :
  (∃ out, erased "SPOT-" (astype_str repr_float c) out
          ∧ trimmed out (clean_id repr_float c))
  ∧ clean_id repr_float (Str "SPOT-1001") = "1001"
  ∧ clean_id repr_float (Str " 1001 ") = "1001"
  ∧ (run_logic no_float fixed2 fleet).2 = Ok fleet_master.
Proof.
  split; [|by vm_compute].
  exists (PyStr.replace "SPOT-" EmptyString (astype_str repr_float c)).
  split; [apply replace_erased | apply strip_trimmed].
Qed.

(** ** The anatomy of a returned Master Record set *)

Lemma merged_master_payoff fin rep odo dist m v :
  wf_frame fin = true →
  merged_master fin rep odo dist = Ok m → get_col "payoff_balance" fin = Ok v →
  get_col "payoff_balance" m = Ok (map (fillna 0) v).
Proof.
  unfold merged_master. intros Hwf H Hv. ok_steps.
  rename a into m1, a0 into m2, a1 into m3, a2 into m4.
  apply base_master_spec in Hstep as (_ & W1 & _ & P1).
  apply merge_repairs_spec in Hstep0 as (_ & W2 & K2).
  apply merge_odometer_spec in Hstep1 as (_ & W3 & K3).
  apply merge_distance_spec in Hstep2 as (_ & _ & K4).
  apply get_col_fillna. exists v. split; [|done].
  apply (merge_keeps m3 m4); [auto | done|].
  apply (merge_keeps m2 m3); [auto | done|].
  apply (merge_keeps m1 m2); [auto | done|]. by rewrite P1.
Qed.

Lemma payoff_column_Num to_float fin pay i c :
  get_col "payoff_balance" (estimate_payoff to_float fin) = Ok pay →
  pay !! i = Some c → ∃ p, c = Num p.
Proof.
  rewrite payoff_column_of. intros [= <-].
  destruct (first_col pay_hint fin).
  - unfold payoff_column. rewrite lookup_map. destruct (_ !! i) as [x|]; simpl; [|done].
    intros [= <-]. apply payoff_cell_Num.
  - intros H. apply list_elem_of_lookup_2, list_elem_of_In, repeat_spec in H. eauto.
Qed.

Lemma build_master_anatomy format_2f fin rep odo dist master :
  wf_frame fin = true →
  build_master format_2f fin rep odo dist = Ok master →
  ∃ m m5 res odometer0 repairs0 miles0 wear resale0 resale equity cpm,
    merged_master fin rep odo dist = Ok m
    ∧ wf_frame m = true ∧ nrows m = nrows fin
    ∧ get_col "odometer" m = Ok (map (fillna 0) odometer0)
    ∧ get_col "total_repairs" m = Ok (map (fillna 0) repairs0)
    ∧ get_col "recent_miles" m = Ok (map (fillna 0) miles0)
    ∧ mapM (λ c, cell_mul c 0.05) (map (fillna 0) odometer0) = Ok wear
    ∧ mapM (cell_sub (Num 65000)) wear = Ok resale0
    ∧ mapM (clip_lower 10000) resale0 = Ok resale
    ∧ (∀ pay, get_col "payoff_balance" fin = Ok pay →
         zipM cell_sub resale (map (fillna 0) pay) = Ok equity)
    ∧ zipM cell_div (map (fillna 0) repairs0)
        (map (replace_cell 0 1) (map (fillna 0) miles0)) = Ok cpm
    ∧ m5 = set_col "cpm" cpm (set_col "net_equity" equity
             (set_col "est_resale" resale (set_col "est_resale" resale0 m)))
    ∧ wf_frame m5 = true
    ∧ mapM (get_rec format_2f) (iterrows m5) = Ok res
    ∧ master = set_col "Reasoning" (map (λ r, Str r.2) res)
                 (set_col "Action" (map (λ r, Str r.1) res) m5).
Proof.
  intros Hwf H. unfold build_master in H. ok_steps.
  rename a into m, a0 into m5, Hstep into Hm, Hstep0 into Hf.
  unfold recommend in H. ok_steps. rename a into res, Hstep into Hres.
  destruct (merged_master_spec _ _ _ _ _ Hm) as (m4 & -> & N4 & W4 & _).
  pose proof (formulas_keeps _ _ Hf) as (_ & W5 & _).
  pose proof (formulas_spec _ _ Hf)
    as (o & wear & r0 & r & pay & eq & rp & mil & cpm
        & Ho & Hp & Hrp & Hmil & Hw & Hr0 & Hcl & Heq & Hcpm & E5).
  apply get_col_fillna in Ho as Ho'. destruct Ho' as (o0 & _ & ->).
  apply get_col_fillna in Hrp as Hrp'. destruct Hrp' as (rp0 & _ & ->).
  apply get_col_fillna in Hmil as Hmil'. destruct Hmil' as (mil0 & _ & ->).
  exists (df_fillna 0 m4), m5, res, o0, rp0, mil0, wear, r0, r, eq, cpm.
  repeat (split; [first [done | by apply wf_fillna, W4 | by apply W5, wf_fillna, W4]|]).
  split.
  - intros pay' Hpay'. rewrite (merged_master_payoff _ _ _ _ _ _ Hwf Hm Hpay') in Hp.
    by inversion Hp; subst.
  - repeat (split; [first [done | by apply W5, wf_fillna, W4]|]). done.
Qed.

Lemma lookup_wf_col df name v i :
  wf_frame df = true → get_col name df = Ok v → (i < nrows df)%nat →
  ∃ c, v !! i = Some c.
Proof.
  intros Hwf Hv Hi. apply lookup_lt_is_Some_2. by rewrite (wf_get_col _ _ _ Hwf Hv).
Qed.

Lemma lookup_map_Some {A B} (f : A → B) l i y :
  map f l !! i = Some y → ∃ x, l !! i = Some x ∧ y = f x.
Proof.
  rewrite lookup_map. destruct (l !! i) as [x|]; simpl; [|done].
  intros [= <-]. eauto.
Qed.

Lemma lookup_map_of {A B} (f : A → B) l i x :
  l !! i = Some x → map f l !! i = Some (f x).
Proof. intros H. by rewrite lookup_map, H. Qed.

(** One record of a returned set, field by field. *)
Lemma master_record to_float format_2f fin rep odo dist master i :
  wf_frame fin = true →
  build_master format_2f (estimate_payoff to_float fin) rep odo dist = Ok master →
  (i < nrows master)%nat →
  ∃ o t mi r p e c a reasoning pay,
    row_get (row_at master i) "odometer" = Ok (Num o)
    ∧ row_get (row_at master i) "total_repairs" = Ok (Num t)
    ∧ row_get (row_at master i) "recent_miles" = Ok (Num mi)
    ∧ row_get (row_at master i) "est_resale" = Ok (Num r)
    ∧ row_get (row_at master i) "payoff_balance" = Ok (Num p)
    ∧ row_get (row_at master i) "net_equity" = Ok (Num e)
    ∧ row_get (row_at master i) "cpm" = Ok (Num c)
    ∧ row_get (row_at master i) "Action" = Ok (Str a)
    ∧ row_get (row_at master i) "Reasoning" = Ok (Str reasoning)
    ∧ (e == r - p)%Q
    ∧ a = classify_simple o c e mi
    ∧ get_col "payoff_balance" (estimate_payoff to_float fin) = Ok pay
    ∧ pay !! i = Some (Num p)
    ∧ ∃ read, metrics_row read o c e mi
              ∧ get_rec format_2f read = Ok (a, reasoning).
Proof.
  intros Hwf Hb Hi.
  apply wf_estimate_payoff with (to_float := to_float) in Hwf as Hwf'.
  destruct (build_master_anatomy _ _ _ _ _ _ Hwf' Hb)
    as (m & m5 & res & o0 & rp0 & mil0 & wear & r0 & r & eq & cpm
        & Hm & Wm & Nm & Ho & Hrp & Hmil & Hw & Hr0 & Hcl & Heq & Hcpm & E5 & W5
        & Hres & ->).
  simpl in Hi.
  assert (nrows m5 = nrows m) as N5 by (by subst m5).
  rewrite N5 in Hi.
  destruct (payoff_numbers to_float fin) as (pay & Hpay & _).
  specialize (Heq pay Hpay).
  pose proof (merged_master_payoff _ _ _ _ _ _ Hwf' Hm Hpay) as Hpm.
  (* the cells of row i in the merged table *)
  destruct (lookup_wf_col _ _ _ i Wm Ho Hi) as [co Hco].
  destruct (lookup_wf_col _ _ _ i Wm Hrp Hi) as [ct Hct].
  destruct (lookup_wf_col _ _ _ i Wm Hmil Hi) as [cm Hcm].
  destruct (lookup_wf_col _ _ _ i Wm Hpm Hi) as [cp Hcp].
  destruct (lookup_map_Some _ _ _ _ Hcp) as (cp0 & Hcp0 & ->).
  destruct (payoff_column_Num _ _ _ _ _ Hpay Hcp0) as [p ->]. simpl in Hcp.
  (* est_resale *)
  destruct (mapM_Ok_lookup _ _ _ _ _ Hw Hco) as (w & Hwi & Hmul).
  destruct (mapM_Ok_lookup _ _ _ _ _ Hr0 Hwi) as (x0 & Hx0 & Hsub).
  destruct (mapM_Ok_lookup _ _ _ _ _ Hcl Hx0) as (x & Hx & Hclip).
  destruct (resale_cell co w x0 x) as (o & rs & -> & -> & _ & _);
    [by eapply lookup_fillna | done..|].
  (* net_equity *)
  destruct (zipM_Ok_lookup _ _ _ _ _ _ _ Heq Hx Hcp) as (ce & Hce & Hsubp).
  simpl in Hsubp. inversion Hsubp; subst ce; clear Hsubp.
  (* cpm *)
  pose proof (lookup_map_of (replace_cell 0 1) _ _ _ Hcm) as Hcm'.
  destruct (zipM_Ok_lookup _ _ _ _ _ _ _ Hcpm Hct Hcm') as (cc & Hcc & Hdiv).
  destruct (cpm_cell ct cm cc) as (t & mi & c & -> & -> & -> & _);
    [by eapply lookup_fillna | by eapply lookup_fillna | done|].
  (* the columns of the table the classifier reads *)
  assert (get_col "odometer" m5 = Ok (map (fillna 0) o0)) as Ho5
    by (subst m5; by rewrite !get_set_col_ne).
  assert (get_col "total_repairs" m5 = Ok (map (fillna 0) rp0)) as Hrp5
    by (subst m5; by rewrite !get_set_col_ne).
  assert (get_col "recent_miles" m5 = Ok (map (fillna 0) mil0)) as Hmil5
    by (subst m5; by rewrite !get_set_col_ne).
  assert (get_col "payoff_balance" m5 = Ok (map (fillna 0) pay)) as Hp5
    by (subst m5; by rewrite !get_set_col_ne).
  assert (get_col "est_resale" m5 = Ok r) as Hr5
    by (subst m5; rewrite 2!get_set_col_ne by done; apply get_set_col_eq).
  assert (get_col "net_equity" m5 = Ok eq) as He5
    by (subst m5; rewrite get_set_col_ne by done; apply get_set_col_eq).
  assert (get_col "cpm" m5 = Ok cpm) as Hc5
    by (subst m5; apply get_set_col_eq).
  (* the classifier on row i *)
  assert (iterrows m5 !! i = Some (row_at m5 i)) as Hrow.
  { unfold iterrows. rewrite lookup_map, lookup_seq_lt by lia. done. }
  destruct (mapM_Ok_lookup _ _ _ _ _ Hres Hrow) as ([a reasoning] & Hri & Hrec).
  assert (metrics_row (row_at m5 i) o c (Qred (rs - p)) mi) as Hmet.
  { repeat split; eapply row_get_row_at; eauto. }
  destruct (get_rec_action format_2f _ _ _ _ _ Hmet) as [reasoning' Hrec'].
  rewrite Hrec' in Hrec. inversion Hrec; subst a reasoning'; clear Hrec.
  exists o, t, mi, rs, p, (Qred (rs - p)), c, (classify_simple o c (Qred (rs - p)) mi),
    reasoning, pay.
  repeat split; try done;
    try (eapply row_get_row_at;
         [first [ by rewrite !get_set_col_ne by done; eassumption
                | by rewrite get_set_col_ne by done; apply get_set_col_eq
                | apply get_set_col_eq ]
         | first [eassumption | by apply (lookup_map_of (λ r, Str r.1)) in Hri
                 | by apply (lookup_map_of (λ r, Str r.2)) in Hri ]]).
  - apply Qred_correct.
  - by exists (row_at m5 i).
Qed.

Lemma iterrows_lookup df i row :
  iterrows df !! i = Some row ↔ (i < nrows df)%nat ∧ row = row_at df i.
Proof.
  unfold iterrows. rewrite lookup_map. split.
  - destruct (seq 0 (nrows df) !! i) as [j|] eqn:E; simpl; [|done].
    intros [= <-]. apply lookup_seq in E as [-> Hi]. done.
  - intros [Hi ->]. by rewrite lookup_seq_lt.
Qed.

(** X1: every record of a returned set has net_equity = est_resale -
    payoff_balance. *)
Theorem net_equity_formula to_float format_2f (dfs dfs' : gmap string DataFrame) fin master :
  dfs !! "finance" = Some fin → wf_frame fin = true →
  run_logic to_float format_2f dfs = (dfs', Ok master) →
  ∀ row, row ∈ iterrows master →
    ∃ est_resale payoff_balance net_equity,
      row_get row "est_resale" = Ok (Num est_resale)
      ∧ row_get row "payoff_balance" = Ok (Num payoff_balance)
      ∧ row_get row "net_equity" = Ok (Num net_equity)
      ∧ (net_equity == est_resale - payoff_balance)%Q.
Proof.
  intros Hfin Hwf Hrun row Hrow.
  apply run_logic_Ok in Hrun as [(_ & -> & _)|(fin' & Hfin' & _ & _ & _ & Hb)].
  { by apply elem_of_nil in Hrow. }
  assert (fin' = fin) as -> by congruence.
  apply elem_of_iterrows in Hrow as (i & Hi & ->).
  destruct (master_record _ _ _ _ _ _ _ i Hwf Hb Hi)
    as (o & t & mi & r & p & e & c & a & reasoning & pay
        & _ & _ & _ & Hr & Hp & He & _ & _ & _ & Heq & _).
  by exists r, p, e.
Qed.

Lemma net_equity_formula_fleet :
  (run_logic no_float fixed2 fleet).2 = Ok fleet_master
  ∧ ∀ row, row ∈ iterrows fleet_master →
      ∃ est_resale payoff_balance net_equity,
        row_get row "est_resale" = Ok (Num est_resale)
        ∧ row_get row "payoff_balance" = Ok (Num payoff_balance)
        ∧ row_get row "net_equity" = Ok (Num net_equity)
        ∧ (net_equity == est_resale - payoff_balance)%Q.
Proof.
  split; [reflexivity|].
  eapply (net_equity_formula no_float fixed2 fleet _ fleet_finance fleet_master);
    reflexivity.
Defined.

(** X2: the payoff balance of a record is 12 times the monthly payment of
    its finance row wherever that product fits a 64-bit integer, the payment
    being read from the first column whose name has "pay" and "month", a
    missing or unreadable payment counting as 0; without such a column it
    is 0.  The same number is left in the finance table's own
    payoff_balance column. *)
Theorem payoff_balance_formula to_float format_2f (dfs dfs' : gmap string DataFrame)
    fin master :
  dfs !! "finance" = Some fin → wf_frame fin = true →
  run_logic to_float format_2f dfs = (dfs', Ok master) →
  ∀ i row, iterrows master !! i = Some row →
    ∃ p fin',
      row_get row "payoff_balance" = Ok (Num p)
      ∧ dfs' !! "finance" = Some fin'
      ∧ row_get (row_at fin' i) "payoff_balance" = Ok (Num p)
      ∧ match first_col pay_hint fin with
        | Some pay_col =>
            ∃ c, row_get (row_at fin i) pay_col = Ok c
                 ∧ (fits_int64 (12 * payment to_float c) →
                    (p == 12 * payment to_float c)%Q)
        | None => (p == 0)%Q
        end.
Proof.
  intros Hfin Hwf Hrun i row Hrow.
  apply run_logic_Ok in Hrun as [(_ & -> & _)|(fin0 & Hfin0 & _ & _ & -> & Hb)].
  { by rewrite iterrows_lookup in Hrow; simpl in Hrow; lia. }
  assert (fin0 = fin) as -> by congruence.
  apply iterrows_lookup in Hrow as [Hi ->].
  destruct (master_record _ _ _ _ _ _ _ i Hwf Hb Hi)
    as (o & t & mi & r & p & e & c & a & reasoning & pay
        & _ & _ & _ & _ & Hp & _ & _ & _ & _ & _ & _ & Hpay & Hpi & _).
  exists p, (estimate_payoff to_float fin).
  split; [done|]. split; [by rewrite lookup_insert_eq|].
  split; [by eapply row_get_row_at|].
  rewrite payoff_column_of in Hpay. inversion Hpay as [E]; clear Hpay.
  destruct (first_col pay_hint fin) as [pay_col|] eqn:F.
  - subst pay. unfold payoff_column in Hpi.
    apply lookup_map_Some in Hpi as (x & Hx & Hv).
    apply first_col_Some in F as [_ [v Hcol]].
    apply get_col_Ok in Hcol as Hcol'. rewrite Hcol' in Hx, Hv. simpl in Hx, Hv.
    exists x. split; [by eapply row_get_row_at|].
    intros Hfits.
    destruct (payoff_cell_value to_float
                (forallb is_int64 (map (to_numeric to_float) v)) x)
      as (p' & Hp' & Ep'); [|done|].
    + intros Hall. rewrite forallb_forall in Hall. apply Hall, in_map.
      by eapply list_elem_of_In, list_elem_of_lookup_2.
    + rewrite Hp' in Hv. by injection Hv as ->.
  - subst pay. apply list_elem_of_lookup_2, list_elem_of_In, repeat_spec in Hpi.
    by inversion Hpi.
Qed.

Lemma payoff_balance_formula_fleet :
  (run_logic no_float fixed2 fleet).2 = Ok fleet_master
  ∧ ∀ i row, iterrows fleet_master !! i = Some row →
      ∃ p fin',
        row_get row "payoff_balance" = Ok (Num p)
        ∧ (run_logic no_float fixed2 fleet).1 !! "finance" = Some fin'
        ∧ row_get (row_at fin' i) "payoff_balance" = Ok (Num p)
        ∧ match first_col pay_hint fleet_finance with
          | Some pay_col =>
              ∃ c, row_get (row_at fleet_finance i) pay_col = Ok c
                   ∧ (fits_int64 (12 * payment no_float c) →
                      (p == 12 * payment no_float c)%Q)
          | None => (p == 0)%Q
          end.
Proof.
  split; [reflexivity|].
  eapply (payoff_balance_formula no_float fixed2 fleet _ fleet_finance fleet_master);
    reflexivity.
Defined.

(** X3: in every record of a returned set the Action is read off the
    record's own fields: SELL exactly under rule A, KEEP exactly under rule
    B without rule A, INSPECT exactly when neither holds. *)
Theorem action_by_rules to_float format_2f (dfs dfs' : gmap string DataFrame) fin master :
  dfs !! "finance" = Some fin → wf_frame fin = true →
  run_logic to_float format_2f dfs = (dfs', Ok master) →
  ∀ row, row ∈ iterrows master →
    ∃ odometer cpm net_equity recent_miles action,
      metrics_row row odometer cpm net_equity recent_miles
      ∧ row_get row "Action" = Ok (Str action)
      ∧ (action = "SELL" ↔ rule_A odometer cpm net_equity)
      ∧ (action = "KEEP" ↔ ¬ rule_A odometer cpm net_equity ∧ rule_B cpm recent_miles)
      ∧ (action = "INSPECT"
         ↔ ¬ rule_A odometer cpm net_equity ∧ ¬ rule_B cpm recent_miles).
Proof.
  intros Hfin Hwf Hrun row Hrow.
  apply run_logic_Ok in Hrun as [(_ & -> & _)|(fin' & Hfin' & _ & _ & _ & Hb)].
  { by apply elem_of_nil in Hrow. }
  assert (fin' = fin) as -> by congruence.
  apply elem_of_iterrows in Hrow as (i & Hi & ->).
  destruct (master_record _ _ _ _ _ _ _ i Hwf Hb Hi)
    as (o & t & mi & r & p & e & c & a & reasoning & pay
        & Ho & _ & Hmi & _ & _ & He & Hc & Ha & _ & _ & -> & _).
  exists o, c, e, mi, (classify_simple o c e mi).
  split; [done|]. split; [done|].
  destruct (classify_simple_cases o c e mi) as [[HA E]|[(HA & HB & E)|(HA & HB & E)]];
    rewrite E;
    (split; [|split]);
    (split; [intros Heq; first [discriminate Heq | tauto]
            | intros Hrules; first [reflexivity | tauto]]).
Qed.

Lemma action_by_rules_fleet :
  (run_logic no_float fixed2 fleet).2 = Ok fleet_master
  ∧ ∀ row, row ∈ iterrows fleet_master →
      ∃ odometer cpm net_equity recent_miles action,
        metrics_row row odometer cpm net_equity recent_miles
        ∧ row_get row "Action" = Ok (Str action)
        ∧ (action = "SELL" ↔ rule_A odometer cpm net_equity)
        ∧ (action = "KEEP" ↔ ¬ rule_A odometer cpm net_equity ∧ rule_B cpm recent_miles)
        ∧ (action = "INSPECT"
           ↔ ¬ rule_A odometer cpm net_equity ∧ ¬ rule_B cpm recent_miles).
Proof.
  split; [reflexivity|].
  eapply (action_by_rules no_float fixed2 fleet _ fleet_finance fleet_master);
    reflexivity.
Defined.

(** What the classifier writes as its reasoning. *)
Lemma get_rec_reasoning format_2f row o c e m a text :
  metrics_row row o c e m → get_rec format_2f row = Ok (a, text) →
  text = PyStr.join ", "
           ((if Qltb 500000 o then ["High Miles"] else [])
            ++ (if Qltb 0.15 c then ["High CPM ($" +:+ format_2f c +:+ ")"] else [])
            ++ [if Qltb 0 e then "Pos Equity" else "Neg Equity"]).
Proof.
  intros (Ho & Hc & He & Hm). unfold get_rec.
  rewrite Ho, Hc, He, Hm. cbn [bind cell_gt cell_lt].
  intros H. apply bind_Ok in H as (rec & _ & H). by injection H as _ <-.
Qed.

Lemma highs_empty (cost : list string) o c :
  cost ≠ [] →
  (if Qltb 500000 o then ["High Miles"] else []) ++ (if Qltb 0.15 c then cost else []) = []
  ↔ (o <= 500000)%Q ∧ (c <= 0.15)%Q.
Proof.
  intros Hcost. rewrite <- !Qltb_ge.
  destruct (Qltb 500000 o), (Qltb 0.15 c); cbn [app]; split; try done; intros [? ?]; done.
Qed.

Lemma sell_explained (cost : list string) o c e mi :
  cost ≠ [] →
  classify_simple o c e mi = "SELL"
  ↔ (if Qltb 500000 o then ["High Miles"] else []) ++ (if Qltb 0.15 c then cost else [])
    ≠ []
    ∧ (if Qltb 0 e then "Pos Equity" else "Neg Equity") = "Pos Equity".
Proof.
  intros Hcost. unfold classify_simple.
  destruct (Qltb 500000 o), (Qltb 0.15 c), (Qltb 0 e); cbn [orb andb app];
    split; intros H;
    try reflexivity;
    try (split; [|reflexivity]; first [discriminate | done]);
    try (destruct (Qltb c 0.12 && Qltb 2000 mi); discriminate H);
    destruct H as [H1 H2]; first [discriminate H2 | by destruct H1].
Qed.

(** X18: the reasoning of a record explains its Action: it lists "High
    Miles" when the odometer is above 500000, then the high cost per mile
    with its amount when the cpm is above 0.15, then "Pos Equity" or "Neg
    Equity" by the sign of the net equity, joined by commas; and the Action
    is SELL exactly when the list has a reason before its last entry and
    that entry is "Pos Equity". *)
Theorem reasoning_explains to_float format_2f (dfs dfs' : gmap string DataFrame)
    fin master :
  dfs !! "finance" = Some fin → wf_frame fin = true →
  run_logic to_float format_2f dfs = (dfs', Ok master) →
  ∀ row, row ∈ iterrows master →
    ∃ odometer cpm net_equity recent_miles action highs verdict,
      metrics_row row odometer cpm net_equity recent_miles
      ∧ row_get row "Action" = Ok (Str action)
      ∧ row_get row "Reasoning" = Ok (Str (PyStr.join ", " (highs ++ [verdict])))
      ∧ (verdict = "Pos Equity" ∧ (0 < net_equity)%Q
         ∨ verdict = "Neg Equity" ∧ (net_equity <= 0)%Q)
      ∧ highs
        = (if Qltb 500000 odometer then ["High Miles"] else [])
          ++ (if Qltb 0.15 cpm then ["High CPM ($" +:+ format_2f cpm +:+ ")"] else [])
      ∧ (highs = [] ↔ (odometer <= 500000)%Q ∧ (cpm <= 0.15)%Q)
      ∧ (action = "SELL" ↔ highs ≠ [] ∧ verdict = "Pos Equity").
Proof.
  intros Hfin Hwf Hrun row Hrow.
  apply run_logic_Ok in Hrun as [(_ & -> & _)|(fin' & Hfin' & _ & _ & _ & Hb)].
  { by apply elem_of_nil in Hrow. }
  assert (fin' = fin) as -> by congruence.
  apply elem_of_iterrows in Hrow as (i & Hi & ->).
  destruct (master_record _ _ _ _ _ _ _ i Hwf Hb Hi)
    as (o & t & mi & r & p & e & c & a & reasoning & pay
        & Ho & _ & Hmi & _ & _ & He & Hc & Ha & Hre & _ & -> & _ & _
        & read & Hread & Hrec).
  pose proof (get_rec_reasoning _ _ _ _ _ _ _ _ Hread Hrec) as ->.
  exists o, c, e, mi, (classify_simple o c e mi),
    ((if Qltb 500000 o then ["High Miles"] else [])
     ++ (if Qltb 0.15 c then ["High CPM ($" +:+ format_2f c +:+ ")"] else [])),
    (if Qltb 0 e then "Pos Equity" else "Neg Equity").
  split; [done|]. split; [done|].
  split; [by rewrite <- app_assoc|].
  split.
  { destruct (Qltb 0 e) eqn:E; [left | right]; split; try done.
    - by apply Qltb_lt. - by apply Qltb_ge. }
  split; [done|]. split; [by apply highs_empty | by apply sell_explained].
Qed.

Lemma reasoning_explains_fleet :
  (run_logic no_float fixed2 fleet).2 = Ok fleet_master
  ∧ ∀ row, row ∈ iterrows fleet_master →
      ∃ odometer cpm net_equity recent_miles action highs verdict,
        metrics_row row odometer cpm net_equity recent_miles
        ∧ row_get row "Action" = Ok (Str action)
        ∧ row_get row "Reasoning" = Ok (Str (PyStr.join ", " (highs ++ [verdict])))
        ∧ (verdict = "Pos Equity" ∧ (0 < net_equity)%Q
           ∨ verdict = "Neg Equity" ∧ (net_equity <= 0)%Q)
        ∧ highs
          = (if Qltb 500000 odometer then ["High Miles"] else [])
            ++ (if Qltb 0.15 cpm then ["High CPM ($" +:+ fixed2 cpm +:+ ")"] else [])
        ∧ (highs = [] ↔ (odometer <= 500000)%Q ∧ (cpm <= 0.15)%Q)
        ∧ (action = "SELL" ↔ highs ≠ [] ∧ verdict = "Pos Equity").
Proof.
  split; [reflexivity|].
  eapply (reasoning_explains no_float fixed2 fleet _ fleet_finance fleet_master);
    reflexivity.
Defined.

Lemma col_names_set_col_fresh name v df names :
  col_names df = names → existsb (String.eqb name) names = false →
  col_names (set_col name v df) = names ++ [name].
Proof.
  intros <- H. rewrite col_names_set_col. unfold has_col. by rewrite H.
Qed.

Lemma col_names_set_col_present name v df names :
  col_names df = names → existsb (String.eqb name) names = true →
  col_names (set_col name v df) = names.
Proof.
  intros <- H. rewrite col_names_set_col. unfold has_col. by rewrite H.
Qed.

Lemma build_master_names format_2f fin rep odo dist master :
  build_master format_2f fin rep odo dist = Ok master →
  col_names master = master_columns.
Proof.
  intros Hb.
  assert (∀ b, unresolved "amount" rep || unresolved "odo" odo
               || unresolved "dist" dist = b → b = false) as U.
  { intros [] E; [|done]. by destruct (unresolved_source_raises _ _ _ _ _ E _ Hb). }
  specialize (U _ eq_refl). apply orb_false_iff in U as [U Ud].
  apply orb_false_iff in U as [Ur Uo].
  unfold build_master in Hb. ok_steps. rename a into m, a0 into m5.
  apply merged_master_names in Hstep. rewrite Ur, Uo, Ud in Hstep. simpl in Hstep.
  apply formulas_spec in Hstep0
    as (o & wear & r0 & r & pay & eq & rp & mil & cpm & _ & _ & _ & _ & _ & _ & _ & _ & _ & ->).
  unfold recommend in Hb. ok_steps.
  pose proof (col_names_set_col_fresh "est_resale" r0 _ _ Hstep eq_refl) as N1.
  pose proof (col_names_set_col_present "est_resale" r _ _ N1 eq_refl) as N2.
  pose proof (col_names_set_col_fresh "net_equity" eq _ _ N2 eq_refl) as N3.
  pose proof (col_names_set_col_fresh "cpm" cpm _ _ N3 eq_refl) as N4.
  pose proof (col_names_set_col_fresh "Action" (map (λ r, Str r.1) a) _ _ N4 eq_refl)
    as N5.
  exact (col_names_set_col_fresh "Reasoning" (map (λ r, Str r.2) a) _ _ N5 eq_refl).
Qed.

Lemma build_master_shape to_float format_2f fin rep odo dist master :
  build_master format_2f (estimate_payoff to_float fin) rep odo dist = Ok master →
  nrows master = nrows fin ∧ (wf_frame fin = true → wf_frame master = true).
Proof.
  intros Hb.
  apply build_master_spec in Hb as (m4 & m5 & N4 & W4 & _ & _ & Hf & Hr).
  pose proof (formulas_keeps _ _ Hf) as (N5 & W5 & _).
  pose proof (recommend_keeps _ _ _ Hr) as (N6 & W6 & _).
  split.
  - rewrite N6, N5. simpl. by rewrite N4, nrows_estimate_payoff.
  - intros Hwf. apply W6, W5, wf_fillna, W4. by apply wf_estimate_payoff.
Qed.

(** X4: a returned set is either the empty table of a roster that did not
    resolve, or a table of thirteen columns in a fixed order, with one row
    per finance row and every column filled for every row. *)
Theorem master_layout to_float format_2f (dfs dfs' : gmap string DataFrame) master :
  run_logic to_float format_2f dfs = (dfs', Ok master) →
  master = empty_frame
  ∨ (col_names master = master_columns
     ∧ ∃ fin, dfs !! "finance" = Some fin
         ∧ nrows master = nrows fin
         ∧ (wf_frame fin = true → wf_frame master = true)).
Proof.
  intros Hrun.
  apply run_logic_Ok in Hrun as [(_ & -> & _)|(fin & Hfin & _ & _ & _ & Hb)];
    [by left|]. right.
  split; [by eapply build_master_names|].
  exists fin. split; [done|]. by eapply build_master_shape.
Qed.

Lemma master_layout_fleet :
  (run_logic no_float fixed2 fleet).2 = Ok fleet_master
  ∧ (fleet_master = empty_frame
     ∨ (col_names fleet_master = master_columns
        ∧ ∃ fin, fleet !! "finance" = Some fin
            ∧ nrows fleet_master = nrows fin
            ∧ (wf_frame fin = true → wf_frame fleet_master = true))).
Proof.
  split; [reflexivity|].
  eapply (master_layout no_float fixed2 fleet _ fleet_master). reflexivity.
Defined.

(** ** What the aggregates are *)









Lemma filter_numbers l :
  forallb is_number l = true →
  List.filter (λ c, negb (is_nan c)) l = map Num (numbers l).
Proof.
  induction l as [|c l IH]; simpl; [done|].
  intros [Hc Hl]%andb_true_iff. destruct c; simpl; try discriminate; by rewrite IH.
Qed.

Lemma foldM_add_total qs q :
  ∃ t, foldM cell_add (Num q) (map Num qs) = Ok (Num t) ∧ (t == q + total qs)%Q.
Proof.
  revert q. induction qs as [|x qs IH]; intros q; simpl.
  - exists q. split; [done|]. ring.
  - destruct (IH (Qred (q + x))) as (t & -> & Ht). exists t. split; [done|].
    rewrite Ht, Qred_correct. ring.
Qed.

Lemma agg_sum_total l :
  forallb is_number l = true →
  ∃ t, agg_sum l = Ok (Num t) ∧ (t == total (numbers l))%Q.
Proof.
  intros Hn. unfold agg_sum. rewrite (filter_numbers _ Hn).
  destruct (numbers l) as [|q qs]; simpl.
  - exists 0%Q. done.
  - destruct (foldM_add_total qs q) as (t & -> & Ht). eauto.
Qed.






















(** ** The filtered view *)

Lemma select_map {A B} (f : A → B) mask l :
  select mask (map f l) = map f (select mask l).
Proof.
  revert l. induction mask as [|b mask IH]; intros [|x l]; simpl; try done.
  destruct b; simpl; by rewrite IH.
Qed.

Lemma select_filter {A} (p : A → bool) l : select (map p l) l = List.filter p l.
Proof. induction l as [|x l IH]; simpl; [done|]. destruct (p x); by rewrite IH. Qed.

Lemma length_select {A B} mask (l : list A) (k : list B) :
  length l = length k → length (select mask l) = length (select mask k).
Proof.
  revert l k. induction mask as [|b mask IH]; intros [|x l] [|y k]; simpl; try done.
  intros [= H]. destruct b; simpl; by rewrite (IH _ _ H).
Qed.

(** Cutting a column by a mask picks the cells at the positions the mask
    picks. *)
Lemma select_seq {A} mask (l : list A) s j i :
  select mask (seq s (length l)) !! j = Some i →
  select mask l !! j = l !! (i - s)%nat ∧ (s ≤ i)%nat.
Proof.
  revert l s j. induction mask as [|b mask IH]; intros [|x l] s j; simpl; try done.
  destruct b.
  - destruct j as [|j]; simpl.
    + intros [= <-]. by rewrite Nat.sub_diag.
    + intros H. destruct (IH _ _ _ H) as [-> Hle].
      split; [|lia]. by replace (i - s)%nat with (S (i - S s)) by lia.
  - intros H. destruct (IH _ _ _ H) as [-> Hle].
    split; [|lia]. by replace (i - s)%nat with (S (i - S s)) by lia.
Qed.

Lemma wf_columns df nc :
  wf_frame df = true → In nc (columns df) → length nc.2 = nrows df.
Proof.
  unfold wf_frame. rewrite forallb_forall. intros H Hin.
  by apply Nat.eqb_eq, H.
Qed.

Lemma row_at_select mask df j i :
  wf_frame df = true →
  select mask (seq 0 (nrows df)) !! j = Some i →
  row_at (df_select mask df) j = row_at df i.
Proof.
  intros Hwf Hj. unfold row_at, df_select. simpl. rewrite map_map.
  apply map_ext_in. intros [name col] Hin. simpl. f_equal.
  pose proof (wf_columns _ _ Hwf Hin) as Hlen. simpl in Hlen.
  rewrite <- Hlen in Hj. apply select_seq in Hj as [-> _].
  by rewrite Nat.sub_0_r.
Qed.

Lemma iterrows_select mask df :
  wf_frame df = true →
  iterrows (df_select mask df) = select mask (iterrows df).
Proof.
  intros Hwf. unfold iterrows at 2. rewrite select_map.
  unfold iterrows. simpl.
  apply list_eq. intros j. rewrite !lookup_map.
  destruct (select mask (seq 0 (nrows df)) !! j) as [i|] eqn:E.
  - rewrite lookup_seq_lt by (apply lookup_lt_is_Some; eauto).
    simpl. f_equal. by apply row_at_select.
  - rewrite lookup_seq_ge by (by apply lookup_ge_None in E). done.
Qed.

Lemma column_by_rows df name v :
  wf_frame df = true → get_col name df = Ok v →
  v = map (λ row, default NaN (assoc name row)) (iterrows df).
Proof.
  intros Hwf Hv. pose proof (wf_get_col _ _ _ Hwf Hv) as Hlen.
  apply get_col_Ok in Hv.
  apply list_eq. intros i. unfold iterrows. rewrite map_map, lookup_map.
  destruct (decide (i < nrows df)%nat) as [Hi|Hi].
  - rewrite lookup_seq_lt by done. simpl. rewrite assoc_row_at, Hv. simpl.
    destruct (v !! i) as [c|] eqn:E; [done|].
    apply lookup_ge_None in E. lia.
  - rewrite lookup_seq_ge by lia. simpl. apply lookup_ge_None. lia.
Qed.

Lemma eq_mask_shows opt df action :
  wf_frame df = true → get_col "Action" df = Ok action →
  eq_mask opt action = map (shows opt) (iterrows df).
Proof.
  intros Hwf Ha. rewrite (column_by_rows _ _ _ Hwf Ha) at 1.
  unfold eq_mask. rewrite map_map. apply map_ext_in. intros row Hin.
  unfold shows.
  apply list_elem_of_In, elem_of_iterrows in Hin as (i & Hi & ->).
  rewrite assoc_row_at. apply get_col_Ok in Ha. by rewrite Ha.
Qed.

Lemma get_col_select name mask df v :
  get_col name df = Ok v → get_col name (df_select mask df) = Ok (select mask v).
Proof.
  rewrite !get_col_Ok. unfold df_select. simpl.
  induction (columns df) as [|[n c] cols IH]; simpl; [done|].
  destruct (String.eqb name n); [by intros [= ->] | done].
Qed.

Lemma wf_select mask df :
  wf_frame df = true → wf_frame (df_select mask df) = true.
Proof.
  intros Hwf. unfold wf_frame, df_select. simpl.
  rewrite forallb_forall. intros nc [nc0 [<- Hin]]%in_map_iff. simpl.
  apply Nat.eqb_eq, length_select.
  by rewrite (wf_columns _ _ Hwf Hin), length_seq.
Qed.

Lemma col_names_select mask df : col_names (df_select mask df) = col_names df.
Proof. unfold col_names, df_select. simpl. by rewrite map_map. Qed.

(** X8: the view of an Action holds the records with that Action and no
    other, as they are and in the order of the set; the view of "All" is
    the set itself. *)
Theorem view_rows filter_opt master_df action :
  wf_frame master_df = true →
  get_col "Action" master_df = Ok action →
  view_df "All" master_df = Ok master_df
  ∧ (filter_opt ≠ "All" →
     ∃ view,
       view_df filter_opt master_df = Ok view
       ∧ iterrows view = List.filter (shows filter_opt) (iterrows master_df)
       ∧ col_names view = col_names master_df
       ∧ wf_frame view = true).
Proof.
  intros Hwf Ha. split; [done|]. intros Hne.
  exists (df_select (eq_mask filter_opt action) master_df).
  split.
  - unfold view_df. apply String.eqb_neq in Hne. by rewrite Hne, Ha.
  - split; [|split; [apply col_names_select | by apply wf_select]].
    by rewrite (iterrows_select _ _ Hwf), (eq_mask_shows _ _ _ Hwf Ha), select_filter.
Qed.

Lemma view_rows_fleet :
  view_df "All" fleet_master = Ok fleet_master
  ∧ ("SELL" ≠ "All" →
     ∃ view,
       view_df "SELL" fleet_master = Ok view
       ∧ iterrows view = List.filter (shows "SELL") (iterrows fleet_master)
       ∧ col_names view = col_names fleet_master
       ∧ wf_frame view = true).
Proof.
  eapply (view_rows "SELL" fleet_master); reflexivity.
Defined.

(** ** The columns of a returned set *)

Lemma column_cells df name v (P : cell → Prop) :
  wf_frame df = true → get_col name df = Ok v →
  (∀ i, (i < nrows df)%nat → ∃ c, row_get (row_at df i) name = Ok c ∧ P c) →
  List.Forall P v.
Proof.
  intros Hwf Hv Hrows. pose proof (wf_get_col _ _ _ Hwf Hv) as Hlen.
  apply List.Forall_forall. intros c Hin.
  apply list_elem_of_In, list_elem_of_lookup in Hin as [i Hi].
  assert (i < nrows df)%nat as Hlt.
  { rewrite <- Hlen. apply lookup_lt_is_Some. eauto. }
  destruct (Hrows i Hlt) as (c' & Hc' & HP).
  rewrite (row_get_row_at _ _ _ _ _ Hv Hi) in Hc'. by injection Hc' as ->.
Qed.

Lemma Forall_Num v :
  List.Forall (λ c, ∃ x, c = Num x) v → v = map Num (numbers v).
Proof.
  induction 1 as [|c v [x ->] _ IH]; simpl; [done|]. by rewrite <- IH.
Qed.

Lemma has_master_column name master :
  col_names master = master_columns →
  existsb (String.eqb name) master_columns = true →
  ∃ v, get_col name master = Ok v.
Proof.
  intros Hn Hin. apply get_col_has_col. unfold has_col. by rewrite Hn.
Qed.

(** The columns the dashboard reads from a returned set. *)
Lemma master_numeric to_float format_2f fin rep odo dist master :
  wf_frame fin = true →
  build_master format_2f (estimate_payoff to_float fin) rep odo dist = Ok master →
  wf_frame master = true
  ∧ ∃ equity odometer cpm action,
      get_col "net_equity" master = Ok (map Num equity)
      ∧ get_col "odometer" master = Ok (map Num odometer)
      ∧ get_col "cpm" master = Ok (map Num cpm)
      ∧ get_col "Action" master = Ok action
      ∧ List.Forall (λ c, c = Str "SELL" ∨ c = Str "KEEP" ∨ c = Str "INSPECT") action.
Proof.
  intros Hwf Hb.
  pose proof (build_master_names _ _ _ _ _ _ Hb) as Hn.
  destruct (build_master_shape _ _ _ _ _ _ _ Hb) as [_ Hwm]. specialize (Hwm Hwf).
  split; [done|].
  destruct (has_master_column "net_equity" _ Hn eq_refl) as [ve Hve].
  destruct (has_master_column "odometer" _ Hn eq_refl) as [vo Hvo].
  destruct (has_master_column "cpm" _ Hn eq_refl) as [vc Hvc].
  destruct (has_master_column "Action" _ Hn eq_refl) as [va Hva].
  exists (numbers ve), (numbers vo), (numbers vc), va.
  assert (∀ i, (i < nrows master)%nat →
            (∃ c, row_get (row_at master i) "net_equity" = Ok c ∧ ∃ x, c = Num x)
            ∧ (∃ c, row_get (row_at master i) "odometer" = Ok c ∧ ∃ x, c = Num x)
            ∧ (∃ c, row_get (row_at master i) "cpm" = Ok c ∧ ∃ x, c = Num x)
            ∧ (∃ c, row_get (row_at master i) "Action" = Ok c
                    ∧ (c = Str "SELL" ∨ c = Str "KEEP" ∨ c = Str "INSPECT"))) as Hrows.
  { intros i Hi.
    destruct (master_record _ _ _ _ _ _ _ i Hwf Hb Hi)
      as (o & t & mi & r & p & e & c & a & reasoning & pay
          & Ho & _ & _ & _ & _ & He & Hc & Ha & _ & _ & -> & _).
    repeat split; eauto.
    eexists. split; [exact Ha|].
    destruct (classify_simple_cases o c e mi) as [[_ ->]|[(_ & _ & ->)|(_ & _ & ->)]];
      auto. }
  rewrite <- (Forall_Num ve), <- (Forall_Num vo), <- (Forall_Num vc).
  - repeat (split; [done|]).
    eapply column_cells; [done..|]. intros i Hi. apply (Hrows i Hi).
  - eapply column_cells; [done..|]. intros i Hi. apply (Hrows i Hi).
  - eapply column_cells; [done..|]. intros i Hi. apply (Hrows i Hi).
  - eapply column_cells; [done..|]. intros i Hi. apply (Hrows i Hi).
Qed.

(** A returned set that is not empty was built from the roster. *)
Lemma run_logic_built to_float format_2f (dfs dfs' : gmap string DataFrame) fin master :
  dfs !! "finance" = Some fin →
  run_logic to_float format_2f dfs = (dfs', Ok master) →
  df_empty master = false →
  build_master format_2f (estimate_payoff to_float fin)
    (default empty_frame (dfs !! "repairs"))
    (default empty_frame (dfs !! "odometer"))
    (default empty_frame (dfs !! "distance")) = Ok master.
Proof.
  intros Hfin Hrun He.
  apply run_logic_Ok in Hrun as [(_ & -> & _)|(fin' & Hfin' & _ & _ & _ & Hb)];
    [discriminate|].
  by assert (fin' = fin) as -> by congruence.
Qed.

Lemma length_select_mask {A} (mask : list bool) (l : list A) :
  length l = length mask → length (select mask l) = length (List.filter id mask).
Proof.
  revert l. induction mask as [|b mask IH]; intros [|x l]; simpl; try done.
  intros [= H]. destruct b; simpl; by rewrite (IH _ H).
Qed.

Lemma count_three action :
  List.Forall (λ c, c = Str "SELL" ∨ c = Str "KEEP" ∨ c = Str "INSPECT") action →
  (length (List.filter id (eq_mask "KEEP" action))
   + length (List.filter id (eq_mask "SELL" action))
   + length (List.filter id (eq_mask "INSPECT" action)) = length action)%nat.
Proof.
  induction 1 as [|c v Hc _ IH]; [done|].
  destruct Hc as [->|[->| ->]]; simpl in *; lia.
Qed.

Lemma view_df_filter filter_opt master action :
  filter_opt ≠ "All" → get_col "Action" master = Ok action →
  view_df filter_opt master = Ok (df_select (eq_mask filter_opt action) master).
Proof.
  intros Hne Ha. unfold view_df. apply String.eqb_neq in Hne. by rewrite Hne, Ha.
Qed.

Lemma nrows_select df action opt :
  wf_frame df = true → get_col "Action" df = Ok action →
  nrows (df_select (eq_mask opt action) df)
  = length (List.filter id (eq_mask opt action)).
Proof.
  intros Hwf Ha. unfold df_select. simpl.
  apply length_select_mask. unfold eq_mask.
  by rewrite length_seq, length_map, (wf_get_col _ _ _ Hwf Ha).
Qed.

(** X9: every record of a returned set is in the view of one of the three
    Actions and of one only: the three views are there, and their sizes add
    up to the size of the set. *)
Theorem views_partition to_float format_2f (dfs dfs' : gmap string DataFrame)
    fin master :
  dfs !! "finance" = Some fin → wf_frame fin = true →
  run_logic to_float format_2f dfs = (dfs', Ok master) →
  df_empty master = false →
  ∃ keep sell inspect,
    view_df "KEEP" master = Ok keep
    ∧ view_df "SELL" master = Ok sell
    ∧ view_df "INSPECT" master = Ok inspect
    ∧ (nrows keep + nrows sell + nrows inspect = nrows master)%nat.
Proof.
  intros Hfin Hwf Hrun He.
  pose proof (run_logic_built _ _ _ _ _ _ Hfin Hrun He) as Hb.
  destruct (master_numeric _ _ _ _ _ _ _ Hwf Hb)
    as (Hwm & eq & od & cp & action & _ & _ & _ & Ha & Hall).
  do 3 eexists.
  split; [by apply view_df_filter|].
  split; [by apply view_df_filter|].
  split; [by apply view_df_filter|].
  rewrite !(nrows_select _ _ _ Hwm Ha), (count_three _ Hall).
  by apply wf_get_col with (name := "Action").
Qed.

Lemma views_partition_fleet :
  (run_logic no_float fixed2 fleet).2 = Ok fleet_master
  ∧ ∃ keep sell inspect,
      view_df "KEEP" fleet_master = Ok keep
      ∧ view_df "SELL" fleet_master = Ok sell
      ∧ view_df "INSPECT" fleet_master = Ok inspect
      ∧ (nrows keep + nrows sell + nrows inspect = nrows fleet_master)%nat.
Proof.
  split; [reflexivity|].
  eapply (views_partition no_float fixed2 fleet _ fleet_finance fleet_master);
    reflexivity.
Defined.

(** ** The metrics strip *)

Lemma numbers_Num xs : numbers (map Num xs) = xs.
Proof. induction xs as [|x xs IH]; simpl; [done | by rewrite IH]. Qed.

Lemma forallb_Num xs : forallb is_number (map Num xs) = true.
Proof. by induction xs. Qed.

Lemma sum_Num xs : ∃ t, agg_sum (map Num xs) = Ok (Num t) ∧ (t == total xs)%Q.
Proof.
  destruct (agg_sum_total _ (forallb_Num xs)) as (t & Ht & Et).
  rewrite numbers_Num in Et. eauto.
Qed.

Lemma mean_Num xs : ∃ a, series_mean (map Num xs) = Ok a ∧ mean_of xs a.
Proof.
  unfold series_mean. rewrite (filter_numbers _ (forallb_Num xs)), numbers_Num.
  destruct xs as [|x r]; simpl; [by exists NaN|].
  destruct (foldM_add_total r x) as (t & -> & Ht). simpl.
  rewrite length_map.
  assert (¬ (Z.of_nat (S (length r)) # 1 == 0)%Q) as Hnz.
  { unfold Qeq. simpl. lia. }
  destruct (Qeq_bool (Z.of_nat (S (length r)) # 1) 0) eqn:E.
  { by apply Qeq_bool_iff in E. }
  eexists. split; [done|]. eexists. split; [done|].
  rewrite Qred_correct, Ht. by field.
Qed.

Lemma metrics_Num view equity odometer cpm :
  get_col "net_equity" view = Ok (map Num equity) →
  get_col "odometer" view = Ok (map Num odometer) →
  get_col "cpm" view = Ok (map Num cpm) →
  ∃ total_equity avg_odometer avg_cpm,
    metrics view = Ok (nrows view, Num total_equity, avg_odometer, avg_cpm)
    ∧ (total_equity == total equity)%Q
    ∧ mean_of odometer avg_odometer ∧ mean_of cpm avg_cpm.
Proof.
  intros He Ho Hc. unfold metrics. rewrite He, Ho, Hc. simpl.
  destruct (sum_Num equity) as (t & -> & Ht).
  destruct (mean_Num odometer) as (ao & -> & Hao).
  destruct (mean_Num cpm) as (ac & -> & Hac). simpl.
  by exists t, ao, ac.
Qed.

(** X10: whatever the filter, the view of a returned set and its metrics
    strip are computed without raising: the count is the number of rows of
    the view, the total equity is the sum of their net equities, and the two
    averages are the means of their odometers and costs per mile, missing
    when the view has no row. *)
Theorem dashboard_metrics to_float format_2f (dfs dfs' : gmap string DataFrame)
    fin master filter_opt :
  dfs !! "finance" = Some fin → wf_frame fin = true →
  run_logic to_float format_2f dfs = (dfs', Ok master) →
  df_empty master = false →
  ∃ view equity odometer cpm total_equity avg_odometer avg_cpm,
    view_df filter_opt master = Ok view
    ∧ get_col "net_equity" view = Ok (map Num equity)
    ∧ get_col "odometer" view = Ok (map Num odometer)
    ∧ get_col "cpm" view = Ok (map Num cpm)
    ∧ length equity = nrows view ∧ length odometer = nrows view
    ∧ length cpm = nrows view
    ∧ metrics view = Ok (nrows view, Num total_equity, avg_odometer, avg_cpm)
    ∧ (total_equity == total equity)%Q
    ∧ mean_of odometer avg_odometer ∧ mean_of cpm avg_cpm.
Proof.
  intros Hfin Hwf Hrun He.
  pose proof (run_logic_built _ _ _ _ _ _ Hfin Hrun He) as Hb.
  destruct (master_numeric _ _ _ _ _ _ _ Hwf Hb)
    as (Hwm & eq & od & cp & action & Heq & Hod & Hcp & Ha & _).
  assert (∃ view eq' od' cp',
            view_df filter_opt master = Ok view ∧ wf_frame view = true
            ∧ get_col "net_equity" view = Ok (map Num eq')
            ∧ get_col "odometer" view = Ok (map Num od')
            ∧ get_col "cpm" view = Ok (map Num cp'))
    as (view & eq' & od' & cp' & Hv & Hwv & Heq' & Hod' & Hcp').
  { destruct (String.eqb filter_opt "All") eqn:E.
    - exists master, eq, od, cp. unfold view_df. by rewrite E.
    - apply String.eqb_neq in E.
      exists (df_select (eq_mask filter_opt action) master),
        (select (eq_mask filter_opt action) eq),
        (select (eq_mask filter_opt action) od),
        (select (eq_mask filter_opt action) cp).
      split; [by apply view_df_filter|].
      split; [by apply wf_select|].
      rewrite <- !select_map. by repeat split; apply get_col_select. }
  destruct (metrics_Num _ _ _ _ Heq' Hod' Hcp') as (t & ao & ac & Hm & Ht & Hao & Hac).
  exists view, eq', od', cp', t, ao, ac.
  pose proof (wf_get_col _ _ _ Hwv Heq') as L1.
  pose proof (wf_get_col _ _ _ Hwv Hod') as L2.
  pose proof (wf_get_col _ _ _ Hwv Hcp') as L3.
  rewrite length_map in L1, L2, L3.
  by repeat (split; [done|]).
Qed.

Lemma dashboard_metrics_fleet :
  (run_logic no_float fixed2 fleet).2 = Ok fleet_master
  ∧ ∃ view equity odometer cpm total_equity avg_odometer avg_cpm,
      view_df "KEEP" fleet_master = Ok view
      ∧ get_col "net_equity" view = Ok (map Num equity)
      ∧ get_col "odometer" view = Ok (map Num odometer)
      ∧ get_col "cpm" view = Ok (map Num cpm)
      ∧ length equity = nrows view ∧ length odometer = nrows view
      ∧ length cpm = nrows view
      ∧ metrics view = Ok (nrows view, Num total_equity, avg_odometer, avg_cpm)
      ∧ (total_equity == total equity)%Q
      ∧ mean_of odometer avg_odometer ∧ mean_of cpm avg_cpm.
Proof.
  split; [reflexivity|].
  eapply (dashboard_metrics no_float fixed2 fleet _ fleet_finance fleet_master "KEEP");
    reflexivity.
Defined.

(** ** When a run returns, and what it reads *)

(** X11: with a roster that resolves and sources whose value columns hold no
    text, a run returns a set exactly when each of the repairs, odometer
    and distance sources is a non-empty table with a canonical key and a
    value column, and the keys of each merge with the roster's: text with
    text or numbers with numbers.  With a source missing, empty or without
    such a column, or with keys of the other kind, it raises. *)
Theorem engine_returns_iff to_float format_2f (dfs : gmap string DataFrame) fin :
  dfs !! "finance" = Some fin → df_empty fin = false → has_col "clean_id" fin = true →
  numeric_values "amount" (default empty_frame (dfs !! "repairs")) = true →
  numeric_values "odo" (default empty_frame (dfs !! "odometer")) = true →
  numeric_values "dist" (default empty_frame (dfs !! "distance")) = true →
  (∃ master, (run_logic to_float format_2f dfs).2 = Ok master)
  ↔ (unresolved "amount" (default empty_frame (dfs !! "repairs")) = false
     ∧ unresolved "odo" (default empty_frame (dfs !! "odometer")) = false
     ∧ unresolved "dist" (default empty_frame (dfs !! "distance")) = false)
    ∧ mergeable fin (default empty_frame (dfs !! "repairs")) = true
    ∧ mergeable fin (default empty_frame (dfs !! "odometer")) = true
    ∧ mergeable fin (default empty_frame (dfs !! "distance")) = true.
Proof.
  intros Hfin He Hc Na No Nd. split.
  - intros [master Hm]. by eapply run_logic_returned.
  - intros ((Ur & Uo & Ud) & Mr & Mo & Md). by eapply run_logic_returns.
Qed.

Lemma engine_returns_iff_fleet :
  (∃ master, (run_logic no_float fixed2 fleet).2 = Ok master)
  ↔ (unresolved "amount" (default empty_frame (fleet !! "repairs")) = false
     ∧ unresolved "odo" (default empty_frame (fleet !! "odometer")) = false
     ∧ unresolved "dist" (default empty_frame (fleet !! "distance")) = false)
    ∧ mergeable fleet_finance (default empty_frame (fleet !! "repairs")) = true
    ∧ mergeable fleet_finance (default empty_frame (fleet !! "odometer")) = true
    ∧ mergeable fleet_finance (default empty_frame (fleet !! "distance")) = true.
Proof.
  eapply (engine_returns_iff no_float fixed2 fleet fleet_finance); reflexivity.
Defined.

(** X12: what a run returns depends on the finance, repairs, odometer and
    distance tables only: two dictionaries that agree on these four roles
    give the same result, whatever else they hold (the market table among
    it). *)
Theorem run_logic_reads_four to_float format_2f (dfs1 dfs2 : gmap string DataFrame) :
  (∀ role, In role ["finance"; "repairs"; "odometer"; "distance"] →
     dfs1 !! role = dfs2 !! role) →
  (run_logic to_float format_2f dfs1).2 = (run_logic to_float format_2f dfs2).2.
Proof.
  intros H. unfold run_logic.
  rewrite (H "finance"), (H "repairs"), (H "odometer"), (H "distance")
    by (simpl; tauto).
  by destruct (df_empty _ || negb (has_col _ _)).
Qed.

Lemma run_logic_reads_four_market :
  (∀ role, In role ["finance"; "repairs"; "odometer"; "distance"] →
     (<["market" := finance_sheet]> fleet) !! role = fleet !! role)
  ∧ (run_logic no_float fixed2 (<["market" := finance_sheet]> fleet)).2
    = (run_logic no_float fixed2 fleet).2.
Proof.
  assert (∀ role, In role ["finance"; "repairs"; "odometer"; "distance"] →
            (<["market" := finance_sheet]> fleet) !! role = fleet !! role) as H.
  { intros role [<-|[<-|[<-|[<-|[]]]]]; reflexivity. }
  split; [exact H|].
  exact (run_logic_reads_four no_float fixed2 _ _ H).
Defined.

(** ** The loader *)

Section LoaderFacts.

Variable repr_float : Q → string.
Variable path_exists : string → bool.
Variable read_csv : string → nat → option DataFrame.
Variable sheet_names : string → option (list string).
Variable parse : string → string → nat → option DataFrame.

(** Every role gets the table of its file. *)
Lemma load_lookup role filename :
  In (role, filename) files →
  load_initial_data repr_float path_exists read_csv sheet_names parse !! role
  = Some (load_table repr_float path_exists read_csv sheet_names parse filename).
Proof.
  unfold load_initial_data, files. simpl.
  intros [[= <- <-]|[[= <- <-]|[[= <- <-]|[[= <- <-]|[[= <- <-]|[]]]]]];
    repeat first [ by rewrite lookup_insert_eq | rewrite lookup_insert_ne by done ].
Qed.

Lemma load_table_absent filename :
  path_exists filename = false ∨ read_table read_csv sheet_names parse filename = None →
  load_table repr_float path_exists read_csv sheet_names parse filename = empty_frame.
Proof.
  unfold load_table. intros [-> | ->]; [done|]. by destruct (path_exists filename).
Qed.

Lemma standardize_id_roster df id_col :
  first_col id_hint df = Some id_col → df_empty df = false →
  df_empty (standardize_id repr_float df) = false
  ∧ has_col "clean_id" (standardize_id repr_float df) = true.
Proof.
  intros Hid He. unfold standardize_id. rewrite Hid. split.
  - by apply df_empty_set_col.
  - rewrite has_col_set_col. apply orb_true_r.
Qed.

(** X13: without the finance workbook there is nothing to show: when the
    file is not in the folder, when reading it fails, or when its sheet has
    neither a unit or truck column nor a canonical key, a run on the loaded
    tables returns the empty set and writes nothing, whatever the other
    files hold. *)
Theorem finance_file_needed to_float format_2f :
  path_exists "truck-finance.xlsx" = false
  ∨ read_table read_csv sheet_names parse "truck-finance.xlsx" = None
  ∨ (∃ df, read_table read_csv sheet_names parse "truck-finance.xlsx" = Some df
           ∧ first_col id_hint df = None ∧ has_col "clean_id" df = false) →
  run_logic to_float format_2f
    (load_initial_data repr_float path_exists read_csv sheet_names parse)
  = (load_initial_data repr_float path_exists read_csv sheet_names parse,
     Ok empty_frame).
Proof.
  intros H. unfold run_logic.
  rewrite (load_lookup "finance" "truck-finance.xlsx") by (simpl; tauto).
  destruct H as [H|[H|(df & Hr & Hid & Hc)]].
  - by rewrite load_table_absent by tauto.
  - by rewrite load_table_absent by tauto.
  - unfold load_table. rewrite Hr. unfold standardize_id. rewrite Hid.
    destruct (path_exists "truck-finance.xlsx"); [|done].
    change (default empty_frame (Some df)) with df. by rewrite Hc, orb_true_r.
Qed.

(** X14: the finance workbook alone is not enough: with a roster loaded
    from it and one of the repairs, odometer and distance files not in the
    folder, a run on the loaded tables raises. *)
Theorem finance_alone_raises to_float format_2f df id_col :
  path_exists "truck-finance.xlsx" = true →
  read_table read_csv sheet_names parse "truck-finance.xlsx" = Some df →
  df_empty df = false → first_col id_hint df = Some id_col →
  path_exists "maintenancepo-truck.xlsx" = false
  ∨ path_exists "truck-odometer-data-week-.xlsx" = false
  ∨ path_exists "vehicle-distance-traveled.xlsx" = false →
  ∀ master,
    (run_logic to_float format_2f
       (load_initial_data repr_float path_exists read_csv sheet_names parse)).2
    ≠ Ok master.
Proof.
  intros Hp Hr He Hid Hmiss.
  destruct (standardize_id_roster df id_col Hid He) as [He' Hc'].
  apply (run_logic_unresolved_raises to_float format_2f
           (load_initial_data repr_float path_exists read_csv sheet_names parse)
           (standardize_id repr_float df)); [|done..|].
  - rewrite (load_lookup "finance" "truck-finance.xlsx") by (simpl; tauto).
    unfold load_table. by rewrite Hp, Hr.
  - rewrite (load_lookup "repairs" "maintenancepo-truck.xlsx") by (simpl; tauto).
    rewrite (load_lookup "odometer" "truck-odometer-data-week-.xlsx") by (simpl; tauto).
    rewrite (load_lookup "distance" "vehicle-distance-traveled.xlsx") by (simpl; tauto).
    destruct Hmiss as [H|[H|H]]; rewrite (load_table_absent _ (or_introl H)); simpl.
    + done.
    + by rewrite orb_true_r.
    + by rewrite orb_true_r.
Qed.

(** X15: a roster that loads is the roster of the records: when the finance
    sheet has rows and a unit or truck column, a set a run on the loaded
    tables returns has one record per row of the sheet, in the order of the
    sheet, keyed by the cleaned value of that column. *)
Theorem loaded_roster_records to_float format_2f df id_col
    (dfs' : gmap string DataFrame) master :
  path_exists "truck-finance.xlsx" = true →
  read_table read_csv sheet_names parse "truck-finance.xlsx" = Some df →
  wf_frame df = true → df_empty df = false →
  first_col id_hint df = Some id_col →
  run_logic to_float format_2f
    (load_initial_data repr_float path_exists read_csv sheet_names parse)
  = (dfs', Ok master) →
  ∃ raw, get_col id_col df = Ok raw
         ∧ get_col "clean_id" master = Ok (map (λ c, Str (clean_id repr_float c)) raw)
         ∧ nrows master = nrows df.
Proof.
  intros Hp Hr Hwf He Hid Hrun.
  destruct (first_col_Some _ _ _ Hid) as [_ [raw Hraw]]. exists raw.
  split; [done|].
  destruct (standardize_id_roster df id_col Hid He) as [He' Hc'].
  assert (load_initial_data repr_float path_exists read_csv sheet_names parse
            !! "finance" = Some (standardize_id repr_float df)) as Hfin.
  { rewrite (load_lookup "finance" "truck-finance.xlsx") by (simpl; tauto).
    unfold load_table. by rewrite Hp, Hr. }
  apply run_logic_Ok in Hrun as [(_ & _ & G)|(fin & Hfin' & _ & _ & _ & Hb)].
  { rewrite Hfin in G. change (default empty_frame (Some ?x)) with x in G.
    by rewrite He', Hc' in G. }
  assert (fin = standardize_id repr_float df) as -> by congruence.
  assert (standardize_id repr_float df
          = set_col "clean_id" (map (λ c, Str (clean_id repr_float c)) raw) df) as E.
  { unfold standardize_id. rewrite Hid.
    apply get_col_Ok in Hraw. by rewrite Hraw. }
  assert (wf_frame (standardize_id repr_float df) = true) as Hwf'.
  { rewrite E. apply wf_set_col; [done|].
    by rewrite length_map, (wf_get_col _ _ _ Hwf Hraw). }
  destruct (build_master_columns _ _ _ _ _ _ (wf_estimate_payoff to_float _ Hwf') Hb)
    as (Hn & _ & Hk & _).
  split.
  - rewrite (Hk (map (λ c, Str (clean_id repr_float c)) raw)).
    + by rewrite map_map.
    + rewrite estimate_payoff_other by done. rewrite E. apply get_set_col_eq.
  - rewrite Hn, nrows_estimate_payoff, E. done.
Qed.

End LoaderFacts.

Lemma finance_file_needed_empty_folder :
  (empty_folder "truck-finance.xlsx" = false
   ∨ read_table no_csv two_sheets fleet_workbook "truck-finance.xlsx" = None
   ∨ (∃ df, read_table no_csv two_sheets fleet_workbook "truck-finance.xlsx" = Some df
            ∧ first_col id_hint df = None ∧ has_col "clean_id" df = false))
  ∧ run_logic no_float fixed2
      (load_initial_data fixed2 empty_folder no_csv two_sheets fleet_workbook)
    = (load_initial_data fixed2 empty_folder no_csv two_sheets fleet_workbook,
       Ok empty_frame).
Proof.
  split; [by left|].
  apply (finance_file_needed fixed2 empty_folder no_csv two_sheets fleet_workbook).
  by left.
Defined.

Lemma finance_alone_raises_finance_only :
  read_table no_csv two_sheets fleet_workbook "truck-finance.xlsx" = Some finance_sheet
  ∧ ∀ master,
      (run_logic no_float fixed2
         (load_initial_data fixed2 finance_only no_csv two_sheets fleet_workbook)).2
      ≠ Ok master.
Proof.
  split; [reflexivity|].
  eapply (finance_alone_raises fixed2 finance_only no_csv two_sheets fleet_workbook
            no_float fixed2 finance_sheet);
    [reflexivity | reflexivity | reflexivity | reflexivity | left; reflexivity].
Defined.

(** ** The sheet the loader reads *)

Lemma find_first {A} (p : A → bool) l x :
  find p l = Some x →
  ∃ before after, l = before ++ x :: after ∧ p x = true
                  ∧ ∀ y, In y before → p y = false.
Proof.
  induction l as [|a l IH]; simpl; [done|].
  destruct (p a) eqn:E.
  - intros [= ->]. exists [], l. by repeat split.
  - intros H. destruct (IH H) as (before & after & -> & Hx & Hb).
    exists (a :: before), after. repeat split; [done|].
    intros y [<-|Hy]; auto.
Qed.

(** X16: the loader reads the first sheet that is not an "About" sheet: the
    sheets before the one it reads all hold "about" in their names; it reads
    an "About" sheet only when the workbook has no other sheet, and then the
    first one; and only a workbook without sheets leaves it without a
    sheet. *)
Theorem target_sheet_choice names :
  (target_sheet names = None ↔ names = [])
  ∧ ∀ sheet, target_sheet names = Some sheet →
      (name_has "about" sheet = false
       ∧ ∃ before after, names = before ++ sheet :: after
           ∧ ∀ s, In s before → name_has "about" s = true)
      ∨ (name_has "about" sheet = true ∧ head names = Some sheet
         ∧ ∀ s, In s names → name_has "about" s = true).
Proof.
  unfold target_sheet. destruct names as [|first rest]; [by split|].
  split; [by split|]. intros sheet.
  destruct (find (λ s, negb (name_has "about" s)) (first :: rest)) as [s|] eqn:F;
    simpl; intros [= <-].
  - left. apply find_first in F as (before & after & -> & Hs & Hb).
    apply negb_true_iff in Hs. split; [done|].
    exists before, after. split; [done|].
    intros y Hy. by apply negb_false_iff, Hb.
  - right.
    assert (∀ y, In y (first :: rest) → name_has "about" y = true) as Hall.
    { intros y Hy. by apply negb_false_iff, (List.find_none _ _ F). }
    split; [apply Hall; by left|]. by split.
Qed.

Lemma loaded_roster_records_fleet :
  (run_logic no_float fixed2
     (load_initial_data fixed2 full_folder no_csv two_sheets fleet_workbook)).2
  = Ok fleet_master
  ∧ ∃ raw, get_col "Unit" finance_sheet = Ok raw
           ∧ get_col "clean_id" fleet_master = Ok (map (λ c, Str (clean_id fixed2 c)) raw)
           ∧ nrows fleet_master = nrows finance_sheet.
Proof.
  split; [reflexivity|].
  eapply (loaded_roster_records fixed2 full_folder no_csv two_sheets fleet_workbook
            no_float fixed2 finance_sheet "Unit" _ fleet_master); reflexivity.
Defined.

(** ** Keys that meet across files *)

Lemma starts_with_blank_tail p x r :
  (∀ a, In a (list_ascii_of_string p) → PyStr.is_space a = false) →
  all_space r = true →
  PyStr.starts_with p (x +:+ r) = PyStr.starts_with p x.
Proof.
  intros Hp Hr. revert x. induction p as [|a p IH]; intros x; [by destruct x|].
  assert (∀ a', In a' (list_ascii_of_string p) → PyStr.is_space a' = false) as Hp'.
  { intros a' Ha'. apply Hp. by right. }
  destruct x as [|b x]; rewrite ?append_nil, ?append_cons; simpl.
  - destruct r as [|c r]; [done|]. simpl in Hr.
    apply andb_true_iff in Hr as [Hc _].
    destruct (Ascii.eqb a c) eqn:E; [|done].
    apply Ascii.eqb_eq in E as <-. rewrite Hp in Hc; [done | by left].
  - destruct (Ascii.eqb a b); [by apply IH | done].
Qed.

Lemma starts_with_length p s :
  PyStr.starts_with p s = true → (String.length p ≤ String.length s)%nat.
Proof.
  revert s. induction p as [|a p IH]; intros [|b s]; simpl; try done; [lia|].
  destruct (Ascii.eqb a b); [|done]. intros H. specialize (IH _ H). lia.
Qed.

Lemma token_no_blank a :
  In a (list_ascii_of_string "SPOT-") → PyStr.is_space a = false.
Proof. simpl. intros [<-|[<-|[<-|[<-|[<-|[]]]]]]; reflexivity. Qed.

Lemma replace_from_0 old new c s :
  PyStr.replace_from 0 old new (String c s)
  = if PyStr.starts_with old (String c s)
    then new +:+ PyStr.replace_from (String.length old - 1) old new s
    else String c (PyStr.replace_from 0 old new s).
Proof. reflexivity. Qed.

Lemma blank_not_token c s :
  PyStr.is_space c = true → PyStr.starts_with "SPOT-" (String c s) = false.
Proof.
  intros Hc. cbn [PyStr.starts_with].
  destruct (Ascii.eqb "S" c) eqn:E; [|done].
  apply Ascii.eqb_eq in E as <-. discriminate.
Qed.

Lemma replace_blank_head l x :
  all_space l = true →
  PyStr.replace_from 0 "SPOT-" EmptyString (l +:+ x)
  = l +:+ PyStr.replace_from 0 "SPOT-" EmptyString x.
Proof.
  induction l as [|c l IH]; [done|]. cbn [all_space].
  intros [Hc Hl]%andb_true_iff.
  by rewrite !append_cons, replace_from_0, (blank_not_token _ _ Hc), IH.
Qed.

Lemma append_empty (s : string) : s +:+ EmptyString = s.
Proof. induction s as [|c s IH]; [done|]. by rewrite append_cons, IH. Qed.

Lemma string_app_assoc (a b c : string) : (a +:+ b) +:+ c = a +:+ b +:+ c.
Proof. induction a as [|x a IH]; [done|]. by rewrite !append_cons, IH. Qed.

Lemma replace_blank_tail x r skip :
  all_space r = true → (skip ≤ String.length x)%nat →
  PyStr.replace_from skip "SPOT-" EmptyString (x +:+ r)
  = PyStr.replace_from skip "SPOT-" EmptyString x +:+ r.
Proof.
  intros Hr. revert skip. induction x as [|c x IH]; intros skip Hs.
  - simpl in Hs. assert (skip = 0)%nat as -> by lia. rewrite append_nil.
    pose proof (replace_blank_head r EmptyString Hr) as H.
    rewrite append_empty in H. rewrite H. simpl. by rewrite append_empty.
  - rewrite append_cons. cbn [String.length] in Hs.
    destruct skip as [|k]; [|apply IH; lia].
    rewrite !replace_from_0.
    rewrite <- append_cons, (starts_with_blank_tail _ _ _ token_no_blank Hr).
    destruct (PyStr.starts_with "SPOT-" (String c x)) eqn:E.
    + apply starts_with_length in E. cbn [String.length] in E.
      rewrite !append_nil. apply IH. cbn [String.length Nat.sub]. lia.
    + by rewrite IH, append_cons by lia.
Qed.

Lemma replace_token_head s :
  PyStr.replace "SPOT-" EmptyString ("SPOT-" +:+ s) = PyStr.replace "SPOT-" EmptyString s.
Proof.
  unfold PyStr.replace. rewrite append_cons, replace_from_0.
  rewrite <- append_cons, starts_with_refl, append_nil.
  exact (replace_from_skip "SPOT-" EmptyString "POT-" s).
Qed.

Lemma lstrip_blank_head l x : all_space l = true → PyStr.lstrip (l +:+ x) = PyStr.lstrip x.
Proof.
  induction l as [|c l IH]; [done|]. cbn [all_space].
  intros [Hc Hl]%andb_true_iff. rewrite append_cons.
  cbn [PyStr.lstrip]. by rewrite Hc, IH.
Qed.

Lemma lstrip_blank r : all_space r = true → PyStr.lstrip r = EmptyString.
Proof.
  induction r as [|c r IH]; [done|]. cbn [all_space PyStr.lstrip].
  intros [Hc Hr]%andb_true_iff. by rewrite Hc, IH.
Qed.

Lemma rstrip_blank r : all_space r = true → PyStr.rstrip r = EmptyString.
Proof.
  induction r as [|c r IH]; [done|]. cbn [all_space PyStr.rstrip].
  intros [Hc Hr]%andb_true_iff. by rewrite IH, Hc.
Qed.

Lemma rstrip_blank_tail x r : all_space r = true → PyStr.rstrip (x +:+ r) = PyStr.rstrip x.
Proof.
  intros Hr. induction x as [|c x IH].
  - rewrite append_nil. by apply rstrip_blank.
  - rewrite append_cons. cbn [PyStr.rstrip]. by rewrite IH.
Qed.

Lemma strip_blank_tail x r : all_space r = true → PyStr.strip (x +:+ r) = PyStr.strip x.
Proof.
  intros Hr. unfold PyStr.strip. induction x as [|c x IH].
  - by rewrite append_nil, (lstrip_blank r Hr).
  - rewrite append_cons. cbn [PyStr.lstrip]. destruct (PyStr.is_space c); [done|].
    rewrite <- append_cons. by apply rstrip_blank_tail.
Qed.

Lemma strip_blanks l x r :
  all_space l = true → all_space r = true →
  PyStr.strip (l +:+ x +:+ r) = PyStr.strip x.
Proof.
  intros Hl Hr. rewrite <- (strip_blank_tail x r Hr).
  unfold PyStr.strip. by rewrite lstrip_blank_head.
Qed.

(** X17: the canonical key does not see how a raw identifier is dressed:
    blanks before and after it, with or without the token "SPOT-" in front,
    give the key of the bare identifier, so rows written in these ways in
    different files meet in one record. *)
Theorem clean_id_blind (repr_float : Q → string) (l s r : string) :
  all_space l = true → all_space r = true →
  clean_id repr_float (Str (l +:+ s +:+ r)) = clean_id repr_float (Str s)
  ∧ clean_id repr_float (Str (l +:+ "SPOT-" +:+ s +:+ r)) = clean_id repr_float (Str s).
Proof.
  intros Hl Hr.
  assert (∀ x, PyStr.strip (PyStr.replace "SPOT-" EmptyString (l +:+ x +:+ r))
               = PyStr.strip (PyStr.replace "SPOT-" EmptyString x)) as H.
  { intros x. unfold PyStr.replace.
    rewrite (replace_blank_head _ _ Hl), (replace_blank_tail _ _ 0 Hr) by lia.
    by apply strip_blanks. }
  unfold clean_id. simpl astype_str. split; [apply H|].
  rewrite <- (replace_token_head s), <- (H ("SPOT-" +:+ s)).
  by rewrite string_app_assoc.
Qed.

Lemma clean_id_blind_spot :
  clean_id fixed2 (Str (" " +:+ "1001" +:+ "  ")) = clean_id fixed2 (Str "1001")
  ∧ clean_id fixed2 (Str (" " +:+ "SPOT-" +:+ "1001" +:+ "  "))
    = clean_id fixed2 (Str "1001").
Proof.
  apply (clean_id_blind fixed2 " " "1001" "  "); reflexivity.
Defined.
